(** * Verification of the experiment runner (src/experiments/runner.js)

    A shallow embedding of the trial-execution and scoring pipeline:
    prompt construction, answer extraction, tolerance scoring, dry-run
    synthesis, the trial loop and the aggregator.

    Conventions of the embedding.
    - A JavaScript string is the list of its UTF-16 code units.
    - A JavaScript number is an exact rational, or one of NaN, +Infinity,
      -Infinity.  Finite values are kept exact: rounding to binary64 is not
      modelled, and +0 and -0 are identified.  The binary64 range is enforced
      where a decimal literal is parsed, since that is where the source tests
      for finiteness (a literal beyond the range is an infinity; the rounding
      of a literal to the nearest double is not modelled, nor is underflow
      to 0).  The tolerance check, whose boundary the rounding of
      doubles decides, is specified on the doubles themselves
      ([isWithinTolerance64]), and the error rates that the synthesizer
      compares with its draw are the doubles that their literals denote.
    - A property read on an object literal finds the own entries first and
      then the members every object inherits from [Object.prototype].
    - Effects (clock, random source, the HTTP call) are read from an
      environment of oracles, indexed by counters threaded through a world.

    Further on come the CSV writer and the command line of the runner, and
    the guessing game (class XAyBGame) that the source file also holds; of
    these, what touches the file system or the page is left out. *)

From Stdlib Require Import ZArith NArith QArith Qround Qabs Qreduction Qpower.
From Stdlib Require Import List String Ascii Bool PeanoNat Lia Psatz.
From Stdlib Require Import Floats.
Import ListNotations.

(* ================================================================== *)
(** * JavaScript numbers *)
(* ================================================================== *)

Module JSNumber.

Inductive number : Type :=
| Fin (q : Q)
| PInf
| NInf
| NaN.

(** Finite results are stored in lowest terms, so that equal numbers are
    equal terms. *)
Definition fin (q : Q) : number := Fin (Qred q).

Definition of_Z (z : Z) : number := Fin (inject_Z z).

Definition is_finite (x : number) : bool :=
  match x with Fin _ => true | _ => false end.

Definition is_nan (x : number) : bool :=
  match x with NaN => true | _ => false end.

Definition Qsign (q : Q) : comparison := (Qnum q ?= 0)%Z.

Definition num_neg (x : number) : number :=
  match x with
  | Fin q => fin (- q)
  | PInf => NInf
  | NInf => PInf
  | NaN => NaN
  end.

Definition num_add (x y : number) : number :=
  match x, y with
  | NaN, _ | _, NaN => NaN
  | PInf, NInf | NInf, PInf => NaN
  | PInf, _ | _, PInf => PInf
  | NInf, _ | _, NInf => NInf
  | Fin a, Fin b => fin (a + b)
  end.

Definition num_sub (x y : number) : number := num_add x (num_neg y).

Definition inf_of_sign (c : comparison) : number :=
  match c with Gt => PInf | Lt => NInf | Eq => NaN end.

Definition flip (c : comparison) : comparison := CompOpp c.

Definition num_mul (x y : number) : number :=
  match x, y with
  | NaN, _ | _, NaN => NaN
  | Fin a, Fin b => fin (a * b)
  | PInf, Fin b | Fin b, PInf => inf_of_sign (Qsign b)
  | NInf, Fin b | Fin b, NInf => inf_of_sign (flip (Qsign b))
  | PInf, PInf | NInf, NInf => PInf
  | PInf, NInf | NInf, PInf => NInf
  end.

(** Division; a zero divisor is the positive zero. *)
Definition num_div (x y : number) : number :=
  match x, y with
  | NaN, _ | _, NaN => NaN
  | Fin a, Fin b =>
      match Qsign b with
      | Eq => inf_of_sign (Qsign a)
      | _ => fin (a / b)
      end
  | Fin _, (PInf | NInf) => Fin 0
  | (PInf | NInf), (PInf | NInf) => NaN
  | PInf, Fin b => match Qsign b with Lt => NInf | _ => PInf end
  | NInf, Fin b => match Qsign b with Lt => PInf | _ => NInf end
  end.

Definition Math_abs (x : number) : number :=
  match x with
  | Fin q => fin (Qabs q)
  | PInf | NInf => PInf
  | NaN => NaN
  end.

(** [x <= y] and [x < y] of the language: false as soon as one side is NaN. *)
Definition num_le (x y : number) : bool :=
  match x, y with
  | NaN, _ | _, NaN => false
  | NInf, _ | _, PInf => true
  | PInf, _ | _, NInf => false
  | Fin a, Fin b => Qle_bool a b
  end.

Definition num_lt (x y : number) : bool :=
  match x, y with
  | NaN, _ | _, NaN => false
  | PInf, _ | _, NInf => false
  | NInf, _ | _, PInf => true
  | Fin a, Fin b => negb (Qle_bool b a)
  end.

Definition Math_max (x y : number) : number :=
  match x, y with
  | NaN, _ | _, NaN => NaN
  | PInf, _ | _, PInf => PInf
  | NInf, z | z, NInf => z
  | Fin a, Fin b => if Qle_bool a b then Fin b else Fin a
  end.

(** [Math.round]: the nearest integer, halves towards +Infinity. *)
Definition Math_round (x : number) : number :=
  match x with
  | Fin q => of_Z (Qfloor (q + (1 # 2)))
  | other => other
  end.

Definition is_integer (q : Q) : bool := (Zpos (Qden (Qred q)) =? 1)%Z.

(** [Math.pow] on a finite base and an integral finite exponent (the only
    use in the source is [Math.pow(10, digits)]); NaN elsewhere. *)
Definition Math_pow (b e : number) : number :=
  match b, e with
  | Fin b, Fin e =>
      if is_integer e then
        let z := Qfloor e in
        if Qeq_bool b 0 && (z <? 0)%Z then PInf else fin (Qpower b z)
      else NaN
  | _, _ => NaN
  end.

(** Truthiness of a number: false for 0 and NaN. *)
Definition truthy (x : number) : bool :=
  match x with
  | Fin q => negb (Qeq_bool q 0)
  | NaN => false
  | _ => true
  end.

End JSNumber.
Import JSNumber.

(* ================================================================== *)
(** * JavaScript strings *)
(* ================================================================== *)

Module JSString.

Definition code_unit := N.
Definition jsstring := list code_unit.

Definition lit (s : string) : jsstring :=
  map N_of_ascii (list_ascii_of_string s).

Definition cu (a : ascii) : code_unit := N_of_ascii a.

Definition str_eqb (a b : jsstring) : bool :=
  if list_eq_dec N.eq_dec a b then true else false.

(** [s.startsWith(p)], returning the rest of [s] after [p]. *)
Fixpoint strip_prefix (p s : jsstring) : option jsstring :=
  match p, s with
  | [], _ => Some s
  | a :: p', b :: s' => if N.eqb a b then strip_prefix p' s' else None
  | _ :: _, [] => None
  end.

(** [parts.join(sep)]. *)
Fixpoint join (sep : jsstring) (parts : list jsstring) : jsstring :=
  match parts with
  | [] => []
  | [p] => p
  | p :: rest => p ++ sep ++ join sep rest
  end.

End JSString.
Import JSString.

Coercion lit : string >-> jsstring.

Open Scope string_scope.
Open Scope list_scope.

(* ================================================================== *)
(** * Regular expressions

    The fragment of the language's regular expressions used by the source,
    with the backtracking semantics of the standard: alternatives are tried
    in priority order (greedy quantifiers try the longer match first) and
    the first complete match wins. *)
(* ================================================================== *)

Module Regex.

Inductive regex : Type :=
| Empty
| Class (p : code_unit -> bool)
| Cat (r1 r2 : regex)
| Opt (r : regex)
| Star (r : regex)
| Bol.

Definition Plus (r : regex) : regex := Cat r (Star r).

(** A continuation receives the index reached and the rest of the input,
    and answers with the end index of the whole match. *)
Definition cont := nat -> jsstring -> option nat.

Definition accept : cont := fun j _ => Some j.

Definition orelse {A} (x y : option A) : option A :=
  match x with Some _ => x | None => y end.

Fixpoint star_loop (step : nat -> jsstring -> cont -> option nat)
    (fuel : nat) (i : nat) (s : jsstring) (k : cont) : option nat :=
  match fuel with
  | O => k i s
  | S fuel' =>
      orelse
        (step i s (fun j t =>
           if (i <? j)%nat then star_loop step fuel' j t k else None))
        (k i s)
  end.

(** [run r i s k]: match [r] at index [i], where [s] is the input from
    index [i] on, then continue with [k]. *)
Fixpoint run (r : regex) (i : nat) (s : jsstring) (k : cont) : option nat :=
  match r with
  | Empty => k i s
  | Class p =>
      match s with
      | c :: s' => if p c then k (S i) s' else None
      | [] => None
      end
  | Cat a b => run a i s (fun j t => run b j t k)
  | Opt a => orelse (run a i s k) (k i s)
  | Star a => star_loop (run a) (List.length s) i s k
  | Bol => if (i =? 0)%nat then k i s else None
  end.

(** The match starting exactly at index [i], if any: its end index. *)
Definition match_at (r : regex) (i : nat) (s : jsstring) : option nat :=
  run r i s accept.

(** [r.exec(s)] for a regex without the g and y flags: the first index at
    which a match starts, with the end index of that match. *)
Fixpoint search (r : regex) (i : nat) (s : jsstring) : option (nat * nat) :=
  match match_at r i s with
  | Some e => Some (i, e)
  | None =>
      match s with
      | [] => None
      | _ :: s' => search r (S i) s'
      end
  end.

Definition exec (r : regex) (s : jsstring) : option (nat * nat) :=
  search r 0 s.

Definition test (r : regex) (s : jsstring) : bool :=
  match exec r s with Some _ => true | None => false end.

Definition substring (s : jsstring) (from to : nat) : jsstring :=
  firstn (to - from) (skipn from s).

(** [s.match(r)[0]] for a regex without the g flag. *)
Definition match_text (r : regex) (s : jsstring) : option jsstring :=
  match exec r s with
  | Some (b, e) => Some (substring s b e)
  | None => None
  end.

(** [s.split(r)] without a limit, for a regex without capture groups. *)
Fixpoint split_loop (r : regex) (fuel : nat) (piece : jsstring)
    (p q : nat) (s : jsstring) : list jsstring :=
  match fuel with
  | O => [piece ++ s]
  | S fuel' =>
      match s with
      | [] => [piece]
      | c :: s' =>
          match match_at r q s with
          | Some e =>
              if (e =? p)%nat
              then split_loop r fuel' (piece ++ [c]) p (S q) s'
              else piece :: split_loop r fuel' [] e e (skipn (e - q) s)
          | None => split_loop r fuel' (piece ++ [c]) p (S q) s'
          end
      end
  end.

Definition split (r : regex) (s : jsstring) : list jsstring :=
  match s with
  | [] => match match_at r 0 [] with Some _ => [] | None => [[]] end
  | _ => split_loop r (2 * List.length s + 1) [] 0 0 s
  end.

(** [s.replace(r, '')] for a regex with the g flag. *)
Fixpoint remove_loop (r : regex) (fuel : nat) (q : nat) (s : jsstring)
    : jsstring :=
  match fuel with
  | O => s
  | S fuel' =>
      match s with
      | [] => []
      | c :: s' =>
          match match_at r q s with
          | Some e =>
              if (q <? e)%nat
              then remove_loop r fuel' e (skipn (e - q) s)
              else c :: remove_loop r fuel' (S q) s'
          | None => c :: remove_loop r fuel' (S q) s'
          end
      end
  end.

Definition remove_all (r : regex) (s : jsstring) : jsstring :=
  remove_loop r (List.length s) 0 s.

(** ** Character classes *)

Definition is_char (a : ascii) : code_unit -> bool := fun c => N.eqb c (cu a).

(** A pattern character under the i flag: an ASCII letter matches both of
    its cases, any other character only itself. *)
Definition is_char_ci (a : ascii) : code_unit -> bool :=
  let n := cu a in
  fun c =>
    if ((65 <=? n) && (n <=? 90))%N then N.eqb c n || N.eqb c (n + 32)
    else if ((97 <=? n) && (n <=? 122))%N then N.eqb c n || N.eqb c (n - 32)
    else N.eqb c n.

(** [\d] *)
Definition is_digit : code_unit -> bool :=
  fun c => ((48 <=? c) && (c <=? 57))%N.

(** [\s]: the white space and line terminator code units. *)
Definition is_space : code_unit -> bool :=
  fun c =>
    (((9 <=? c) && (c <=? 13)) || (c =? 32) || (c =? 160) || (c =? 5760)
     || ((8192 <=? c) && (c <=? 8202)) || (c =? 8232) || (c =? 8233)
     || (c =? 8239) || (c =? 8287) || (c =? 12288) || (c =? 65279))%N.

Fixpoint chars_ci (l : list ascii) : regex :=
  match l with
  | [] => Empty
  | a :: l' => Cat (Class (is_char_ci a)) (chars_ci l')
  end.

(** A literal run of pattern characters under the i flag. *)
Definition text_ci (s : string) : regex := chars_ci (list_ascii_of_string s).

End Regex.
Import Regex.

(* ================================================================== *)
(** * Conversions between numbers and strings *)
(* ================================================================== *)

Module Conv.

(** The least magnitude that rounds to an infinity in binary64:
    2^1024 - 2^970. *)
Definition overflow_threshold : Q := inject_Z (2 ^ 1024 - 2 ^ 970).

Definition to_range (q : Q) : number :=
  if Qle_bool overflow_threshold (Qabs q)
  then (if Qle_bool 0 q then PInf else NInf)
  else fin q.

Fixpoint span (p : code_unit -> bool) (s : jsstring) : jsstring * jsstring :=
  match s with
  | c :: s' =>
      if p c then let (a, b) := span p s' in (c :: a, b) else ([], s)
  | [] => ([], [])
  end.

Definition digit_value (c : code_unit) : Z := Z.of_N c - 48.

Definition digits_value (ds : jsstring) : Z :=
  fold_left (fun acc d => acc * 10 + digit_value d)%Z ds 0%Z.

Definition trim (s : jsstring) : jsstring :=
  let drop := fix drop (s : jsstring) : jsstring :=
    match s with
    | c :: s' => if is_space c then drop s' else s
    | [] => []
    end in
  rev (drop (rev (drop s))).

(** The exponent part [e[+-]?digits] of a decimal literal, if [s] is one. *)
Definition exponent_part (s : jsstring) : option Z :=
  match s with
  | [] => Some 0%Z
  | c :: t =>
      if is_char_ci "e" c then
        let '(neg, t1) :=
          match t with
          | d :: t' =>
              if is_char "-" d then (true, t')
              else if is_char "+" d then (false, t')
              else (false, t)
          | [] => (false, t)
          end in
        let (ds, rest) := span is_digit t1 in
        match ds, rest with
        | _ :: _, [] =>
            Some (if neg then - digits_value ds else digits_value ds)%Z
        | _, _ => None
        end
      else None
  end.

(** The value of an unsigned decimal literal: digits, optional fraction,
    optional exponent. *)
Definition unsigned_decimal (s : jsstring) : option Q :=
  let (ip, s1) := span is_digit s in
  let '(fp, s2, dot) :=
    match s1 with
    | c :: t =>
        if is_char "." c then let (f, r) := span is_digit t in (f, r, true)
        else ([], s1, false)
    | [] => ([], s1, false)
    end in
  match ip, fp with
  | [], [] => None
  | _, _ =>
      match exponent_part s2 with
      | Some e =>
          let m := digits_value (ip ++ fp) in
          Some (inject_Z m * Qpower 10 (e - Z.of_nat (List.length fp)))
      | None => None
      end
  end.

(** [Number(s)] on strings: white space is trimmed, the empty string is 0,
    a signed decimal literal has its value (an infinity beyond the binary64
    range), and [Infinity] is recognised.  Radix-prefixed literals are not
    modelled; like any other text they give NaN here. *)
Definition Number_of_string (s : jsstring) : number :=
  let t := trim s in
  match t with
  | [] => Fin 0
  | c :: t' =>
      let '(neg, body) :=
        if is_char "-" c then (true, t')
        else if is_char "+" c then (false, t')
        else (false, t) in
      if str_eqb body "Infinity" then (if neg then NInf else PInf)
      else
        match unsigned_decimal body with
        | Some q => to_range (if neg then - q else q)
        | None => NaN
        end
  end.

(** ** Printing *)

Fixpoint digits_of (fuel : nat) (n : Z) (acc : jsstring) : jsstring :=
  match fuel with
  | O => acc
  | S f =>
      let d := (48 + Z.to_N (n mod 10))%N in
      if (n <? 10)%Z then d :: acc else digits_of f (n / 10)%Z (d :: acc)
  end.

(** Decimal digits of a non-negative integer. *)
Definition Z_digits (n : Z) : jsstring :=
  digits_of (S (Z.to_nat (Z.log2 n))) n [].

(** The least [e] (within the fuel) with [q * 10^e] an integer, and that
    integer. *)
Fixpoint decimal_scale (fuel : nat) (q : Q) (e : nat) : Z * nat :=
  match fuel with
  | O => (Qfloor q, e)
  | S f =>
      if is_integer q then (Qfloor q, e)
      else decimal_scale f (Qred (q * 10)) (S e)
  end.

Fixpoint strip_zeros (fuel : nat) (n : Z) (z : nat) : Z * nat :=
  match fuel with
  | O => (n, z)
  | S f =>
      if ((n mod 10 =? 0) && (0 <? n))%Z then strip_zeros f (n / 10)%Z (S z)
      else (n, z)
  end.

Definition zeros (n : nat) : jsstring := repeat (cu "0") n.

(** Number::toString for a positive rational with a finite decimal
    expansion [s * 10^(n-k)], [s] having [k] digits and no trailing zero:
    positional notation for [-6 < n <= 21], exponent notation otherwise.
    (An expansion longer than 400 fractional digits is cut there.) *)
Definition positive_to_string (q : Q) : jsstring :=
  let (m, e) := decimal_scale 400 (Qred q) 0 in
  let (s, z) := strip_zeros (S (Z.to_nat (Z.log2 m))) m 0 in
  let ds := Z_digits s in
  let k := Z.of_nat (List.length ds) in
  let n := (k + Z.of_nat z - Z.of_nat e)%Z in
  if ((k <=? n) && (n <=? 21))%Z then ds ++ zeros (Z.to_nat (n - k))
  else if ((0 <? n) && (n <=? 21))%Z then
    firstn (Z.to_nat n) ds ++ lit "." ++ skipn (Z.to_nat n) ds
  else if ((-6 <? n) && (n <=? 0))%Z then
    lit "0." ++ zeros (Z.to_nat (- n)) ++ ds
  else
    let x := (n - 1)%Z in
    let sign := if (0 <=? x)%Z then lit "+" else lit "-" in
    match ds with
    | [d] => [d] ++ lit "e" ++ sign ++ Z_digits (Z.abs x)
    | d :: rest => [d] ++ lit "." ++ rest ++ lit "e" ++ sign ++ Z_digits (Z.abs x)
    | [] => []
    end.

(** [String(x)] and the interpolation of a number into a template. *)
Definition number_to_string (x : number) : jsstring :=
  match x with
  | NaN => lit "NaN"
  | PInf => lit "Infinity"
  | NInf => lit "-Infinity"
  | Fin q =>
      match Qsign q with
      | Eq => lit "0"
      | Gt => positive_to_string q
      | Lt => lit "-" ++ positive_to_string (- q)
      end
  end.

End Conv.
Import Conv.

(* ================================================================== *)
(** * Problem catalog and prompt templates *)
(* ================================================================== *)

Record Problem : Type := {
  id : jsstring;
  topic : jsstring;
  statement : jsstring;
  expectedValue : number;
  toleranceRatio : number;
  units : jsstring;
  septagonNodes : list jsstring
}.

Definition nl : jsstring := [10%N].
Definition dquote : jsstring := [34%N].

Definition mechanics_a : Problem := {|
  id := "mechanics_a";
  topic := "Classical Mechanics";
  statement := "A 2 kg object is pulled with a horizontal force of 10 N on a frictionless surface. Calculate its acceleration.";
  expectedValue := Fin 5;
  toleranceRatio := Fin (1 # 20);
  units := "m/s^2";
  septagonNodes :=
    [ lit "mass m = 2 kg";
      lit "horizontal force F = 10 N";
      lit "frictionless surface";
      lit "target: acceleration a" ]
|}.

Definition em_bfield : Problem := {|
  id := "em_bfield";
  topic := "Electromagnetism";
  statement := "A long straight wire carries a current of 3 A. What is the magnetic field strength at a distance of 5 cm from the wire in vacuum?";
  expectedValue := Fin (3 # 250000);
  toleranceRatio := Fin (1 # 10);
  units := "T";
  septagonNodes :=
    [ lit "current I = 3 A";
      lit "distance r = 0.05 m";
      (* mu0 = 4 [U+03C0] [U+00D7] 10^-7 H/m *)
      lit "constant mu0 = 4" ++ [960%N] ++ lit " " ++ [215%N] ++ lit " 10^-7 H/m";
      lit "target: magnetic field B" ]
|}.

Definition thermo_work : Problem := {|
  id := "thermo_work";
  topic := "Thermodynamics";
  statement := "In a closed system, 1 mol ideal gas undergoes isothermal expansion at T = 300 K from V1 = 2 L to V2 = 4 L. Compute the work done by the gas.";
  expectedValue := Fin (3457 # 2);
  toleranceRatio := Fin (1 # 20);
  units := "J";
  septagonNodes :=
    [ lit "amount n = 1 mol";
      lit "temperature T = 300 K";
      lit "initial volume V1 = 2 L";
      lit "final volume V2 = 4 L";
      lit "process: isothermal";
      lit "target: work W" ]
|}.

Definition problems : list Problem := [mechanics_a; em_bfield; thermo_work].

Definition buildLinearPrompt (problem : Problem) : jsstring :=
  lit "You are given a physics problem. Solve it with step-by-step reasoning and provide the final numeric answer with units." ++ nl
  ++ (lit "Problem: " ++ statement problem ++ nl)
  ++ (lit "Output format: first show key formulas and steps, then a single final line starting with "
      ++ dquote ++ lit "Final Answer:" ++ dquote
      ++ lit " followed by the numeric value and units.").

Definition buildSeptagonPrompt (problem : Problem) : jsstring :=
  let nodes := join nl (map (fun n => lit "- " ++ n) (septagonNodes problem)) in
  lit "You are given the following non-linear septagon diagram nodes that encode the problem context. Use the relationships between nodes to reason and solve. Provide the final numeric answer with units." ++ nl
  ++ (lit "Nodes:" ++ nl)
  ++ (nodes ++ nl)
  ++ (lit "Output format: first map nodes to formulas, then show reasoning steps, then a single final line starting with "
      ++ dquote ++ lit "Final Answer:" ++ dquote
      ++ lit " followed by the numeric value and units.").

(* ================================================================== *)
(** * Evaluation helpers *)
(* ================================================================== *)

(** [/\r?\n/] *)
Definition re_newline : regex :=
  Cat (Opt (Class (is_char "013"))) (Class (is_char "010")).

(** [/^\s*Final Answer\s*:/i] *)
Definition re_final_answer : regex :=
  Cat Bol
    (Cat (Star (Class is_space))
       (Cat (text_ci "Final Answer")
          (Cat (Star (Class is_space)) (Class (is_char_ci ":"))))).

(** [/,/g] *)
Definition re_comma : regex := Class (is_char ",").

(** [/(-?\d+(?:\.\d+)?(?:e[+-]?\d+)?)/i] *)
Definition re_number : regex :=
  Cat (Opt (Class (is_char_ci "-")))
    (Cat (Plus (Class is_digit))
       (Cat (Opt (Cat (Class (is_char_ci ".")) (Plus (Class is_digit))))
          (Opt (Cat (Class (is_char_ci "e"))
                  (Cat (Opt (Class (fun c => is_char_ci "+" c || is_char_ci "-" c)))
                     (Plus (Class is_digit))))))).

(** [a || b] on strings: [b] when [a] is undefined or empty. *)
Definition or_string (a : option jsstring) (b : jsstring) : jsstring :=
  match a with
  | Some (c :: s) => c :: s
  | _ => b
  end.

Definition extractFinalNumeric (answerText : jsstring) : option number :=
  match answerText with
  | [] => None
  | _ =>
      let lines := split re_newline answerText in
      let finalLine := find (test re_final_answer) lines in
      let target := or_string finalLine answerText in
      match match_text re_number (remove_all re_comma target) with
      | None => None
      | Some m =>
          let value := Number_of_string m in
          if is_finite value then Some value else None
      end
  end.

Definition isWithinTolerance (actual : option number)
    (expected toleranceRatio : number) : bool :=
  match actual with
  | None => false
  | Some actual =>
      let allowed := num_mul (Math_abs expected) toleranceRatio in
      num_le (Math_abs (num_sub actual expected)) allowed
  end.

(* ================================================================== *)
(** * Doubles

    Where the source compares numbers written as decimal literals, the
    numbers compared are the doubles the literals denote. *)
(* ================================================================== *)

Set Warnings "-inexact-float".

(** The number a double stands for: [m * 2^e] with its sign for a finite
    one, 0 for both zeros. *)
Definition value_of (x : spec_float) : number :=
  match x with
  | S754_zero _ => Fin 0
  | S754_infinity s => if s then NInf else PInf
  | S754_nan => NaN
  | S754_finite s m e =>
      fin ((if s then - inject_Z (Z.pos m) else inject_Z (Z.pos m)) * 2 ^ e)
  end.

Definition value64 (x : PrimFloat.float) : number := value_of (Prim2SF x).

(* ================================================================== *)
(** * Effects: exceptions, the environment and the world *)
(* ================================================================== *)

(** A thrown [Error]-like value. *)
Record Exn : Type := { exn_name : jsstring; exn_message : jsstring }.

Definition new_Error (message : jsstring) : Exn :=
  {| exn_name := "Error"; exn_message := message |}.

(** [String(e)] for an error value (Error.prototype.toString). *)
Definition Exn_to_string (e : Exn) : jsstring :=
  match exn_name e, exn_message e with
  | [], m => m
  | n, [] => n
  | n, m => n ++ lit ": " ++ m
  end.

(** The HTTP response as the source reads it: [res.ok], [res.status],
    [await res.text()], and [data?.choices?.[0]?.message?.content] of
    [await res.json()] ([None] when that chain is undefined or null);
    either read can fail. *)
Record Response : Type := {
  res_ok : bool;
  res_status : number;
  res_text : Exn + jsstring;
  res_content : Exn + option jsstring
}.

Inductive FetchOutcome : Type :=
| Rejected (e : Exn)      (* network error, or abort after the timeout *)
| Responded (res : Response).

(** What a property read finds on one of the built-in values that every
    object literal inherits from [Object.prototype] (a function such as
    [toString], the constructor [Object], the prototype itself): a truthy
    value, a falsy one, or a getter that throws.  None of these values has
    a property [t] or [err]. *)
Inductive HostValue : Type :=
| Truthy
| Falsy
| Raises (e : Exn).

Record Env : Type := {
  OPENAI_API_KEY : jsstring;
  Date_now : nat -> Z;                          (* n-th reading of the clock, ms *)
  Math_random : nat -> number;                  (* n-th uniform draw *)
  Math_log : number -> number;
  Math_sqrt : number -> number;
  Math_cos : number -> number;
  Math_PI : number;
  fetch : nat -> jsstring -> jsstring -> FetchOutcome;
                                                (* n-th call, by model and prompt *)
  builtin_member : jsstring -> jsstring -> HostValue
                                                (* [({})[name][key]], [name] inherited *)
}.

Record World : Type := {
  clock_reads : nat;
  random_draws : nat;
  fetch_calls : nat
}.

Inductive result (A : Type) : Type :=
| Ok (a : A)
| Throw (e : Exn).
Arguments Ok {A} a.
Arguments Throw {A} e.

Definition M (A : Type) : Type := World -> result A * World.

Definition ret {A} (a : A) : M A := fun w => (Ok a, w).

Definition throw {A} (e : Exn) : M A := fun w => (Throw e, w).

Definition bind {A B} (m : M A) (f : A -> M B) : M B :=
  fun w =>
    match m w with
    | (Ok a, w') => f a w'
    | (Throw e, w') => (Throw e, w')
    end.

(** A step that reads nothing and changes nothing. *)
Definition lift {A} (r : result A) : M A := fun w => (r, w).

Definition try_catch {A} (m : M A) (handler : Exn -> M A) : M A :=
  fun w =>
    match m w with
    | (Ok a, w') => (Ok a, w')
    | (Throw e, w') => handler e w'
    end.

Notation "x <- m ;; k" := (bind m (fun x => k))
  (at level 61, m at next level, right associativity).

Section Effects.

Variable env : Env.

Definition now : M Z :=
  fun w =>
    (Ok (Date_now env (clock_reads w)),
     {| clock_reads := S (clock_reads w);
        random_draws := random_draws w;
        fetch_calls := fetch_calls w |}).

Definition random : M number :=
  fun w =>
    (Ok (Math_random env (random_draws w)),
     {| clock_reads := clock_reads w;
        random_draws := S (random_draws w);
        fetch_calls := fetch_calls w |}).

Definition do_fetch (model prompt : jsstring) : M FetchOutcome :=
  fun w =>
    (Ok (fetch env (fetch_calls w) model prompt),
     {| clock_reads := clock_reads w;
        random_draws := random_draws w;
        fetch_calls := S (fetch_calls w) |}).

(* ---------------------------------------------------------------- *)
(** ** LLM call *)

Definition callOpenAIChat (model prompt : jsstring) : M jsstring :=
  match OPENAI_API_KEY env with
  | [] => throw (new_Error "Missing OPENAI_API_KEY")
  | _ =>
      out <- do_fetch model prompt ;;
      match out with
      | Rejected e => throw e
      | Responded res =>
          if negb (res_ok res) then
            match res_text res with
            | inl e => throw e
            | inr text =>
                throw (new_Error
                         (lit "OpenAI API error " ++ number_to_string (res_status res)
                          ++ lit ": " ++ text))
            end
          else
            match res_content res with
            | inl e => throw e
            | inr content => ret (or_string content [])
            end
      end
  end.

(* ---------------------------------------------------------------- *)
(** ** Dry-run synthesis *)

Record Baseline : Type := { t : number; err : number }.

(** The [means] table, by problem identifier and then representation: the
    own entries of the object literal and of the literals inside it.  The
    error rates are compared with the uniform draw as they stand, so the
    entries are the doubles that the literals denote. *)
Definition means : list (jsstring * list (jsstring * Baseline)) :=
  [ (lit "mechanics_a",
      [ (lit "linear", {| t := value64 21.3; err := value64 0.28 |});
        (lit "septagon", {| t := value64 18.0; err := value64 0.22 |}) ]);
    (lit "em_bfield",
      [ (lit "linear", {| t := value64 25.5; err := value64 0.31 |});
        (lit "septagon", {| t := value64 21.7; err := value64 0.25 |}) ]);
    (lit "thermo_work",
      [ (lit "linear", {| t := value64 23.4; err := value64 0.29 |});
        (lit "septagon", {| t := value64 19.6; err := value64 0.23 |}) ]) ].

Fixpoint lookup {A} (k : jsstring) (table : list (jsstring * A)) : option A :=
  match table with
  | [] => None
  | (k', v) :: rest => if str_eqb k' k then Some v else lookup k rest
  end.

Definition default_baseline : Baseline :=
  {| t := value64 22.0; err := value64 0.3 |}.

(** The names an object literal inherits from [Object.prototype]: a read
    of one of them finds a built-in value, not [undefined]. *)
Definition inherited_names : list jsstring :=
  [ lit "constructor"; lit "hasOwnProperty"; lit "isPrototypeOf";
    lit "propertyIsEnumerable"; lit "toLocaleString"; lit "toString";
    lit "valueOf"; lit "__proto__"; lit "__defineGetter__";
    lit "__defineSetter__"; lit "__lookupGetter__"; lit "__lookupSetter__" ].

Definition inherited (name : jsstring) : bool :=
  existsb (str_eqb name) inherited_names.

(** A truthy value that is not an entry of the table: [m.t] and [m.err]
    are undefined, which [m.t + ...] and [... < m.err] read as NaN. *)
Definition no_fields : Baseline := {| t := NaN; err := NaN |}.

(** [means[problemId]?.[representation] || { t: 22.0, err: 0.3 }].  An own
    key is found first; a name inherited from [Object.prototype] is found
    next; any other read is undefined, and [?.] stops at an undefined
    [means[problemId]]. *)
Definition baseline_of (problemId representation : jsstring) : result Baseline :=
  match lookup problemId means with
  | Some row =>
      match lookup representation row with
      | Some m => Ok m
      | None =>
          if inherited representation then Ok no_fields else Ok default_baseline
      end
  | None =>
      if inherited problemId then
        match builtin_member env problemId representation with
        | Truthy => Ok no_fields
        | Falsy => Ok default_baseline
        | Raises e => Throw e
        end
      else Ok default_baseline
  end.

Definition round (x digits : number) : number :=
  let p := Math_pow (Fin 10) digits in
  num_div (Math_round (num_mul x p)) p.

(** Box-Muller. *)
Definition randn : M number :=
  r1 <- random ;;
  let u := num_sub (Fin 1) r1 in
  r2 <- random ;;
  let v := num_sub (Fin 1) r2 in
  ret (num_mul
         (Math_sqrt env (num_mul (Fin (-2)) (Math_log env u)))
         (Math_cos env (num_mul (num_mul (Fin 2) (Math_PI env)) v))).

Record Synth : Type := { timeSec : number; correct : bool }.

(** The body of [synthesizeTrial] once the baseline [m] is read and its two
    draws are made: [noise] is the value of [randn()], [draw] the value of
    [Math.random()]. *)
Definition synthesize (m : Baseline) (noise draw : number) : Synth :=
  let timeSec := Math_max (Fin 5) (num_add (t m) (num_mul noise (Fin (12 # 10)))) in
  let isError := num_lt draw (err m) in
  {| timeSec := round timeSec (Fin 2); correct := negb isError |}.

Definition synthesizeTrial (problemId representation : jsstring) : M Synth :=
  m <- lift (baseline_of problemId representation) ;;
  noise <- randn ;;
  draw <- random ;;
  ret (synthesize m noise draw).

(* ---------------------------------------------------------------- *)
(** ** Experiment loop *)

Record TrialRecord : Type := {
  timestamp : Z;           (* the clock reading behind the ISO string *)
  problem_id : jsstring;
  r_topic : jsstring;
  representation : jsstring;
  trial_index : nat;
  latency_sec : number;
  numeric_answer : option number;
  expected_value : number;
  r_units : jsstring;
  r_correct : bool
}.

(** The response text of a dry-run trial. *)
Definition dry_answer_text (problem : Problem) (correct : bool) : jsstring :=
  if correct
  then lit "..." ++ nl ++ lit "Final Answer: "
       ++ number_to_string (expectedValue problem) ++ lit " " ++ units problem
  else lit "..." ++ nl ++ lit "Final Answer: "
       ++ number_to_string (round (num_mul (expectedValue problem) (Fin (125 # 100))) (Fin 3))
       ++ lit " " ++ units problem.

(** [String(e.message || e)] *)
Definition error_text (e : Exn) : jsstring :=
  match exn_message e with
  | [] => Exn_to_string e
  | m => m
  end.

(** One iteration of the inner loop: what is measured, and the row pushed. *)
Definition runTrial (rep : jsstring) (dryRun : bool) (model : jsstring)
    (problem : Problem) (i : nat) : M TrialRecord :=
  let prompt :=
    if str_eqb rep "linear" then buildLinearPrompt problem
    else buildSeptagonPrompt problem in
  start <- now ;;
  measured <-
    (if dryRun then
       synth <- synthesizeTrial (id problem) rep ;;
       let latencySec := timeSec synth in
       let correct := correct synth in
       let answerText := dry_answer_text problem correct in
       let numeric := extractFinalNumeric answerText in
       ret (latencySec, numeric, correct)
     else
       answerText <- try_catch (callOpenAIChat model prompt)
                       (fun e => ret (error_text e)) ;;
       finish <- now ;;
       let latencySec := num_div (of_Z (finish - start)) (Fin 1000) in
       let numeric := extractFinalNumeric answerText in
       let correct :=
         isWithinTolerance numeric (expectedValue problem) (toleranceRatio problem) in
       ret (latencySec, numeric, correct)) ;;
  let '(latencySec, numeric, correct) := measured in
  stamp <- now ;;
  ret {| timestamp := stamp;
         problem_id := id problem;
         r_topic := topic problem;
         representation := rep;
         trial_index := i + 1;
         latency_sec := round latencySec (Fin 2);
         numeric_answer := numeric;
         expected_value := expectedValue problem;
         r_units := units problem;
         r_correct := correct |}.

(** [for (let i = from; i < from + count; i++)], pushing one row per turn. *)
Fixpoint trials_loop (body : nat -> M TrialRecord) (count from : nat)
    (rows : list TrialRecord) : M (list TrialRecord) :=
  match count with
  | O => ret rows
  | S count' =>
      row <- body from ;;
      trials_loop body count' (S from) (rows ++ [row])
  end.

Fixpoint problems_loop (body : Problem -> list TrialRecord -> M (list TrialRecord))
    (ps : list Problem) (rows : list TrialRecord) : M (list TrialRecord) :=
  match ps with
  | [] => ret rows
  | problem :: ps' =>
      rows' <- body problem rows ;;
      problems_loop body ps' rows'
  end.

Definition runTrials (rep : jsstring) (trials : nat) (dryRun : bool)
    (model : jsstring) : M (list TrialRecord) :=
  problems_loop
    (fun problem rows =>
       trials_loop (runTrial rep dryRun model problem) trials 0 rows)
    problems [].

End Effects.

(* ================================================================== *)
(** * Aggregation *)
(* ================================================================== *)

Record AggregateRecord : Type := {
  a_problem_id : option jsstring;      (* [None] is undefined *)
  a_topic : jsstring;
  a_representation : option jsstring;
  trials : nat;
  mean_latency_sec : number;
  error_rate : number
}.

Definition key (r : TrialRecord) : jsstring :=
  problem_id r ++ lit "__" ++ representation r.

(** A [Map] from strings to arrays of rows, in insertion order. *)
Definition Groups : Type := list (jsstring * list TrialRecord).

Definition has (groups : Groups) (k : jsstring) : bool :=
  match lookup k groups with Some _ => true | None => false end.

Fixpoint set (groups : Groups) (k : jsstring) (v : list TrialRecord) : Groups :=
  match groups with
  | [] => [(k, v)]
  | (k', v') :: rest =>
      if str_eqb k' k then (k', v) :: rest else (k', v') :: set rest k v
  end.

(** [groups.get(k).push(r)]: the array stored under [k] grows in place. *)
Fixpoint push_at (groups : Groups) (k : jsstring) (r : TrialRecord) : Groups :=
  match groups with
  | [] => []
  | (k', v') :: rest =>
      if str_eqb k' k then (k', v' ++ [r]) :: rest
      else (k', v') :: push_at rest k r
  end.

Definition group_rows (rows : list TrialRecord) : Groups :=
  fold_left
    (fun groups r =>
       let k := key r in
       let groups := if negb (has groups k) then set groups k [] else groups in
       push_at groups k r)
    rows [].

(** [s.split(sep)] for a non-empty string separator. *)
Fixpoint split_string_loop (sep : jsstring) (fuel : nat) (piece s : jsstring)
    : list jsstring :=
  match fuel with
  | O => [piece ++ s]
  | S fuel' =>
      match s with
      | [] => [piece]
      | c :: s' =>
          match strip_prefix sep s with
          | Some rest => piece :: split_string_loop sep fuel' [] rest
          | None => split_string_loop sep fuel' (piece ++ [c]) s'
          end
      end
  end.

Definition split_string (sep s : jsstring) : list jsstring :=
  split_string_loop sep (List.length s) [] s.

Definition of_nat (n : nat) : number := of_Z (Z.of_nat n).

Definition aggregate_group (entry : jsstring * list TrialRecord) : AggregateRecord :=
  let (k, arr) := entry in
  let parts := split_string "__" k in
  let latency := map latency_sec arr in
  let meanLatency :=
    round (num_div (fold_left num_add latency (Fin 0)) (of_nat (List.length latency)))
      (Fin 2) in
  let errRate :=
    round (num_sub (Fin 1)
             (num_div (of_nat (List.length (filter r_correct arr)))
                (of_nat (List.length arr))))
      (Fin 3) in
  let topic := match arr with r :: _ => r_topic r | [] => [] end in
  {| a_problem_id := nth_error parts 0;
     a_topic := topic;
     a_representation := nth_error parts 1;
     trials := List.length arr;
     mean_latency_sec := meanLatency;
     error_rate := errRate |}.

Definition aggregate (rows : list TrialRecord) : list AggregateRecord :=
  map aggregate_group (group_rows rows).

(* ================================================================== *)
(** * The tolerance check on binary64

    The same function on the machine's doubles, with the subtraction, the
    multiplication and the comparison of IEEE 754: the arithmetic the
    program really uses, under which the checker is specified. *)
(* ================================================================== *)


Definition isWithinTolerance64 (actual : option PrimFloat.float)
    (expected toleranceRatio : PrimFloat.float) : bool :=
  match actual with
  | None => false
  | Some actual =>
      let allowed := PrimFloat.mul (PrimFloat.abs expected) toleranceRatio in
      PrimFloat.leb (PrimFloat.abs (PrimFloat.sub actual expected)) allowed
  end.

(* ================================================================== *)
(** * Vocabulary of the specification

    Definitions in the words of the description of the program, against
    which the functions above are compared. *)
(* ================================================================== *)

(** ** Texts, lines and numbers *)

(** The lines of a text: pieces separated by a line feed, or by a carriage
    return followed by a line feed. *)
Fixpoint lines_from (piece s : jsstring) : list jsstring :=
  match s with
  | [] => [piece]
  | c :: s' =>
      if (c =? 10)%N then piece :: lines_from [] s'
      else
        match s' with
        | d :: s'' =>
            if ((c =? 13) && (d =? 10))%N then piece :: lines_from [] s''
            else lines_from (piece ++ [c]) s'
        | [] => lines_from (piece ++ [c]) s'
        end
  end.

Definition lines (s : jsstring) : list jsstring := lines_from [] s.

Definition strip_commas (s : jsstring) : jsstring :=
  filter (fun c => negb (is_char "," c)) s.

Definition skip_spaces (s : jsstring) : jsstring := snd (span is_space s).

Fixpoint strip_prefix_ci (pat : list ascii) (s : jsstring) : option jsstring :=
  match pat with
  | [] => Some s
  | a :: pat' =>
      match s with
      | c :: s' => if is_char_ci a c then strip_prefix_ci pat' s' else None
      | [] => None
      end
  end.

(** A line that starts, after optional white space, with [Final Answer] in
    any letter case, optional white space, and a colon. *)
Definition is_final_answer_line (l : jsstring) : bool :=
  match strip_prefix_ci (list_ascii_of_string "Final Answer") (skip_spaces l) with
  | Some rest =>
      match skip_spaces rest with
      | c :: _ => is_char ":" c
      | [] => false
      end
  | None => false
  end.

(** A line that starts, after optional white space, with the literal
    marker [Final Answer:] in any letter case. *)
Definition is_final_answer_line_strict (l : jsstring) : bool :=
  match strip_prefix_ci (list_ascii_of_string "Final Answer:") (skip_spaces l) with
  | Some _ => true
  | None => false
  end.

(** One or more characters of a class at the head of [s]: how many, and
    what follows them. *)
Definition run_of (p : code_unit -> bool) (s : jsstring) : option (nat * jsstring) :=
  match span p s with
  | ([], _) => None
  | (ds, rest) => Some (List.length ds, rest)
  end.

(** The optional fraction [.digits]: its length and what follows it. *)
Definition fraction_of (s : jsstring) : nat * jsstring :=
  match s with
  | c :: s' =>
      if is_char "." c then
        match run_of is_digit s' with
        | Some (n, rest) => (S n, rest)
        | None => (0%nat, s)
        end
      else (0%nat, s)
  | [] => (0%nat, s)
  end.

Definition is_sign (c : code_unit) : bool := is_char "+" c || is_char "-" c.

(** The length of the optional exponent: [e] or [E], an optional sign, digits. *)
Definition exponent_length (s : jsstring) : nat :=
  match s with
  | c :: s' =>
      if is_char_ci "e" c then
        match s' with
        | d :: s'' =>
            if is_sign d then
              match run_of is_digit s'' with
              | Some (n, _) => S (S n)
              | None => 0%nat
              end
            else
              match run_of is_digit s' with
              | Some (n, _) => S n
              | None => 0%nat
              end
        | [] => 0%nat
        end
      else 0%nat
  | [] => 0%nat
  end.

(** The digits, fraction and exponent of a number at the head of [s]. *)
Definition unsigned_length (s : jsstring) : option nat :=
  match run_of is_digit s with
  | Some (n, s1) =>
      let (f, s2) := fraction_of s1 in
      Some (n + f + exponent_length s2)%nat
  | None => None
  end.

(** The length of the signed decimal number at the head of [s], if [s]
    starts with one: an optional minus sign, digits, an optional fraction,
    an optional exponent, each taken as long as possible. *)
Definition number_length (s : jsstring) : option nat :=
  match s with
  | c :: s' =>
      if is_char "-" c then option_map S (unsigned_length s')
      else unsigned_length s
  | [] => None
  end.

(** The first number of a text, scanning from the left. *)
Fixpoint first_number (s : jsstring) : option jsstring :=
  match number_length s with
  | Some n => Some (firstn n s)
  | None =>
      match s with
      | [] => None
      | _ :: s' => first_number s'
      end
  end.

Definition finite_value (m : jsstring) : option number :=
  let value := Number_of_string m in
  if is_finite value then Some value else None.

(** The extractor, in the words of its description: lines, the first
    final-answer line (or else the whole text) as scope, commas dropped,
    the first number of the scope, parsed; no value when there is no number
    or its value is not finite. *)
Definition extract_spec (text : jsstring) : option number :=
  let scope :=
    match find is_final_answer_line (lines text) with
    | Some line => line
    | None => text
    end in
  match first_number (strip_commas scope) with
  | Some m => finite_value m
  | None => None
  end.

(** The description as first stated: the marker is the literal text
    [Final Answer:], and the parsed number is returned whenever there is a
    match. *)
Definition extract_as_stated (text : jsstring) : option number :=
  let scope :=
    match find is_final_answer_line_strict (lines text) with
    | Some line => line
    | None => text
    end in
  match first_number (strip_commas scope) with
  | Some m => Some (Number_of_string m)
  | None => None
  end.

Definition sample_line : jsstring := lit "Final Answer: 1,234.5 J".

Definition spaced_marker_text : jsstring :=
  lit "Final Answer : 7" ++ nl ++ lit "Final Answer: 8".

(** The parts of the number pattern. *)
Definition re_digits : regex := Plus (Class is_digit).
Definition re_exponent : regex :=
  Cat (Class (is_char_ci "e"))
    (Cat (Opt (Class (fun c => is_char_ci "+" c || is_char_ci "-" c))) re_digits).
Definition re_fraction : regex := Cat (Class (is_char_ci ".")) re_digits.

(** ** Prompts *)

(** The closing clause shared by the two templates. *)
Definition final_answer_clause : jsstring :=
  lit "then a single final line starting with " ++ dquote ++ lit "Final Answer:" ++ dquote
  ++ lit " followed by the numeric value and units.".

Definition linear_steps : jsstring :=
  lit "Output format: first show key formulas and steps".

Definition septagon_steps : jsstring :=
  lit "Output format: first map nodes to formulas, then show reasoning steps".

(** The output-format instruction of a prompt: its line starting with
    [Output format:]. *)
Definition output_format_instruction (prompt : jsstring) : option jsstring :=
  find (fun l => match strip_prefix "Output format:" l with Some _ => true | None => false end)
    (split re_newline prompt).

Definition same_output_format (p : Problem) : Prop :=
  output_format_instruction (buildLinearPrompt p)
  = output_format_instruction (buildSeptagonPrompt p).

(** ** Trials *)

Definition prompt_of (rep : jsstring) (problem : Problem) : jsstring :=
  if str_eqb rep "linear" then buildLinearPrompt problem else buildSeptagonPrompt problem.

(** The response text a live trial scores: the content of the reply, or the
    description of the failure. *)
Definition live_text (key : jsstring) (out : FetchOutcome) : jsstring :=
  match key with
  | [] => lit "Missing OPENAI_API_KEY"
  | _ =>
      match out with
      | Rejected e => error_text e
      | Responded res =>
          if negb (res_ok res) then
            match res_text res with
            | inl e => error_text e
            | inr text =>
                lit "OpenAI API error " ++ number_to_string (res_status res)
                ++ lit ": " ++ text
            end
          else
            match res_content res with
            | inl e => error_text e
            | inr content => or_string content []
            end
      end
  end.

Definition tick (w : World) : World :=
  {| clock_reads := S (clock_reads w);
     random_draws := random_draws w;
     fetch_calls := fetch_calls w |}.

Definition called (w : World) : World :=
  {| clock_reads := clock_reads w;
     random_draws := random_draws w;
     fetch_calls := S (fetch_calls w) |}.

(** The world after further clock readings, draws and requests. *)
Definition advanced (w : World) (clocks draws calls : nat) : World :=
  {| clock_reads := clock_reads w + clocks;
     random_draws := random_draws w + draws;
     fetch_calls := fetch_calls w + calls |}.

(** What a live row records about the call it belongs to. *)
Definition scored_from (env : Env) (rep model : jsstring) (call : nat) (row : TrialRecord) : Prop :=
  exists problem,
    In problem problems
    /\ problem_id row = id problem
    /\ representation row = rep
    /\ let text := live_text (OPENAI_API_KEY env) (fetch env call model (prompt_of rep problem)) in
       numeric_answer row = extractFinalNumeric text
       /\ r_correct row
          = isWithinTolerance (extractFinalNumeric text)
              (expectedValue problem) (toleranceRatio problem).


(** A live run that fails as a whole. *)
Definition fails_as_a_whole (env : Env) (rep model : jsstring) (trials : nat) (w : World) : Prop :=
  exists e w', runTrials env rep trials false model w = (Throw e, w').

Definition from_catalog (rep : jsstring) (row : TrialRecord) : Prop :=
  representation row = rep /\ exists p, In p problems /\ problem_id row = id p.

(** Box-Muller: the value returned, from the two draws it consumes. *)
Definition randn_value (env : Env) (w : World) : number :=
  let u := num_sub (Fin 1) (Math_random env (random_draws w)) in
  let v := num_sub (Fin 1) (Math_random env (S (random_draws w))) in
  num_mul (Math_sqrt env (num_mul (Fin (-2)) (Math_log env u)))
    (Math_cos env (num_mul (num_mul (Fin 2) (Math_PI env)) v)).


(** The value of [round x 2] on a finite [x]: hundredths, counted by [cents]. *)
Definition cents (q : Q) : Z := Qfloor (Qred (q * 100) + (1 # 2)).

(** A baseline with its two fields: a finite time, and an error rate in
    the range of the table and the default. *)
Definition with_fields (m : Baseline) : Prop :=
  exists q e, t m = Fin q /\ err m = Fin e /\ (22 # 100) <= e <= (31 # 100).

(** A time that has passed the floor at 5: a rational not below 5, or +Infinity. *)
Definition floored (x : number) : Prop :=
  x = PInf \/ exists b, x = Fin b /\ 5 <= b.

(** ** Groups *)

(** The distinct elements of a list, in order of first occurrence. *)
Fixpoint distinct {A : Type} (eqb : A -> A -> bool) (l : list A) : list A :=
  match l with
  | [] => []
  | x :: l' => x :: filter (fun y => negb (eqb x y)) (distinct eqb l')
  end.

Definition distinct_keys : list jsstring -> list jsstring := distinct str_eqb.

Definition rows_with_key (k : jsstring) (rows : list TrialRecord) : list TrialRecord :=
  filter (fun r => str_eqb (key r) k) rows.

Definition grouped (keys : list jsstring) (rows : list TrialRecord) : Groups :=
  map (fun k => (k, rows_with_key k rows)) keys.

(** One turn of the grouping loop. *)
Definition add_row (groups : Groups) (r : TrialRecord) : Groups :=
  let k := key r in
  let groups := if negb (has groups k) then set groups k [] else groups in
  push_at groups k r.

Definition pair_of (r : TrialRecord) : jsstring * jsstring :=
  (problem_id r, representation r).

Definition pair_eqb (p q : jsstring * jsstring) : bool :=
  str_eqb (fst p) (fst q) && str_eqb (snd p) (snd q).

Definition key_of_pair (p : jsstring * jsstring) : jsstring :=
  fst p ++ lit "__" ++ snd p.

(** The distinct (problem identifier, representation) pairs of a run. *)
Definition distinct_pairs (rows : list TrialRecord) : list (jsstring * jsstring) :=
  distinct pair_eqb (map pair_of rows).

(** The rows of one pair: equality of both strings. *)
Definition rows_of_pair (p : jsstring * jsstring) (rows : list TrialRecord) : list TrialRecord :=
  filter (fun r => pair_eqb (pair_of r) p) rows.

Definition mean_latency (g : list TrialRecord) : number :=
  round (num_div (fold_left num_add (map latency_sec g) (Fin 0)) (of_nat (List.length g)))
    (Fin 2).

Definition error_rate_of (g : list TrialRecord) : number :=
  round (num_sub (Fin 1)
           (num_div (of_nat (List.length (filter r_correct g))) (of_nat (List.length g))))
    (Fin 3).

Definition summary (p : jsstring * jsstring) (g : list TrialRecord) : AggregateRecord :=
  {| a_problem_id := Some (fst p);
     a_topic := match g with r :: _ => r_topic r | [] => [] end;
     a_representation := Some (snd p);
     trials := List.length g;
     mean_latency_sec := mean_latency g;
     error_rate := error_rate_of g |}.

(** One AggregateRecord per distinct pair, summarising the rows of that pair. *)
Definition groups_by_pair (rows : list TrialRecord) : Prop :=
  aggregate rows = map (fun p => summary p (rows_of_pair p rows)) (distinct_pairs rows).

(** A row whose key splits back into its identifier and representation. *)
Definition separator_safe (r : TrialRecord) : Prop :=
  split_string "__" (key r) = [problem_id r; representation r].

(** No occurrence of the separator [__] in [s]. *)
Fixpoint free_of_separator (s : jsstring) : bool :=
  match s with
  | [] => true
  | _ :: s' =>
      match strip_prefix "__" s with
      | Some _ => false
      | None => free_of_separator s'
      end
  end.

Definition total_trials (l : list AggregateRecord) : nat :=
  fold_right Nat.add 0%nat (map trials l).

(** ** Sample data *)

Definition sample_text : jsstring :=
  lit "Step 1..." ++ nl ++ lit "Final Answer: 1,234.5 J".

Definition mk_row (pid rep : jsstring) (latency : number) (ok : bool) : TrialRecord :=
  {| timestamp := 0; problem_id := pid; r_topic := "topic"; representation := rep;
     trial_index := 1; latency_sec := latency; numeric_answer := None;
     expected_value := Fin 5; r_units := "u"; r_correct := ok |}.

(** Two rows of different pairs whose keys coincide. *)
Definition colliding_rows : list TrialRecord :=
  [ mk_row "a_" "b" (Fin 6) true; mk_row "a" "_b" (Fin 8) false ].

Definition catalog_rows : list TrialRecord :=
  [ mk_row "mechanics_a" "linear" (Fin (2130 # 100)) true;
    mk_row "em_bfield" "septagon" (Fin (2170 # 100)) false;
    mk_row "mechanics_a" "linear" (Fin (1980 # 100)) false ].


(** A test environment without a key: the clock advances one second per
    reading, every uniform draw is 0, and the library functions return
    their values at the arguments Box-Muller passes for that draw
    (log 1 = 0, sqrt 0 = 0, cos 2 pi = 1); a read on a built-in value
    finds nothing. *)
Definition test_env : Env :=
  {| OPENAI_API_KEY := [];
     Date_now := fun n => (1000 * Z.of_nat n)%Z;
     Math_random := fun _ => Fin 0;
     Math_log := fun _ => Fin 0;
     Math_sqrt := fun _ => Fin 0;
     Math_cos := fun _ => Fin 1;
     Math_PI := Fin (355 # 113);
     fetch := fun _ _ _ => Rejected (new_Error "fetch failed");
     builtin_member := fun _ _ => Falsy |}.

(** The same with a key, and a service whose second call fails. *)
Definition keyed_env : Env :=
  {| OPENAI_API_KEY := "sk-test";
     Date_now := Date_now test_env;
     Math_random := Math_random test_env;
     Math_log := Math_log test_env;
     Math_sqrt := Math_sqrt test_env;
     Math_cos := Math_cos test_env;
     Math_PI := Math_PI test_env;
     fetch := fun n _ _ =>
       if (n =? 1)%nat then Rejected (new_Error "fetch failed")
       else Responded {| res_ok := true;
                         res_status := Fin 200;
                         res_text := inr [];
                         res_content := inr (Some (lit "a = F/m" ++ nl ++ lit "Final Answer: 5 m/s^2")) |};
     builtin_member := builtin_member test_env |}.

Definition start_world : World :=
  {| clock_reads := 0; random_draws := 0; fetch_calls := 0 |}.

(* ================================================================== *)
(** * Vocabulary of the further properties *)
(* ================================================================== *)

(** [10^d], the scale of [d] decimals. *)
Definition scale (d : nat) : Q := Qred (Qpower 10 (Z.of_nat d)).

(** The count of units of the last place that [round] keeps. *)
Definition units_of (q : Q) (d : nat) : Z := Qfloor (Qred (q * scale d) + (1 # 2)).

(** Whether a text holds a decimal digit. *)
Definition has_digit (s : jsstring) : bool := existsb is_digit s.

(** What a row says of its problem, its run and its place in the run. *)
Definition row_identity (r : TrialRecord)
    : jsstring * jsstring * jsstring * nat * number * jsstring :=
  (problem_id r, r_topic r, representation r, trial_index r, expected_value r, r_units r).

(** The rows planned for one problem: the trials 1 to [n] in order. *)
Definition block (rep : jsstring) (n : nat) (p : Problem)
    : list (jsstring * jsstring * jsstring * nat * number * jsstring) :=
  map (fun i => (id p, topic p, rep, (i + 1)%nat, expectedValue p, units p)) (seq 0 n).

(** What the loop is to produce: the blocks of the problems of the catalog,
    in order. *)
Definition planned (rep : jsstring) (trials : nat)
    : list (jsstring * jsstring * jsstring * nat * number * jsstring) :=
  flat_map (block rep trials) problems.

(** The fraction of incorrect rows of a group, before rounding. *)
Definition wrong_fraction (g : list TrialRecord) : Q :=
  Qred (1 + Qred (- Qred (inject_Z (Z.of_nat (List.length (filter r_correct g)))
                          / inject_Z (Z.of_nat (List.length g))))).

(** What a summary record says of its group, apart from the statistics. *)
Definition summary_of (a : AggregateRecord)
    : option jsstring * option jsstring * jsstring * nat :=
  (a_problem_id a, a_representation a, a_topic a, trials a).

(** The answer a dry-run row is to record, by its flag. *)
Definition synthesized_answer (expected : number) (ok : bool) : number :=
  if ok then expected else round (num_mul expected (Fin (125 # 100))) (Fin 3).

(** The first line of the linear prompt. *)
Definition linear_intro : jsstring :=
  lit "You are given a physics problem. Solve it with step-by-step reasoning and provide the final numeric answer with units.".

(** The first line of the septagon prompt. *)
Definition septagon_intro : jsstring :=
  lit "You are given the following non-linear septagon diagram nodes that encode the problem context. Use the relationships between nodes to reason and solve. Provide the final numeric answer with units.".

(* ================================================================== *)
(** * The trial-level CSV (toCSV) *)
(* ================================================================== *)

(** The values a row holds. *)
Inductive value : Type :=
| VString (s : jsstring)
| VNumber (x : number)
| VBoolean (b : bool)
| VNull.

(** [String(v)]. *)
Definition String_of (v : value) : jsstring :=
  match v with
  | VString s => s
  | VNumber x => number_to_string x
  | VBoolean true => lit "true"
  | VBoolean false => lit "false"
  | VNull => lit "null"
  end.

Section CSV.

(** [new Date(ms).toISOString()], the text of a time stamp. *)
Variable toISOString : Z -> jsstring.

(** [Object.keys(row)]: the keys of the object literal pushed by the trial
    loop, in the order it writes them. *)
Definition keys : list jsstring :=
  [ lit "timestamp"; lit "problem_id"; lit "topic"; lit "representation";
    lit "trial_index"; lit "latency_sec"; lit "numeric_answer";
    lit "expected_value"; lit "units"; lit "correct" ].

(** [r[h]]; [None] is [undefined]. *)
Definition get (r : TrialRecord) (h : jsstring) : option value :=
  if str_eqb h "timestamp" then Some (VString (toISOString (timestamp r)))
  else if str_eqb h "problem_id" then Some (VString (problem_id r))
  else if str_eqb h "topic" then Some (VString (r_topic r))
  else if str_eqb h "representation" then Some (VString (representation r))
  else if str_eqb h "trial_index" then Some (VNumber (of_nat (trial_index r)))
  else if str_eqb h "latency_sec" then Some (VNumber (latency_sec r))
  else if str_eqb h "numeric_answer" then
    Some (match numeric_answer r with Some v => VNumber v | None => VNull end)
  else if str_eqb h "expected_value" then Some (VNumber (expected_value r))
  else if str_eqb h "units" then Some (VString (r_units r))
  else if str_eqb h "correct" then Some (VBoolean (r_correct r))
  else None.

(** [String(r[h] ?? '')] *)
Definition cell (r : TrialRecord) (h : jsstring) : jsstring :=
  match get r h with
  | None | Some VNull => []
  | Some v => String_of v
  end.

Definition row_line (headers : list jsstring) (r : TrialRecord) : jsstring :=
  join "," (map (fun h => remove_all re_comma (cell r h)) headers).

(** The array [lines] when the loop is over. *)
Definition csv_lines (rows : list TrialRecord) : list jsstring :=
  let headers := keys in
  fold_left (fun lines r => lines ++ [row_line headers r]) rows [join "," headers].

Definition toCSV (rows : list TrialRecord) : jsstring :=
  match rows with
  | [] => []
  | _ :: _ => join nl (csv_lines rows)
  end.

End CSV.

(** ** Vocabulary *)

(** A text without a comma. *)
Definition comma_free (s : jsstring) : Prop := ~ In (cu ",") s.

(** The first line of every CSV that has one. *)
Definition header_line : jsstring :=
  lit "timestamp,problem_id,topic,representation,trial_index,latency_sec,numeric_answer,expected_value,units,correct".

(** The ten cells of a row, as texts, before commas are removed. *)
Definition cells (toISOString : Z -> jsstring) (r : TrialRecord) : list jsstring :=
  [ toISOString (timestamp r); problem_id r; r_topic r; representation r;
    number_to_string (of_nat (trial_index r)); number_to_string (latency_sec r);
    match numeric_answer r with Some v => number_to_string v | None => [] end;
    number_to_string (expected_value r); r_units r;
    if r_correct r then lit "true" else lit "false" ].

(** ** Reading the text back *)

(** A code unit that is neither a line break nor a comma. *)
Definition plain_unit (c : code_unit) : bool :=
  negb (c =? 10)%N && negb (c =? 13)%N && negb (c =? 44)%N.

(** A text of such code units. *)
Definition plain (s : jsstring) : Prop := forallb plain_unit s = true.

(** A text without a line break. *)
Definition unbroken (s : jsstring) : Prop := ~ In 10%N s /\ ~ In 13%N s.

(** A row whose texts hold no comma and no line break. *)
Definition plain_row (r : TrialRecord) : Prop :=
  plain (problem_id r) /\ plain (r_topic r) /\ plain (representation r) /\ plain (r_units r).

(* ================================================================== *)
(** * The command line (main) *)
(* ================================================================== *)

(** [args.includes(a)] *)
Definition includes (args : list jsstring) (a : jsstring) : bool :=
  existsb (fun x => str_eqb x a) args.

(** [s.startsWith(p)] *)
Definition startsWith (s p : jsstring) : bool :=
  match strip_prefix p s with Some _ => true | None => false end.

(** [parseInt(s, 10)]: leading white space is skipped, a sign is read, and
    the longest run of decimal digits gives the value; NaN when there is no
    digit.  The argument [None] is [undefined], read as its name. *)
Definition parseInt10 (s : option jsstring) : number :=
  let s := match s with Some s => s | None => lit "undefined" end in
  let t := snd (span is_space s) in
  let '(neg, body) :=
    match t with
    | c :: t' =>
        if is_char "-" c then (true, t')
        else if is_char "+" c then (false, t')
        else (false, t)
    | [] => (false, t)
    end in
  match fst (span is_digit body) with
  | [] => NaN
  | ds => to_range (inject_Z (if neg then - digits_value ds else digits_value ds))
  end.

(** How many times [for (let i = 0; i < trials; i++)] runs its body; [None]
    when it never stops. *)
Definition iterations (trials : number) : option nat :=
  match trials with
  | Fin q => Some (Z.to_nat (Qceiling q))
  | PInf => None
  | NInf | NaN => Some 0%nat
  end.

(** [stamp.replace(/[:.]/g, '-')] *)
Definition dashes (s : jsstring) : jsstring :=
  map (fun c => if is_char ":" c || is_char "." c then cu "-" else c) s.

(** What the program writes: the two files under [results/], the summary
    as the object handed to [JSON.stringify]. *)
Record Output : Type := {
  csv_file : jsstring;
  csv_text : jsstring;
  summary_file : jsstring;
  s_model : option jsstring;
  s_dryRun : bool;
  s_trials : number;
  s_aggregates : list AggregateRecord
}.

Section Main.

Variable env : Env.
Variable DEFAULT_MODEL : jsstring.
Variable toISOString : Z -> jsstring.

Definition trials_of (args : list jsstring) : number :=
  match find (fun a => startsWith a "--trials=") args with
  | Some trialsArg => parseInt10 (nth_error (split_string "=" trialsArg) 1)
  | None => Fin 10
  end.

Definition model_of (args : list jsstring) : option jsstring :=
  match find (fun a => startsWith a "--model=") args with
  | Some modelArg => nth_error (split_string "=" modelArg) 1
  | None => Some DEFAULT_MODEL
  end.

Definition chosen (args : list jsstring) : list jsstring :=
  let modeBoth := includes args "--both" in
  let modeLinear := includes args "--linear" in
  let modeSeptagon := includes args "--septagon" in
  if modeBoth || (negb modeLinear && negb modeSeptagon)
  then [lit "linear"; lit "septagon"]
  else (if modeLinear then [lit "linear"] else [])
       ++ (if modeSeptagon then [lit "septagon"] else []).

(** [for (const rep of chosen)], appending the rows of each run. *)
Fixpoint run_all (reps : list jsstring) (trials : nat) (dryRun : bool)
    (model : jsstring) (allRows : list TrialRecord) : M (list TrialRecord) :=
  match reps with
  | [] => ret allRows
  | rep :: reps' =>
      rows <- runTrials env rep trials dryRun model ;;
      run_all reps' trials dryRun model (allRows ++ rows)
  end.

(** [None]: the trial loop does not end.  The model name is a string
    whenever [--model=] is found (see [model_of_defined]). *)
Definition main (args : list jsstring) : option (M Output) :=
  let dryRun := includes args "--dry-run" in
  let trials := trials_of args in
  let model := model_of args in
  match iterations trials with
  | None => None
  | Some n =>
      Some (allRows <- run_all (chosen args) n dryRun
                         (match model with Some m => m | None => [] end) [] ;;
            ms <- now env ;;
            let stamp := dashes (toISOString ms) in
            ret {| csv_file := lit "results_" ++ stamp ++ lit ".csv";
                   csv_text := toCSV toISOString allRows;
                   summary_file := lit "summary_" ++ stamp ++ lit ".json";
                   s_model := model;
                   s_dryRun := dryRun;
                   s_trials := trials;
                   s_aggregates := aggregate allRows |})
  end.

End Main.

(** ** Vocabulary *)

(** The result of the program started in world [w]. *)
Definition main_from (env : Env) (default_model : jsstring) (iso : Z -> jsstring)
    (args : list jsstring) (w : World) : option (result Output * World) :=
  match main env default_model iso args with
  | Some m => Some (m w)
  | None => None
  end.

(** One summary record per chosen representation and catalog problem. *)
Definition expected_summary (reps : list jsstring) (n : nat)
    : list (option jsstring * option jsstring * jsstring * nat) :=
  flat_map (fun rep => map (fun p => (Some (id p), Some rep, topic p, n)) problems) reps.

(** The rows planned for a list of representations. *)
Definition planned_for (reps : list jsstring) (n : nat)
    : list (jsstring * jsstring * jsstring * nat * number * jsstring) :=
  flat_map (fun rep => flat_map (block rep n) problems) reps.

(* ================================================================== *)
(** * The guessing game (class XAyBGame)

    The state of the game and the methods that compute on it.  The page
    (input field, buttons, messages, the list of guesses shown) is not
    modelled: [submitGuess] takes the text of the input field as an
    argument, and a rejected guess leaves no trace but the unchanged
    state. *)
(* ================================================================== *)

Module XAyBGame.

(** [Math.floor] *)
Definition Math_floor (x : number) : number :=
  match x with
  | Fin q => of_Z (Qfloor q)
  | other => other
  end.

(** The comparison made by [Array.prototype.includes] on numbers. *)
Definition same_value_zero (x y : number) : bool :=
  match x, y with
  | Fin p, Fin q => Qeq_bool p q
  | PInf, PInf => true
  | NInf, NInf => true
  | NaN, NaN => true
  | _, _ => false
  end.

Definition includes_number (l : list number) (x : number) : bool :=
  existsb (same_value_zero x) l.

(** [array.includes(x)] on an array of one-unit strings; [None] is
    [undefined], which no string equals. *)
Definition includes_unit (l : jsstring) (x : option code_unit) : bool :=
  match x with
  | Some c => existsb (N.eqb c) l
  | None => false
  end.

(** [x === y] on the elements of two such arrays. *)
Definition strict_eq (x y : option code_unit) : bool :=
  match x, y with
  | Some c, Some d => N.eqb c d
  | None, None => true
  | _, _ => false
  end.

(** ** Numeric strings *)

Definition is_hex (c : code_unit) : bool :=
  (is_digit c || ((97 <=? c) && (c <=? 102)) || ((65 <=? c) && (c <=? 70)))%N.

Definition is_octal (c : code_unit) : bool := ((48 <=? c) && (c <=? 55))%N.

Definition is_binary (c : code_unit) : bool := ((c =? 48) || (c =? 49))%N.

(** [0x], [0o] and [0b] literals: a prefix and at least one digit. *)
Definition radix_literal (t : jsstring) : bool :=
  match t with
  | z :: x :: d :: ds =>
      is_char "0" z
      && (if is_char_ci "x" x then forallb is_hex (d :: ds)
          else if is_char_ci "o" x then forallb is_octal (d :: ds)
          else if is_char_ci "b" x then forallb is_binary (d :: ds)
          else false)
  | _ => false
  end.

(** [isNaN(s)] on a string: whether [Number(s)] is NaN. *)
Definition isNaN (s : jsstring) : bool :=
  if radix_literal (trim s) then false else is_nan (Number_of_string s).

(** ** State *)

Record Result : Type := { a : nat; b : nat }.

Record GuessData : Type := {
  guess : jsstring;
  result : Result;
  attempt : nat
}.

Record Game : Type := {
  secretNumber : jsstring;
  attempts : nat;
  maxAttempts : nat;
  gameOver : bool;
  guesses : list GuessData
}.

(** ** Methods *)

Section Methods.

Variable env : Env.

(** The loop of [generateSecretNumber]; [None] when the fuel is spent
    before three digits are found. *)
Fixpoint generate_loop (fuel : nat) (digits : list number) : M (option (list number)) :=
  if (List.length digits <? 3)%nat then
    match fuel with
    | O => ret None
    | S fuel' =>
        r <- random env ;;
        let digit := Math_floor (num_mul r (Fin 10)) in
        generate_loop fuel'
          (if negb (includes_number digits digit) then digits ++ [digit] else digits)
    end
  else ret (Some digits).

Definition generateSecretNumber (fuel : nat) : M (option jsstring) :=
  digits <- generate_loop fuel [] ;;
  ret (match digits with
       | Some ds => Some (join [] (map number_to_string ds))
       | None => None
       end).

End Methods.

Definition validateGuess (guess : jsstring) : bool :=
  match guess with
  | [] => false
  | _ :: _ =>
      if negb (List.length guess =? 3)%nat then false
      else if isNaN guess then false
      else
        let digits := guess in
        if negb (List.length (distinct N.eqb digits) =? List.length digits)%nat then false
        else true
  end.

Definition count (f : nat -> bool) : nat :=
  List.length (filter f [0; 1; 2]%nat).

Definition calculateXAyB (secretNumber guess : jsstring) : Result :=
  let secret := secretNumber in
  let guessDigits := guess in
  {| a := count (fun i => strict_eq (nth_error secret i) (nth_error guessDigits i));
     b := count (fun i =>
                   negb (strict_eq (nth_error secret i) (nth_error guessDigits i))
                   && includes_unit secret (nth_error guessDigits i)) |}.

(** The text shown for a result in [renderGuesses]. *)
Definition resultText (r : Result) : jsstring :=
  if (0 <? a r)%nat || (0 <? b r)%nat
  then number_to_string (of_nat (a r)) ++ lit "A"
       ++ number_to_string (of_nat (b r)) ++ lit "B"
  else lit "0A0B".

Definition checkGameEnd (g : Game) (result : Result) : Game :=
  if (a result =? 3)%nat then
    {| secretNumber := secretNumber g; attempts := attempts g;
       maxAttempts := maxAttempts g; gameOver := true; guesses := guesses g |}
  else if (maxAttempts g <=? attempts g)%nat then
    {| secretNumber := secretNumber g; attempts := attempts g;
       maxAttempts := maxAttempts g; gameOver := true; guesses := guesses g |}
  else g.

(** [value] is the text of the input field. *)
Definition submitGuess (g : Game) (value : jsstring) : Game :=
  if gameOver g then g
  else
    let guess := trim value in
    if negb (validateGuess guess) then g
    else
      let attempts' := S (attempts g) in
      let result := calculateXAyB (secretNumber g) guess in
      let g' :=
        {| secretNumber := secretNumber g; attempts := attempts';
           maxAttempts := maxAttempts g; gameOver := gameOver g;
           guesses := guesses g ++ [{| guess := guess; result := result;
                                       attempt := attempts' |}] |} in
      checkGameEnd g' result.

(** The state the constructor leaves, given the secret number drawn. *)
Definition new_game (secret : jsstring) : Game :=
  {| secretNumber := secret; attempts := 0; maxAttempts := 10;
     gameOver := false; guesses := [] |}.

(** [startNewGame], given the secret number drawn. *)
Definition startNewGame (g : Game) (secret : jsstring) : Game :=
  {| secretNumber := secret; attempts := 0; maxAttempts := maxAttempts g;
     gameOver := false; guesses := [] |}.

(** ** Vocabulary *)

(** The states of a game: after the constructor, a submitted text, or
    [startNewGame]; the secret numbers drawn have three code units. *)
Inductive reachable : Game -> Prop :=
| constructed (secret : jsstring) :
    List.length secret = 3%nat -> reachable (new_game secret)
| submitted (g : Game) (value : jsstring) :
    reachable g -> reachable (submitGuess g value)
| restarted (g : Game) (secret : jsstring) :
    reachable g -> List.length secret = 3%nat -> reachable (startNewGame g secret).

(** The recorded guesses are valid, numbered from 1, and scored against
    the secret number. *)
Definition well_recorded (g : Game) : Prop :=
  map attempt (guesses g) = seq 1 (attempts g)
  /\ Forall (fun d => validateGuess (guess d) = true
                      /\ result d = calculateXAyB (secretNumber g) (guess d))
            (guesses g).

(** Three distinct decimal digits. *)
Definition three_distinct_digits (s : jsstring) : Prop :=
  List.length s = 3%nat /\ NoDup s /\ Forall (fun c => is_digit c = true) s.

(** The code units two strings have in common. *)
Definition common (s g : jsstring) : nat :=
  List.length (filter (fun c => existsb (N.eqb c) s) g).

(** A uniform draw: a rational in [0, 1). *)
Definition uniform (x : number) : Prop :=
  exists q, x = Fin q /\ 0 <= q /\ q < 1.

(** The digit a draw gives. *)
Definition digit_of (env : Env) (n : nat) : number :=
  Math_floor (num_mul (Math_random env n) (Fin 10)).

(** What holds of every state of a game. *)
Definition game_invariant (g : Game) : Prop :=
  List.length (secretNumber g) = 3%nat
  /\ maxAttempts g = 10%nat
  /\ attempts g = List.length (guesses g)
  /\ (attempts g <= 10)%nat
  /\ well_recorded g
  /\ (gameOver g = true <->
      attempts g = 10%nat \/ In (secretNumber g) (map guess (guesses g))).

(** The ten decimal digits. *)
Definition decimal_digits : jsstring := lit "0123456789".

(** The digits found so far: distinct integers from 0 to 9. *)
Definition digit_list (ds : list number) (zs : list Z) : Prop :=
  ds = map of_Z zs /\ NoDup zs /\ Forall (fun z => 0 <= z <= 9)%Z zs.

End XAyBGame.

(* ================================================================== *)
(** * Sample data of the further properties *)
(* ================================================================== *)

(** Two runs of one row each, of different keys. *)
Definition linear_run : list TrialRecord :=
  [mk_row "mechanics_a" "linear" (Fin (2130 # 100)) true].

Definition septagon_run : list TrialRecord :=
  [mk_row "em_bfield" "septagon" (Fin (2170 # 100)) false].

(** A time stamp formatter that ignores the time. *)
Definition fixed_stamp (ms : Z) : jsstring := lit "2024-01-01T00:00:00.000Z".

(** Arguments of a dry run of two trials under the linear representation. *)
Definition sample_args : list jsstring :=
  [lit "--dry-run"; lit "--linear"; lit "--trials=2"].

(** An environment whose uniform draws run through 0.0, 0.1, ..., 0.9. *)
Definition game_env : Env :=
  {| OPENAI_API_KEY := [];
     Date_now := Date_now test_env;
     Math_random := fun n => Fin (Z.of_nat (n mod 10) # 10);
     Math_log := Math_log test_env;
     Math_sqrt := Math_sqrt test_env;
     Math_cos := Math_cos test_env;
     Math_PI := Math_PI test_env;
     fetch := fetch test_env;
     builtin_member := builtin_member test_env |}.

(* ================================================================== *)
(** * Sample evaluations *)
(* ================================================================== *)

Example number_to_string_5 : number_to_string (Fin 5) = lit "5".
Proof. vm_compute. reflexivity. Qed.

Example number_to_string_small : number_to_string (Fin (3 # 250000)) = lit "0.000012".
Proof. vm_compute. reflexivity. Qed.

Example number_to_string_frac : number_to_string (Fin (3457 # 2)) = lit "1728.5".
Proof. vm_compute. reflexivity. Qed.

Example number_to_string_exp : number_to_string (Fin (1 # 10000000)) = lit "1e-7".
Proof. vm_compute. reflexivity. Qed.

Example number_to_string_big : number_to_string (Fin (inject_Z (12 * 10 ^ 21))) = lit "1.2e+22".
Proof. vm_compute. reflexivity. Qed.

Example Number_of_string_1 : Number_of_string "1234.5" = Fin (2469 # 2).
Proof. vm_compute. reflexivity. Qed.

Example Number_of_string_2 : Number_of_string "-1.2e-5" = Fin (-3 # 250000).
Proof. vm_compute. reflexivity. Qed.

Example Number_of_string_3 : Number_of_string "1e400" = PInf.
Proof. vm_compute. reflexivity. Qed.

Example Number_of_string_4 : Number_of_string "12abc" = NaN.
Proof. vm_compute. reflexivity. Qed.

(** The numeric literals of the catalog, read back from their source text. *)
Example catalog_literals :
  map expectedValue problems
    = [Number_of_string "5.0"; Number_of_string "1.2e-5"; Number_of_string "1728.5"]
  /\ map toleranceRatio problems
    = [Number_of_string "0.05"; Number_of_string "0.1"; Number_of_string "0.05"].
Proof. vm_compute. split; reflexivity. Qed.

Example extract_sample : extractFinalNumeric sample_text = Some (Fin (2469 # 2)).
Proof. vm_compute. reflexivity. Qed.

Example extract_none : extractFinalNumeric "no digits here" = None.
Proof. vm_compute. reflexivity. Qed.

Example extract_fallback : extractFinalNumeric "about -3.5e2 units" = Some (Fin (-350)).
Proof. vm_compute. reflexivity. Qed.

Example extract_crlf :
  extractFinalNumeric (lit "x 1" ++ [13%N; 10%N] ++ lit "  final answer : 42" ++ [13%N; 10%N] ++ lit "7")
  = Some (Fin 42).
Proof. vm_compute. reflexivity. Qed.

Example extract_overflow : extractFinalNumeric "Final Answer: 1e400" = None.
Proof. vm_compute. reflexivity. Qed.

Example split_example :
  split re_newline (lit "a" ++ [13%N; 10%N] ++ lit "b" ++ nl ++ nl ++ [13%N] ++ lit "c")
  = [lit "a"; lit "b"; []; [13%N] ++ lit "c"].
Proof. vm_compute. reflexivity. Qed.

Example split_string_example :
  split_string "__" "a___b__c" = [lit "a"; lit "_b"; lit "c"].
Proof. vm_compute. reflexivity. Qed.

Example aggregate_example :
  aggregate [ mk_row "p" "linear" (Fin (101 # 10)) true;
              mk_row "q" "linear" (Fin 7) false;
              mk_row "p" "linear" (Fin (202 # 10)) false;
              mk_row "p" "linear" (Fin 30) false ]
  = [ {| a_problem_id := Some (lit "p"); a_topic := "topic";
         a_representation := Some (lit "linear"); trials := 3;
         mean_latency_sec := Fin (201 # 10); error_rate := Fin (667 # 1000) |};
      {| a_problem_id := Some (lit "q"); a_topic := "topic";
         a_representation := Some (lit "linear"); trials := 1;
         mean_latency_sec := Fin 7; error_rate := Fin 1 |} ].
Proof. vm_compute. reflexivity. Qed.

Example aggregate_catalog_rows :
  aggregate catalog_rows
  = [ {| a_problem_id := Some (lit "mechanics_a"); a_topic := "topic";
         a_representation := Some (lit "linear"); trials := 2;
         mean_latency_sec := Fin (411 # 20); error_rate := Fin (1 # 2) |};
      {| a_problem_id := Some (lit "em_bfield"); a_topic := "topic";
         a_representation := Some (lit "septagon"); trials := 1;
         mean_latency_sec := Fin (217 # 10); error_rate := Fin 1 |} ].
Proof. vm_compute. reflexivity. Qed.

(** What a run records, for the tests below. *)
Definition recorded (r : result (list TrialRecord) * World)
    : list (nat * number * option number * bool) * nat :=
  match r with
  | (Ok rows, w) =>
      (map (fun r => (trial_index r, latency_sec r, numeric_answer r, r_correct r)) rows,
       fetch_calls w)
  | (Throw _, w) => ([], fetch_calls w)
  end.

(** A live run of two trials per problem in which the second call fails:
    six rows, six calls, and the failed trial is an incorrect row. *)
Example live_run_with_one_failure :
  recorded (runTrials keyed_env "linear" 2 false "gpt-4o-mini" start_world)
  = ([ (1%nat, Fin 1, Some (Fin 5), true);
       (2%nat, Fin 1, None, false);
       (1%nat, Fin 1, Some (Fin 5), false);
       (2%nat, Fin 1, Some (Fin 5), false);
       (1%nat, Fin 1, Some (Fin 5), false);
       (2%nat, Fin 1, Some (Fin 5), false) ], 6%nat).
Proof. vm_compute. reflexivity. Qed.

(** A dry run in which every draw is an error: the texts carry 1.25 times
    the expected value rounded to 3 decimals. *)
Example dry_run_all_errors :
  recorded (runTrials test_env "septagon" 1 true "gpt-4o-mini" start_world)
  = ([ (1%nat, Fin 18, Some (Fin (25 # 4)), false);
       (1%nat, Fin (217 # 10), Some (Fin 0), false);
       (1%nat, Fin (98 # 5), Some (Fin (17285 # 8)), false) ], 0%nat).
Proof. vm_compute. reflexivity. Qed.

(** A live run without a key completes, with no call made. *)
Example live_run_without_key :
  recorded (runTrials test_env "linear" 1 false "gpt-4o-mini" start_world)
  = ([ (1%nat, Fin 1, None, false);
       (1%nat, Fin 1, None, false);
       (1%nat, Fin 1, None, false) ], 0%nat).
Proof. vm_compute. reflexivity. Qed.

(* ================================================================== *)
(** * Strings and grouping *)
(* ================================================================== *)

(** ** Strings *)

Lemma str_eqb_eq (a b : jsstring) : str_eqb a b = true <-> a = b.
Proof.
  unfold str_eqb. destruct (list_eq_dec N.eq_dec a b); split; congruence.
Qed.

Lemma str_eqb_refl (a : jsstring) : str_eqb a a = true.
Proof. apply str_eqb_eq. reflexivity. Qed.

Lemma str_eqb_neq (a b : jsstring) : str_eqb a b = false <-> a <> b.
Proof.
  unfold str_eqb. destruct (list_eq_dec N.eq_dec a b); split; congruence.
Qed.

Lemma str_eqb_sym (a b : jsstring) : str_eqb a b = str_eqb b a.
Proof.
  destruct (str_eqb a b) eqn:E; symmetry.
  - apply str_eqb_eq. apply str_eqb_eq in E. congruence.
  - apply str_eqb_neq. apply str_eqb_neq in E. congruence.
Qed.

(** ** Distinct elements, in order of first occurrence *)

Section Distinct.

Context {A : Type} (eqb : A -> A -> bool).
Hypothesis eqb_eq : forall a b, eqb a b = true <-> a = b.

Lemma eqb_refl (a : A) : eqb a a = true.
Proof. apply eqb_eq. reflexivity. Qed.

Lemma eqb_neq (a b : A) : eqb a b = false <-> a <> b.
Proof.
  destruct (eqb a b) eqn:E.
  - apply eqb_eq in E. split; congruence.
  - split; [|reflexivity]. intros _ H. apply eqb_eq in H. congruence.
Qed.

Lemma existsb_eqb (k : A) (l : list A) : existsb (eqb k) l = true <-> In k l.
Proof.
  rewrite existsb_exists. split.
  - intros [x [Hx E]]. apply eqb_eq in E. congruence.
  - intros H. exists k. split; [assumption|apply eqb_refl].
Qed.

Lemma distinct_In (l : list A) (x : A) : In x (distinct eqb l) <-> In x l.
Proof.
  induction l as [|y l IH]; simpl; [tauto|].
  rewrite filter_In, IH. split.
  - intros [H|[H _]]; auto.
  - intros [H|H]; auto.
    destruct (eqb y x) eqn:E.
    + left. apply eqb_eq; assumption.
    + right. split; auto.
Qed.

Lemma distinct_NoDup (l : list A) : NoDup (distinct eqb l).
Proof.
  induction l as [|y l IH]; simpl; constructor.
  - rewrite filter_In. intros [_ H]. rewrite eqb_refl in H. discriminate.
  - apply NoDup_filter; assumption.
Qed.

Lemma distinct_snoc (l : list A) (k : A) :
  distinct eqb (l ++ [k]) = if existsb (eqb k) l then distinct eqb l else distinct eqb l ++ [k].
Proof.
  induction l as [|y l IH]; simpl; [reflexivity|].
  rewrite IH. destruct (eqb k y) eqn:E; simpl.
  - apply eqb_eq in E. subst y.
    destruct (existsb (eqb k) l); [reflexivity|].
    rewrite filter_app; simpl. rewrite eqb_refl; simpl.
    rewrite app_nil_r. reflexivity.
  - destruct (existsb (eqb k) l); [reflexivity|].
    rewrite filter_app; simpl.
    assert (eqb y k = false) as ->.
    { apply eqb_neq. apply eqb_neq in E. congruence. }
    reflexivity.
Qed.

Lemma distinct_all_equal (l : list A) (k : A) :
  l <> [] -> (forall x, In x l -> x = k) -> distinct eqb l = [k].
Proof.
  destruct l as [|y l]; [congruence|]. intros _ H; simpl.
  rewrite (H y) by (left; reflexivity). f_equal.
  assert (forall x, In x (distinct eqb l) -> x = k) as H'.
  { intros x Hx. apply H. right. apply distinct_In. assumption. }
  induction (distinct eqb l) as [|z d IH]; simpl; [reflexivity|].
  rewrite (H' z) by (left; reflexivity). rewrite eqb_refl; simpl.
  apply IH. intros x Hx. apply H'. right. assumption.
Qed.

End Distinct.

Lemma filter_id_when {A} (f : A -> bool) (l : list A) :
  (forall x, In x l -> f x = true) -> filter f l = l.
Proof.
  induction l as [|x l IH]; simpl; intros H; [reflexivity|].
  rewrite (H x) by auto. f_equal. apply IH. auto.
Qed.

Lemma filter_map_commute {A B} (p : B -> bool) (q : A -> bool) (f : A -> B)
    (d : list A) :
  (forall z, In z d -> p (f z) = q z) -> filter p (map f d) = map f (filter q d).
Proof.
  induction d as [|z d IH]; simpl; intros H; [reflexivity|].
  rewrite (H z) by auto. rewrite IH by auto. destruct (q z); reflexivity.
Qed.

(** [distinct] commutes with a map that is injective on the list. *)
Lemma distinct_map {A B} (eqa : A -> A -> bool) (eqb : B -> B -> bool)
    (eqa_eq : forall a b, eqa a b = true <-> a = b)
    (eqb_eq : forall a b, eqb a b = true <-> a = b)
    (f : A -> B) (l : list A) :
  (forall x y, In x l -> In y l -> f x = f y -> x = y) ->
  distinct eqb (map f l) = map f (distinct eqa l).
Proof.
  induction l as [|x l IH]; simpl; intros Hinj; [reflexivity|].
  f_equal. rewrite IH by (intros; apply Hinj; auto).
  apply filter_map_commute. intros z Hz.
  apply (proj1 (distinct_In eqa eqa_eq _ _)) in Hz. f_equal.
  destruct (eqa x z) eqn:E.
  - apply eqa_eq in E. subst. apply eqb_eq. reflexivity.
  - apply (eqb_neq eqb eqb_eq). intros C.
    apply (eqb_neq eqa eqa_eq) in E. apply E.
    apply Hinj; [left; reflexivity|right; assumption|assumption].
Qed.

(** ** Grouping *)

Lemma lookup_grouped {A} (G : jsstring -> A) (ks : list jsstring) (k : jsstring) :
  lookup k (map (fun k' => (k', G k')) ks)
  = if existsb (str_eqb k) ks then Some (G k) else None.
Proof.
  induction ks as [|y ks IH]; simpl; [reflexivity|].
  rewrite (str_eqb_sym k y). destruct (str_eqb y k) eqn:E; simpl.
  - apply str_eqb_eq in E. subst y. reflexivity.
  - exact IH.
Qed.

Lemma set_fresh (G : jsstring -> list TrialRecord) (ks : list jsstring)
    (k : jsstring) (v : list TrialRecord) :
  ~ In k ks ->
  set (map (fun k' => (k', G k')) ks) k v = map (fun k' => (k', G k')) ks ++ [(k, v)].
Proof.
  induction ks as [|y ks IH]; simpl; intros H; [reflexivity|].
  assert (str_eqb y k = false) as -> by (apply str_eqb_neq; tauto).
  rewrite IH by tauto. reflexivity.
Qed.

Lemma push_at_fresh (g : Groups) (k : jsstring) (v : list TrialRecord) (r : TrialRecord) :
  ~ In k (map fst g) -> push_at (g ++ [(k, v)]) k r = g ++ [(k, v ++ [r])].
Proof.
  induction g as [|[y a] g IH]; simpl; intros H.
  - rewrite str_eqb_refl. reflexivity.
  - assert (str_eqb y k = false) as -> by (apply str_eqb_neq; tauto).
    rewrite IH by tauto. reflexivity.
Qed.

Lemma push_at_present (G : jsstring -> list TrialRecord) (ks : list jsstring)
    (k : jsstring) (r : TrialRecord) :
  NoDup ks ->
  push_at (map (fun k' => (k', G k')) ks) k r
  = map (fun k' => (k', if str_eqb k' k then G k' ++ [r] else G k')) ks.
Proof.
  induction 1 as [|y ks Hy Hks IH]; simpl; [reflexivity|].
  destruct (str_eqb y k) eqn:E.
  - apply str_eqb_eq in E. subst y. f_equal.
    apply map_ext_in. intros k' Hk'.
    assert (str_eqb k' k = false) as -> by (apply str_eqb_neq; congruence).
    reflexivity.
  - rewrite IH. reflexivity.
Qed.

Lemma group_rows_snoc (rows : list TrialRecord) (r : TrialRecord) :
  group_rows (rows ++ [r]) = add_row (group_rows rows) r.
Proof. unfold group_rows. rewrite fold_left_app. reflexivity. Qed.

Lemma rows_with_key_snoc (k : jsstring) (rows : list TrialRecord) (r : TrialRecord) :
  rows_with_key k (rows ++ [r])
  = if str_eqb (key r) k then rows_with_key k rows ++ [r] else rows_with_key k rows.
Proof.
  unfold rows_with_key. rewrite filter_app; simpl.
  destruct (str_eqb (key r) k); [reflexivity|apply app_nil_r].
Qed.

Lemma rows_with_key_absent (k : jsstring) (rows : list TrialRecord) :
  ~ In k (map key rows) -> rows_with_key k rows = [].
Proof.
  induction rows as [|x rows IH]; simpl; intros H; [reflexivity|].
  assert (str_eqb (key x) k = false) as -> by (apply str_eqb_neq; tauto).
  apply IH. tauto.
Qed.

(** The map built by the grouping loop: one entry per distinct key, in
    order of first occurrence, holding the rows of that key in order. *)
Lemma group_rows_grouped (rows : list TrialRecord) :
  group_rows rows = grouped (distinct_keys (map key rows)) rows.
Proof.
  induction rows as [|r rows IH] using rev_ind; [reflexivity|].
  rewrite group_rows_snoc, IH. unfold add_row, has, grouped, distinct_keys.
  rewrite map_app; simpl. rewrite (distinct_snoc str_eqb str_eqb_eq), lookup_grouped.
  destruct (existsb (str_eqb (key r)) (distinct str_eqb (map key rows))) eqn:E1;
    destruct (existsb (str_eqb (key r)) (map key rows)) eqn:E2; simpl.
  - rewrite push_at_present by apply (distinct_NoDup str_eqb str_eqb_eq).
    apply map_ext. intros k. rewrite rows_with_key_snoc, (str_eqb_sym k). reflexivity.
  - apply (proj1 (existsb_eqb str_eqb str_eqb_eq _ _)) in E1.
    apply (proj1 (distinct_In str_eqb str_eqb_eq _ _)) in E1.
    apply (proj2 (existsb_eqb str_eqb str_eqb_eq _ _)) in E1. congruence.
  - apply (proj1 (existsb_eqb str_eqb str_eqb_eq _ _)) in E2.
    apply (proj2 (distinct_In str_eqb str_eqb_eq _ _)) in E2.
    apply (proj2 (existsb_eqb str_eqb str_eqb_eq _ _)) in E2. congruence.
  - assert (~ In (key r) (map key rows)) as Hout.
    { intros C. apply (proj2 (existsb_eqb str_eqb str_eqb_eq _ _)) in C. congruence. }
    assert (~ In (key r) (distinct str_eqb (map key rows))) as Hout'.
    { intros C. apply (proj2 (existsb_eqb str_eqb str_eqb_eq _ _)) in C. congruence. }
    rewrite set_fresh by assumption.
    rewrite push_at_fresh by (rewrite map_map; simpl; rewrite map_id; assumption).
    rewrite map_app; simpl. f_equal.
    + apply map_ext_in. intros k Hk. rewrite rows_with_key_snoc.
      assert (str_eqb (key r) k = false) as -> by (apply str_eqb_neq; congruence).
      reflexivity.
    + rewrite rows_with_key_snoc, str_eqb_refl.
      rewrite rows_with_key_absent by assumption. reflexivity.
Qed.

(* ================================================================== *)
(** * The aggregator *)
(* ================================================================== *)

(** ** Finite numbers *)

Lemma Qsign_pos (q : Q) : 0 < q -> Qsign q = Gt.
Proof.
  unfold Qsign, Qlt. destruct q as [n d]; simpl. intros H.
  apply Z.compare_gt_iff. lia.
Qed.

Lemma of_nat_pos (n : nat) : (1 <= n)%nat -> Qsign (inject_Z (Z.of_nat n)) = Gt.
Proof.
  intros H. unfold Qsign; simpl. apply Z.compare_gt_iff. lia.
Qed.

Lemma num_div_of_nat (a : Q) (n : nat) :
  (1 <= n)%nat -> num_div (Fin a) (of_nat n) = fin (a / inject_Z (Z.of_nat n)).
Proof.
  intros H. unfold of_nat, of_Z, num_div. rewrite of_nat_pos by assumption. reflexivity.
Qed.

Lemma round_Fin_2 (q : Q) :
  round (Fin q) (Fin 2) = fin (inject_Z (Qfloor (Qred (q * 100) + (1 # 2))) / 100).
Proof. reflexivity. Qed.

Lemma round_Fin_3 (q : Q) :
  round (Fin q) (Fin 3) = fin (inject_Z (Qfloor (Qred (q * 1000) + (1 # 2))) / 1000).
Proof. reflexivity. Qed.

Lemma finite_div_of_nat (x : number) (n : nat) :
  is_finite x = true -> (1 <= n)%nat -> is_finite (num_div x (of_nat n)) = true.
Proof.
  destruct x; try discriminate. intros _ H. rewrite num_div_of_nat by assumption.
  reflexivity.
Qed.

Lemma finite_sub (x y : number) :
  is_finite x = true -> is_finite y = true -> is_finite (num_sub x y) = true.
Proof. destruct x, y; try discriminate; reflexivity. Qed.

Lemma finite_round_2 (x : number) :
  is_finite x = true -> is_finite (round x (Fin 2)) = true.
Proof. destruct x; try discriminate. rewrite round_Fin_2. reflexivity. Qed.

Lemma finite_round_3 (x : number) :
  is_finite x = true -> is_finite (round x (Fin 3)) = true.
Proof. destruct x; try discriminate. rewrite round_Fin_3. reflexivity. Qed.

Lemma sum_finite (l : list number) (q0 : Q) :
  Forall (fun x => is_finite x = true) l ->
  exists q, fold_left num_add l (Fin q0) = Fin q.
Proof.
  intros H. revert q0. induction H as [|x l Hx Hl IH]; intros q0; simpl.
  - eauto.
  - destruct x as [a| | |]; try discriminate Hx. apply IH.
Qed.

(** ** The aggregator is total and never divides by zero *)

Lemma aggregate_grouped (rows : list TrialRecord) :
  aggregate rows
  = map (fun k => aggregate_group (k, rows_with_key k rows)) (distinct_keys (map key rows)).
Proof.
  unfold aggregate. rewrite group_rows_grouped. unfold grouped. apply map_map.
Qed.

Lemma rows_with_key_present (k : jsstring) (rows : list TrialRecord) :
  In k (map key rows) -> (1 <= List.length (rows_with_key k rows))%nat.
Proof.
  rewrite in_map_iff. intros [r [Hk Hr]].
  assert (In r (rows_with_key k rows)) as Hin.
  { unfold rows_with_key. apply filter_In. split; auto. apply str_eqb_eq; assumption. }
  destruct (rows_with_key k rows); [destruct Hin|simpl; lia].
Qed.

Lemma rows_with_key_incl (k : jsstring) (rows : list TrialRecord) (r : TrialRecord) :
  In r (rows_with_key k rows) -> In r rows /\ key r = k.
Proof.
  unfold rows_with_key. rewrite filter_In, str_eqb_eq. tauto.
Qed.

(** C10. The Aggregator returns no record for no row; every record it
    returns comes from a group of at least one row, so that its trial count,
    the divisor of both statistics, is at least 1; its error rate is finite,
    and so is its mean latency when the latencies of the rows are. *)
Theorem aggregate_total :
  aggregate [] = []
  /\ forall (rows : list TrialRecord) (a : AggregateRecord),
       In a (aggregate rows) ->
       (1 <= trials a)%nat
       /\ is_finite (error_rate a) = true
       /\ (Forall (fun r => is_finite (latency_sec r) = true) rows ->
           is_finite (mean_latency_sec a) = true).
Proof.
  split; [reflexivity|].
  intros rows a Ha. rewrite aggregate_grouped in Ha.
  apply in_map_iff in Ha. destruct Ha as [k [<- Hk]].
  apply (proj1 (distinct_In str_eqb str_eqb_eq _ _)) in Hk.
  pose proof (rows_with_key_present k rows Hk) as Hlen.
  unfold aggregate_group; cbn [trials error_rate mean_latency_sec].
  split; [assumption|]. split.
  - apply finite_round_3, finite_sub; [reflexivity|].
    apply finite_div_of_nat; [reflexivity|assumption].
  - intros Hfin.
    destruct (sum_finite (map latency_sec (rows_with_key k rows)) 0) as [q Hq].
    { apply Forall_forall. intros x Hx. apply in_map_iff in Hx.
      destruct Hx as [r [<- Hr]]. apply rows_with_key_incl in Hr.
      rewrite Forall_forall in Hfin. apply Hfin. tauto. }
    rewrite Hq, length_map.
    apply finite_round_2, finite_div_of_nat; [reflexivity|assumption].
Qed.

(** ** Grouping by (problem identifier, representation) *)

Lemma pair_eqb_eq (p q : jsstring * jsstring) : pair_eqb p q = true <-> p = q.
Proof.
  destruct p as [a b], q as [c d]. unfold pair_eqb; simpl.
  rewrite andb_true_iff, !str_eqb_eq. split; [intros [-> ->]|intros [= -> ->]]; auto.
Qed.

Lemma key_pair_of (r : TrialRecord) : key r = key_of_pair (pair_of r).
Proof. reflexivity. Qed.

Lemma safe_key_inj (r1 r2 : TrialRecord) :
  separator_safe r1 -> separator_safe r2 -> key r1 = key r2 -> pair_of r1 = pair_of r2.
Proof.
  unfold separator_safe, pair_of. intros H1 H2 E. rewrite E in H1.
  rewrite H1 in H2. congruence.
Qed.

Lemma aggregate_group_length (k : jsstring) (g : list TrialRecord) :
  trials (aggregate_group (k, g)) = List.length g.
Proof. reflexivity. Qed.

(** C3, as the code has it. For rows whose key [id__representation] splits
    back at [__] into the identifier and the representation, the Aggregator
    returns exactly one record per distinct (identifier, representation)
    pair, in order of first occurrence; a row belongs to the group of a pair
    exactly when both of its strings equal the pair's; and the record
    reports the group's size, its mean latency rounded to 2 decimals, and 1
    minus its fraction of correct rows rounded to 3 decimals. *)
Theorem aggregate_groups_by_pair (rows : list TrialRecord) :
  Forall separator_safe rows -> groups_by_pair rows.
Proof.
  intros Hsafe. rewrite Forall_forall in Hsafe.
  unfold groups_by_pair, distinct_pairs. rewrite aggregate_grouped.
  unfold distinct_keys.
  replace (map key rows) with (map key_of_pair (map pair_of rows))
    by (rewrite map_map; reflexivity).
  rewrite (distinct_map pair_eqb str_eqb pair_eqb_eq str_eqb_eq).
  2:{ intros p q Hp Hq E. apply in_map_iff in Hp, Hq.
      destruct Hp as [r1 [<- Hr1]], Hq as [r2 [<- Hr2]].
      apply safe_key_inj; auto. }
  rewrite map_map. apply map_ext_in. intros p Hp.
  apply (proj1 (distinct_In pair_eqb pair_eqb_eq _ _)) in Hp.
  apply in_map_iff in Hp. destruct Hp as [r0 [<- Hr0]].
  assert (rows_with_key (key_of_pair (pair_of r0)) rows = rows_of_pair (pair_of r0) rows) as ->.
  { unfold rows_with_key, rows_of_pair. apply filter_ext_in. intros r Hr.
    rewrite <- key_pair_of.
    destruct (pair_eqb (pair_of r) (pair_of r0)) eqn:E.
    - apply pair_eqb_eq in E. apply str_eqb_eq. rewrite !key_pair_of. congruence.
    - apply str_eqb_neq. intros C.
      apply (eqb_neq pair_eqb pair_eqb_eq) in E. apply E.
      apply safe_key_inj; auto. }
  unfold aggregate_group, summary, mean_latency, error_rate_of.
  rewrite <- key_pair_of, (Hsafe r0 Hr0), length_map. reflexivity.
Qed.

Lemma aggregate_key_collision : ~ groups_by_pair colliding_rows.
Proof. unfold groups_by_pair. vm_compute. discriminate. Qed.

(** ** Rows of a single group *)

Lemma aggregate_single_group (rows : list TrialRecord) (k : jsstring) :
  (forall r, In r rows -> key r = k) ->
  aggregate rows = match rows with [] => [] | _ => [aggregate_group (k, rows)] end.
Proof.
  intros H. destruct rows as [|r0 rows]; [reflexivity|].
  assert (rows_with_key k (r0 :: rows) = r0 :: rows) as E.
  { unfold rows_with_key. apply filter_id_when.
    intros r Hr. apply str_eqb_eq. apply H. assumption. }
  rewrite aggregate_grouped. unfold distinct_keys.
  rewrite (distinct_all_equal str_eqb str_eqb_eq (map key (r0 :: rows)) k).
  - cbn [map]. rewrite E. reflexivity.
  - discriminate.
  - intros x Hx. apply in_map_iff in Hx. destruct Hx as [r [<- Hr]]. apply H; assumption.
Qed.

Lemma total_trials_single_group (rows : list TrialRecord) (k : jsstring) :
  (forall r, In r rows -> key r = k) ->
  total_trials (aggregate rows) = List.length rows
  /\ (List.length (aggregate rows) <= 1)%nat.
Proof.
  intros H. rewrite (aggregate_single_group rows k H).
  destruct rows as [|r rows]; [split; [reflexivity|simpl; lia]|].
  unfold total_trials. cbn [map fold_right]. rewrite aggregate_group_length.
  split; simpl; lia.
Qed.

(** C9. Aggregating the same rows twice gives the same records; and for
    two sequences of rows that all carry the same problem identifier and
    representation, the aggregate of their concatenation has at most one
    record, whose trial count is the sum of the trial counts of the
    aggregates of the two sequences, each being the number of its rows. *)
Theorem aggregate_idempotent_additive :
  (forall rows : list TrialRecord, aggregate rows = aggregate rows)
  /\ forall (p rep : jsstring) (A B : list TrialRecord),
       (forall r, In r (A ++ B) -> problem_id r = p /\ representation r = rep) ->
       (List.length (aggregate (A ++ B)) <= 1)%nat
       /\ total_trials (aggregate (A ++ B))
           = (total_trials (aggregate A) + total_trials (aggregate B))%nat
       /\ total_trials (aggregate A) = List.length A
       /\ total_trials (aggregate B) = List.length B.
Proof.
  split; [reflexivity|]. intros p rep A B H.
  assert (forall r, In r (A ++ B) -> key r = key_of_pair (p, rep)) as HAB.
  { intros r Hr. destruct (H r Hr) as [<- <-]. reflexivity. }
  destruct (total_trials_single_group (A ++ B) _ HAB) as [E1 E2].
  destruct (total_trials_single_group A (key_of_pair (p, rep))) as [E3 _].
  { intros r Hr. apply HAB. apply in_or_app. auto. }
  destruct (total_trials_single_group B (key_of_pair (p, rep))) as [E4 _].
  { intros r Hr. apply HAB. apply in_or_app. auto. }
  rewrite E1, E3, E4, length_app. auto.
Qed.

(* ================================================================== *)
(** * The experiment loop *)
(* ================================================================== *)

(** ** Loop invariants *)

Section LoopInvariants.

Variable env : Env.
Variable Inv : list TrialRecord -> World -> Prop.

Lemma trials_loop_inv (body : nat -> M TrialRecord) :
  (forall i rows w, Inv rows w ->
     exists row w', body i w = (Ok row, w') /\ Inv (rows ++ [row]) w') ->
  forall n from rows w, Inv rows w ->
    exists rows' w',
      trials_loop body n from rows w = (Ok rows', w')
      /\ Inv rows' w' /\ List.length rows' = (List.length rows + n)%nat.
Proof.
  intros Hbody. induction n as [|n IH]; intros from rows w HI; simpl.
  - exists rows, w. split; [reflexivity|]. split; [assumption|lia].
  - destruct (Hbody from rows w HI) as [row [w1 [E HI1]]].
    unfold bind. rewrite E.
    destruct (IH (S from) (rows ++ [row]) w1 HI1) as [rows' [w' [E' [HI' L]]]].
    exists rows', w'. split; [exact E'|]. split; [assumption|].
    rewrite L, length_app; simpl. lia.
Qed.

Lemma problems_loop_inv (body : Problem -> list TrialRecord -> M (list TrialRecord))
    (ps : list Problem) (n : nat) :
  (forall p rows w, In p ps -> Inv rows w ->
     exists rows' w',
       body p rows w = (Ok rows', w')
       /\ Inv rows' w' /\ List.length rows' = (List.length rows + n)%nat) ->
  forall rows w, Inv rows w ->
    exists rows' w',
      problems_loop body ps rows w = (Ok rows', w')
      /\ Inv rows' w' /\ List.length rows' = (List.length rows + List.length ps * n)%nat.
Proof.
  induction ps as [|p ps IH]; intros Hbody rows w HI; simpl.
  - exists rows, w. split; [reflexivity|]. split; [assumption|lia].
  - destruct (Hbody p rows w (or_introl eq_refl) HI) as [rows1 [w1 [E [HI1 L1]]]].
    unfold bind. rewrite E.
    assert (forall q rows0 w0, In q ps -> Inv rows0 w0 ->
              exists rows' w',
                body q rows0 w0 = (Ok rows', w')
                /\ Inv rows' w' /\ List.length rows' = (List.length rows0 + n)%nat) as Hps.
    { intros q rows0 w0 Hq. apply Hbody. right. assumption. }
    destruct (IH Hps rows1 w1 HI1) as [rows' [w' [E' [HI' L]]]].
    exists rows', w'. split; [exact E'|]. split; [assumption|]. lia.
Qed.

Lemma runTrials_inv (rep : jsstring) (trials : nat) (dryRun : bool) (model : jsstring) :
  (forall p i rows w, In p problems -> Inv rows w ->
     exists row w',
       runTrial env rep dryRun model p i w = (Ok row, w') /\ Inv (rows ++ [row]) w') ->
  forall w, Inv [] w ->
    exists rows w',
      runTrials env rep trials dryRun model w = (Ok rows, w')
      /\ Inv rows w' /\ List.length rows = (List.length problems * trials)%nat.
Proof.
  intros Hbody w HI. unfold runTrials.
  apply (problems_loop_inv _ problems trials); [|assumption].
  intros p rows0 w0 Hp HI0.
  apply trials_loop_inv; [|assumption].
  intros i rows1 w1 HI1. apply Hbody; assumption.
Qed.

End LoopInvariants.

(** The body of a loop returned the row it shows: name it and the world. *)
Ltac row_pushed := eexists; eexists; split; [reflexivity|].

(** A property of all rows, after one more row: the new row remains. *)
Ltac all_rows := apply Forall_app; split; [assumption|]; constructor; [|constructor].

(** ** Single trials *)

Lemma error_text_new_Error (m : jsstring) : m <> [] -> error_text (new_Error m) = m.
Proof. destruct m; [congruence|reflexivity]. Qed.

(** The call never escapes the [try]: its result or its failure becomes the
    response text, and a request is made exactly when a key is configured. *)
Lemma call_caught (env : Env) (model prompt : jsstring) (w : World) :
  try_catch (callOpenAIChat env model prompt) (fun e => ret (error_text e)) w
  = (Ok (live_text (OPENAI_API_KEY env) (fetch env (fetch_calls w) model prompt)),
     match OPENAI_API_KEY env with [] => w | _ => called w end).
Proof.
  unfold try_catch, callOpenAIChat, live_text.
  destruct (OPENAI_API_KEY env) as [|c key]; [reflexivity|].
  unfold bind, do_fetch. fold (called w).
  destruct (fetch env (fetch_calls w) model prompt) as [e|res]; [reflexivity|].
  destruct (res_ok res); simpl.
  - destruct (res_content res); reflexivity.
  - destruct (res_text res) as [e|text]; [reflexivity|].
    unfold throw, ret. rewrite error_text_new_Error; [reflexivity|discriminate].
Qed.

Lemma runTrial_live (env : Env) (rep model : jsstring) (p : Problem) (i : nat) (w : World) :
  let text := live_text (OPENAI_API_KEY env)
                (fetch env (fetch_calls w) model (prompt_of rep p)) in
  let w1 := match OPENAI_API_KEY env with [] => tick w | _ => called (tick w) end in
  runTrial env rep false model p i w
  = (Ok {| timestamp := Date_now env (S (clock_reads w1));
           problem_id := id p;
           r_topic := topic p;
           representation := rep;
           trial_index := i + 1;
           latency_sec :=
             round (num_div (of_Z (Date_now env (clock_reads w1) - Date_now env (clock_reads w)))
                      (Fin 1000)) (Fin 2);
           numeric_answer := extractFinalNumeric text;
           expected_value := expectedValue p;
           r_units := units p;
           r_correct :=
             isWithinTolerance (extractFinalNumeric text) (expectedValue p) (toleranceRatio p) |},
     tick (tick w1)).
Proof.
  intros text w1. unfold runTrial.
  unfold bind at 1. unfold now at 1. fold (tick w).
  unfold bind at 1. unfold bind at 1.
  fold (prompt_of rep p). rewrite call_caught.
  change (fetch_calls (tick w)) with (fetch_calls w). fold text.
  destruct (OPENAI_API_KEY env); reflexivity.
Qed.

(** ** Failures of the service *)

(** C7. In live mode with a key, whatever the service does on each call,
    the run returns one row per problem and trial, having made one call per
    row; the row of a call is scored by the Answer Extractor and the
    Correctness Checker from that call's response text, which for a failed
    call is the description of the error. *)
Theorem live_failures_are_recorded (env : Env) (rep model : jsstring)
    (trials : nat) (w : World) :
  OPENAI_API_KEY env <> [] ->
  (forall e, live_text (OPENAI_API_KEY env) (Rejected e) = error_text e)
  /\ exists rows w',
       runTrials env rep trials false model w = (Ok rows, w')
       /\ List.length rows = (List.length problems * trials)%nat
       /\ fetch_calls w' = (fetch_calls w + List.length rows)%nat
       /\ forall j row, nth_error rows j = Some row ->
            scored_from env rep model (fetch_calls w + j) row.
Proof.
  intros Hkey. split.
  { intros e. destruct (OPENAI_API_KEY env); [congruence|reflexivity]. }
  pose (Inv := fun (rows : list TrialRecord) (w1 : World) =>
    fetch_calls w1 = (fetch_calls w + List.length rows)%nat
    /\ forall j row, nth_error rows j = Some row ->
         scored_from env rep model (fetch_calls w + j) row).
  destruct (runTrials_inv env Inv rep trials false model) with (w := w)
    as [rows [w' [E [[HI1 HI2] L]]]].
  - intros p i rows w1 Hp [H1 H2]. rewrite runTrial_live.
    row_pushed. split.
    + rewrite length_app; simpl.
      destruct (OPENAI_API_KEY env); [congruence|simpl; lia].
    + intros j row Hj.
      destruct (Nat.lt_ge_cases j (List.length rows)) as [Hlt|Hge].
      * rewrite nth_error_app1 in Hj by assumption. apply H2; assumption.
      * rewrite nth_error_app2 in Hj by assumption.
        destruct (j - List.length rows)%nat as [|d] eqn:Ed;
          [|destruct d; discriminate Hj].
        injection Hj as <-.
        assert (j = List.length rows) as -> by lia.
        exists p. rewrite <- H1. repeat split; assumption || reflexivity.
  - split; [simpl; lia|]. intros j row Hj. destruct j; discriminate Hj.
  - exists rows, w'. repeat split; assumption.
Qed.

(** ** A missing key *)

Lemma extract_missing_key : extractFinalNumeric "Missing OPENAI_API_KEY" = None.
Proof. vm_compute. reflexivity. Qed.

(** C2, at the input where the code leaves it. In live mode without a
    key the service call throws Missing OPENAI_API_KEY, but the run does not
    fail: the failure is caught trial by trial, so every trial is executed,
    no request is sent, and each row records the missing-key message as a
    failed extraction (no numeric answer, incorrect). *)
Theorem missing_key_is_recorded_per_trial (env : Env) (rep model : jsstring)
    (trials : nat) (w : World) :
  OPENAI_API_KEY env = [] ->
  exists rows w',
    runTrials env rep trials false model w = (Ok rows, w')
    /\ List.length rows = (List.length problems * trials)%nat
    /\ fetch_calls w' = fetch_calls w
    /\ Forall (fun row => numeric_answer row = None /\ r_correct row = false) rows.
Proof.
  intros Hkey.
  pose (Inv := fun (rows : list TrialRecord) (w1 : World) =>
    fetch_calls w1 = fetch_calls w
    /\ Forall (fun row => numeric_answer row = None /\ r_correct row = false) rows).
  destruct (runTrials_inv env Inv rep trials false model) with (w := w)
    as [rows [w' [E [[HI1 HI2] L]]]].
  - intros p i rows w1 Hp [H1 H2]. rewrite runTrial_live.
    row_pushed. rewrite Hkey. split; [exact H1|]. all_rows.
    cbn [numeric_answer r_correct live_text]. rewrite extract_missing_key.
    split; reflexivity.
  - split; [reflexivity|constructor].
  - exists rows, w'. repeat split; assumption.
Qed.

(** A live run of one trial per problem without a key does not fail as a
    whole. *)
Lemma missing_key_run_completes :
  ~ fails_as_a_whole test_env "linear" "gpt-4o-mini" 1 start_world.
Proof.
  intros [e [w' H]]. vm_compute in H. discriminate H.
Qed.

(** ** Dry-run rows *)

Lemma world_eq (a b : World) :
  clock_reads a = clock_reads b -> random_draws a = random_draws b ->
  fetch_calls a = fetch_calls b -> a = b.
Proof. destruct a, b; simpl; intros -> -> ->; reflexivity. Qed.

(** An identifier of the catalog is an own key of the table: the baseline
    is read without consulting the host. *)
Lemma baseline_of_catalog (env : Env) (p : Problem) (rep : jsstring) :
  In p problems -> exists m, baseline_of env (id p) rep = Ok m.
Proof.
  intros [<-|[<-|[<-|[]]]]; unfold baseline_of;
    match goal with
    | |- context [lookup ?k means] =>
        let r := eval vm_compute in (lookup k means) in
        change (lookup k means) with r; cbv iota beta
    end;
    match goal with
    | |- context [lookup rep ?row] => destruct (lookup rep row)
    end; try destruct (inherited rep); eexists; reflexivity.
Qed.

Lemma synthesizeTrial_returns (env : Env) (pid rep : jsstring) (m : Baseline) (w : World) :
  baseline_of env pid rep = Ok m ->
  synthesizeTrial env pid rep w
  = (Ok (synthesize m (randn_value env w) (Math_random env (random_draws w + 2))),
     advanced w 0 3 0).
Proof.
  intros E. unfold synthesizeTrial, bind at 1, lift. rewrite E.
  replace (random_draws w + 2)%nat with (S (S (random_draws w))) by lia.
  replace (advanced w 0 3 0)
    with {| clock_reads := clock_reads w;
            random_draws := S (S (S (random_draws w)));
            fetch_calls := fetch_calls w |}
    by (apply world_eq; simpl; lia).
  reflexivity.
Qed.

Lemma runTrial_dry_at (env : Env) (rep model : jsstring) (p : Problem) (i : nat)
    (w : World) (m : Baseline) :
  baseline_of env (id p) rep = Ok m ->
  runTrial env rep true model p i w
  = (let s := synthesize m (randn_value env (tick w))
                (Math_random env (random_draws w + 2)) in
     Ok {| timestamp := Date_now env (S (clock_reads w));
           problem_id := id p;
           r_topic := topic p;
           representation := rep;
           trial_index := i + 1;
           latency_sec := round (timeSec s) (Fin 2);
           numeric_answer := extractFinalNumeric (dry_answer_text p (correct s));
           expected_value := expectedValue p;
           r_units := units p;
           r_correct := correct s |},
     advanced w 2 3 0).
Proof.
  intros E. unfold runTrial.
  unfold bind at 1. unfold now at 1. fold (tick w).
  unfold bind at 1. unfold bind at 1.
  rewrite (synthesizeTrial_returns env (id p) rep m (tick w) E).
  cbv zeta. unfold ret, bind, now. cbn [clock_reads random_draws fetch_calls advanced tick].
  rewrite !Nat.add_0_r. f_equal. apply world_eq; simpl; lia.
Qed.

Lemma runTrial_dry (env : Env) (rep model : jsstring) (p : Problem) (i : nat) (w : World) :
  In p problems ->
  exists (s : Synth) (w' : World) (stamp : Z),
    runTrial env rep true model p i w
    = (Ok {| timestamp := stamp;
             problem_id := id p;
             r_topic := topic p;
             representation := rep;
             trial_index := i + 1;
             latency_sec := round (timeSec s) (Fin 2);
             numeric_answer := extractFinalNumeric (dry_answer_text p (correct s));
             expected_value := expectedValue p;
             r_units := units p;
             r_correct := correct s |},
       w')
    /\ (exists w1, synthesizeTrial env (id p) rep (tick w) = (Ok s, w1))
    /\ fetch_calls w' = fetch_calls w.
Proof.
  intros Hp. destruct (baseline_of_catalog env p rep Hp) as [m E].
  rewrite (runTrial_dry_at env rep model p i w m E).
  eexists; eexists; eexists. split; [reflexivity|].
  split; [|simpl; lia].
  eexists. rewrite (synthesizeTrial_returns env (id p) rep m (tick w) E). reflexivity.
Qed.




(* ================================================================== *)
(** * Synthesis and prompts *)
(* ================================================================== *)

(** ** Rounding to a number of decimals *)

Lemma fin_eq (a b : Q) : a == b -> fin a = fin b.
Proof. intros H. unfold fin. f_equal. apply Qred_complete. assumption. Qed.

Lemma Qfloor_half (k : Z) (x : Q) : x == inject_Z k + (1 # 2) -> Qfloor x = k.
Proof.
  intros H.
  pose proof (Qfloor_le x) as H1. pose proof (Qlt_floor x) as H2.
  rewrite inject_Z_plus in H2. change (inject_Z 1) with 1 in H2.
  remember (Qfloor x) as f eqn:Ef. clear Ef.
  assert (inject_Z f < inject_Z k + 1) as H3 by lra.
  assert (inject_Z k < inject_Z f + 1) as H4 by lra.
  change 1 with (inject_Z 1) in H3, H4.
  rewrite <- inject_Z_plus in H3, H4. rewrite <- Zlt_Qlt in H3, H4. lia.
Qed.

Lemma round_2_cents (q : Q) : round (Fin q) (Fin 2) = fin (inject_Z (cents q) / 100).
Proof. reflexivity. Qed.

Lemma cents_of_cents (k : Z) : cents (Qred (inject_Z k / 100)) = k.
Proof.
  unfold cents. apply Qfloor_half. rewrite !Qred_correct. field.
Qed.

Lemma round_2_idempotent (x : number) :
  round (round x (Fin 2)) (Fin 2) = round x (Fin 2).
Proof.
  destruct x as [q| | |]; try reflexivity.
  rewrite round_2_cents. unfold fin at 1. rewrite round_2_cents, cents_of_cents.
  reflexivity.
Qed.

Lemma cents_lower_bound (q : Q) : 5 <= q -> (500 <= cents q)%Z.
Proof.
  intros H. unfold cents.
  change 500%Z with (Qfloor (inject_Z 500)).
  apply Qfloor_resp_le. rewrite Qred_correct.
  change (inject_Z 500) with 500. lra.
Qed.

Lemma round_2_at_least_5 (q : Q) :
  5 <= q -> num_le (Fin 5) (round (Fin q) (Fin 2)) = true.
Proof.
  intros H. rewrite round_2_cents. unfold fin, num_le.
  apply Qle_bool_iff. rewrite Qred_correct.
  pose proof (cents_lower_bound q H) as Hc.
  rewrite Zle_Qle in Hc. change (inject_Z 500) with 500 in Hc.
  apply Qle_shift_div_l; [reflexivity|]. lra.
Qed.

(** ** Synthesized latencies *)

(** An identifier that is neither a key of the table nor an inherited name,
    or a representation that is neither a key of its row nor an inherited
    name, gets the default baseline. *)
Lemma baseline_of_unrecognized (env : Env) (pid rep : jsstring) :
  (lookup pid means = None -> inherited pid = false ->
   baseline_of env pid rep = Ok default_baseline)
  /\ (forall row, lookup pid means = Some row -> lookup rep row = None ->
        inherited rep = false ->
        baseline_of env pid rep = Ok default_baseline).
Proof.
  unfold baseline_of. split.
  - intros -> ->. reflexivity.
  - intros row -> -> ->. reflexivity.
Qed.

(** Away from the inherited names the baseline is an entry of the table or
    the default. *)
Lemma baseline_of_plain (env : Env) (pid rep : jsstring) :
  inherited pid = false -> inherited rep = false ->
  exists m, baseline_of env pid rep = Ok m /\ with_fields m.
Proof.
  intros Hp Hr. unfold baseline_of, means, lookup. rewrite Hp, Hr.
  repeat match goal with
         | |- context [str_eqb ?a ?b] => destruct (str_eqb a b)
         end;
    eexists; (split; [reflexivity|]); eexists; eexists;
    (split; [vm_compute; reflexivity|]); (split; [vm_compute; reflexivity|]);
    split; vm_compute; discriminate.
Qed.

(** On a row of the table, an inherited name finds a built-in value. *)
Lemma baseline_of_inherited (env : Env) (p : Problem) (rep : jsstring) :
  In p problems -> inherited rep = true ->
  baseline_of env (id p) rep = Ok no_fields.
Proof.
  intros Hp Hr.
  destruct Hp as [<-|[<-|[<-|[]]]]; unfold baseline_of;
    match goal with
    | |- context [lookup ?k means] =>
        let r := eval vm_compute in (lookup k means) in
        change (lookup k means) with r; cbv iota beta
    end; unfold lookup;
    repeat match goal with
           | |- context [str_eqb ?a rep] =>
               let E := fresh "E" in
               destruct (str_eqb a rep) eqn:E;
               [apply str_eqb_eq in E; subst rep; vm_compute in Hr; discriminate Hr|]
           end;
    rewrite Hr; reflexivity.
Qed.

Lemma max_5_floored (y : number) : y <> NaN -> floored (Math_max (Fin 5) y).
Proof.
  intros Hy. destruct y as [b| | |]; try congruence.
  - unfold Math_max. destruct (Qle_bool 5 b) eqn:E; right.
    + exists b. split; [reflexivity|]. apply Qle_bool_iff. assumption.
    + exists 5. split; [reflexivity|]. lra.
  - left. reflexivity.
  - right. exists 5. split; [reflexivity|lra].
Qed.

Lemma noisy_time_not_nan (q : Q) (noise : number) :
  noise <> NaN -> num_add (Fin q) (num_mul noise (Fin (12 # 10))) <> NaN.
Proof.
  intros H. destruct noise; try congruence; discriminate.
Qed.

Lemma round_2_floored (x : number) :
  floored x ->
  num_le (Fin 5) (round x (Fin 2)) = true
  /\ round (round x (Fin 2)) (Fin 2) = round x (Fin 2).
Proof.
  intros [->|[b [-> Hb]]].
  - split; reflexivity.
  - split; [apply round_2_at_least_5; assumption|apply round_2_idempotent].
Qed.

Lemma synthesize_latency (m : Baseline) (noise draw : number) :
  with_fields m -> noise <> NaN ->
  num_le (Fin 5) (timeSec (synthesize m noise draw)) = true
  /\ round (timeSec (synthesize m noise draw)) (Fin 2)
     = timeSec (synthesize m noise draw).
Proof.
  intros [q [e [Hq _]]] H. unfold synthesize; cbn [timeSec]. rewrite Hq.
  apply round_2_floored, max_5_floored, noisy_time_not_nan. assumption.
Qed.

(** Without fields there is no time to start from and no rate to compare
    with: the latency is NaN and the trial counts as correct. *)
Lemma synthesize_no_fields (noise draw : number) :
  synthesize no_fields noise draw = {| timeSec := NaN; correct := true |}.
Proof.
  unfold synthesize, no_fields; cbn [t err].
  destruct noise, draw; reflexivity.
Qed.

Lemma randn_returns (env : Env) (w : World) :
  randn env w
  = (Ok (randn_value env w),
     {| clock_reads := clock_reads w;
        random_draws := S (S (random_draws w));
        fetch_calls := fetch_calls w |}).
Proof. reflexivity. Qed.

(** It is a number as soon as the square root and the cosine it multiplies
    are finite. *)
Lemma randn_value_not_nan (env : Env) (w : World) (a b : Q) :
  Math_sqrt env (num_mul (Fin (-2))
     (Math_log env (num_sub (Fin 1) (Math_random env (random_draws w))))) = Fin a ->
  Math_cos env (num_mul (num_mul (Fin 2) (Math_PI env))
     (num_sub (Fin 1) (Math_random env (S (random_draws w))))) = Fin b ->
  randn_value env w <> NaN.
Proof.
  intros Ha Hb. unfold randn_value. rewrite Ha, Hb. discriminate.
Qed.


(** X29. The latency floor, away from the inherited names. For every
    problem identifier and representation that are not names inherited from
    Object.prototype, recognised or not, and whenever the Gaussian draw is
    a number, the Trial Synthesizer returns a latency that is at least 5 and
    is unchanged by rounding to 2 decimals. *)
Theorem synthesized_latency_floor (env : Env) (pid rep : jsstring) (w : World) :
  inherited pid = false -> inherited rep = false ->
  randn_value env w <> NaN ->
  exists s w',
    synthesizeTrial env pid rep w = (Ok s, w')
    /\ num_le (Fin 5) (timeSec s) = true
    /\ round (timeSec s) (Fin 2) = timeSec s.
Proof.
  intros Hp Hr Hnan.
  destruct (baseline_of_plain env pid rep Hp Hr) as [m [E Hm]].
  rewrite (synthesizeTrial_returns env pid rep m w E).
  eexists; eexists; split; [reflexivity|].
  apply synthesize_latency; assumption.
Qed.

(** ** The output-format sentence of the prompts *)

(** The whole output-format sentences are not the same text: the steps they
    name before the shared clause differ. *)
Remark output_format_differs : ~ (forall p, In p problems -> same_output_format p).
Proof.
  intros H. specialize (H mechanics_a (or_introl eq_refl)).
  vm_compute in H. discriminate H.
Qed.

Lemma linear_format_split :
  lit "Output format: first show key formulas and steps, then a single final line starting with "
  = linear_steps ++ lit ", " ++ lit "then a single final line starting with ".
Proof. vm_compute. reflexivity. Qed.

Lemma septagon_format_split :
  lit "Output format: first map nodes to formulas, then show reasoning steps, then a single final line starting with "
  = septagon_steps ++ lit ", " ++ lit "then a single final line starting with ".
Proof. vm_compute. reflexivity. Qed.

(** C6. For every problem, the linear prompt and the structured prompt
    both end with an output-format sentence that closes with the same
    instruction text, the one fixing the [Final Answer:] convention: a
    single final line starting with [Final Answer:] followed by the numeric
    value and units. *)
Theorem prompts_share_final_answer_clause (p : Problem) :
  (exists before,
     buildLinearPrompt p = before ++ linear_steps ++ lit ", " ++ final_answer_clause)
  /\ (exists before,
        buildSeptagonPrompt p = before ++ septagon_steps ++ lit ", " ++ final_answer_clause).
Proof.
  split.
  - exists (lit "You are given a physics problem. Solve it with step-by-step reasoning and provide the final numeric answer with units." ++ nl
            ++ (lit "Problem: " ++ statement p ++ nl)).
    unfold buildLinearPrompt, final_answer_clause.
    rewrite linear_format_split.
    generalize linear_steps; intros s1.
    repeat match goal with |- context [lit ?x] => generalize (lit x); intro end.
    rewrite <- !app_assoc. reflexivity.
  - exists (lit "You are given the following non-linear septagon diagram nodes that encode the problem context. Use the relationships between nodes to reason and solve. Provide the final numeric answer with units." ++ nl
            ++ (lit "Nodes:" ++ nl)
            ++ (join nl (map (fun n => lit "- " ++ n) (septagonNodes p)) ++ nl)).
    unfold buildSeptagonPrompt, final_answer_clause.
    rewrite septagon_format_split.
    generalize septagon_steps; intros s1.
    generalize (join nl (map (fun n => lit "- " ++ n) (septagonNodes p))); intros nodes.
    repeat match goal with |- context [lit ?x] => generalize (lit x); intro end.
    cbv zeta. rewrite <- !app_assoc. reflexivity.
Qed.

(* ================================================================== *)
(** * The answer extractor *)
(* ================================================================== *)

(** ** The matcher on the patterns of the source *)

Lemma orelse_None_r {A} (x : option A) : orelse x None = x.
Proof. destruct x; reflexivity. Qed.

Lemma orelse_Some {A} (x y : option A) : x <> None -> orelse x y = x.
Proof. destruct x; [reflexivity|congruence]. Qed.

Lemma run_Cat (a b : regex) (i : nat) (s : jsstring) (k : cont) :
  run (Cat a b) i s k = run a i s (fun j t => run b j t k).
Proof. reflexivity. Qed.

Lemma run_Opt (a : regex) (i : nat) (s : jsstring) (k : cont) :
  run (Opt a) i s k = orelse (run a i s k) (k i s).
Proof. reflexivity. Qed.

Lemma run_Class (p : code_unit -> bool) (i : nat) (s : jsstring) (k : cont) :
  run (Class p) i s k
  = match s with
    | c :: s' => if p c then k (S i) s' else None
    | [] => None
    end.
Proof. reflexivity. Qed.

Lemma run_Bol_0 (s : jsstring) (k : cont) : run Bol 0 s k = k 0%nat s.
Proof. reflexivity. Qed.

Lemma run_Bol_S (i : nat) (s : jsstring) (k : cont) : run Bol (S i) s k = None.
Proof. reflexivity. Qed.

Lemma span_cons (p : code_unit -> bool) (c : code_unit) (s : jsstring) :
  span p (c :: s)
  = if p c then (c :: fst (span p s), snd (span p s)) else ([], c :: s).
Proof. simpl. destruct (p c); [destruct (span p s)|]; reflexivity. Qed.

(** A greedy [p*] takes the longest run of [p], provided giving characters
    back can never help: either the continuation rejects any input that
    starts with a [p] character, or it never fails. *)
Lemma star_class (p : code_unit -> bool) (k : cont) :
  (forall j c t, p c = true -> k j (c :: t) = None) \/ (forall j t, k j t <> None) ->
  forall fuel i s,
    (List.length s <= fuel)%nat ->
    star_loop (run (Class p)) fuel i s k
    = k (i + List.length (fst (span p s)))%nat (snd (span p s)).
Proof.
  intros Hk. induction fuel as [|fuel IH]; intros i s Hlen.
  - destruct s; [|simpl in Hlen; lia]. simpl. rewrite Nat.add_0_r. reflexivity.
  - destruct s as [|c s].
    + simpl. rewrite Nat.add_0_r. reflexivity.
    + cbn [star_loop run]. rewrite span_cons. destruct (p c) eqn:Ec.
      * rewrite (proj2 (Nat.ltb_lt i (S i)) (Nat.lt_succ_diag_r i)). rewrite IH by (simpl in Hlen; lia).
        cbn [fst snd List.length]. rewrite Nat.add_succ_r.
        destruct Hk as [Hk|Hk].
        -- rewrite (Hk i c s Ec). apply orelse_None_r.
        -- apply orelse_Some. apply Hk.
      * cbn [orelse fst snd List.length]. rewrite Nat.add_0_r. reflexivity.
Qed.

Lemma run_star_class (p : code_unit -> bool) (k : cont) (i : nat) (s : jsstring) :
  (forall j c t, p c = true -> k j (c :: t) = None) \/ (forall j t, k j t <> None) ->
  run (Star (Class p)) i s k
  = k (i + List.length (fst (span p s)))%nat (snd (span p s)).
Proof. intros Hk. cbn [run]. apply star_class; [assumption|lia]. Qed.

Lemma run_plus_class (p : code_unit -> bool) (k : cont) (i : nat) (s : jsstring) :
  (forall j t, k j t <> None) ->
  run (Plus (Class p)) i s k
  = match run_of p s with
    | Some (n, rest) => k (i + n)%nat rest
    | None => None
    end.
Proof.
  intros Hk. unfold Plus, run_of. cbn [run]. destruct s as [|c s]; [reflexivity|].
  rewrite span_cons. destruct (p c); [|reflexivity].
  rewrite (star_class p k (or_intror Hk)) by lia.
  cbn [fst snd List.length]. rewrite Nat.add_succ_r. reflexivity.
Qed.

Lemma run_chars_ci (pat : list ascii) (k : cont) (i : nat) (s : jsstring) :
  run (chars_ci pat) i s k
  = match strip_prefix_ci pat s with
    | Some rest => k (i + List.length pat)%nat rest
    | None => None
    end.
Proof.
  revert i s. induction pat as [|a pat IH]; intros i s; simpl.
  - rewrite Nat.add_0_r. reflexivity.
  - destruct s as [|c s]; [reflexivity|].
    destruct (is_char_ci a c); [|reflexivity].
    rewrite IH, Nat.add_succ_r. reflexivity.
Qed.

(** ** Lines *)

Lemma match_at_newline (q : nat) (s : jsstring) :
  match_at re_newline q s
  = match s with
    | c :: s' =>
        if (c =? 10)%N then Some (S q)
        else
          match s' with
          | d :: _ => if ((c =? 13) && (d =? 10))%N then Some (S (S q)) else None
          | [] => None
          end
    | [] => None
    end.
Proof.
  unfold match_at, re_newline. cbn [run]. destruct s as [|c s]; [reflexivity|].
  unfold is_char, cu. change (N_of_ascii "013") with 13%N.
  change (N_of_ascii "010") with 10%N.
  destruct (N.eqb_spec c 10) as [->|H10]; [reflexivity|].
  destruct (N.eqb_spec c 13) as [->|H13]; [|simpl; destruct s; reflexivity].
  destruct s as [|d s]; [reflexivity|].
  destruct (d =? 10)%N; reflexivity.
Qed.

Lemma split_loop_lines (fuel : nat) :
  forall piece p q s,
    (List.length s < fuel)%nat -> (p <= q)%nat ->
    split_loop re_newline fuel piece p q s = lines_from piece s.
Proof.
  induction fuel as [|fuel IH]; intros piece p q s Hlen Hpq; [lia|].
  destruct s as [|c s]; [reflexivity|].
  cbn [split_loop]. rewrite match_at_newline. cbn [lines_from].
  simpl in Hlen.
  destruct (c =? 10)%N.
  - assert ((S q =? p)%nat = false) as -> by (apply Nat.eqb_neq; lia).
    replace (S q - q)%nat with 1%nat by lia. cbn [skipn].
    f_equal. apply IH; lia.
  - destruct s as [|d s]; [apply IH; simpl; lia|].
    destruct ((c =? 13) && (d =? 10))%N.
    + assert ((S (S q) =? p)%nat = false) as -> by (apply Nat.eqb_neq; lia).
      replace (S (S q) - q)%nat with 2%nat by lia. cbn [skipn].
      f_equal. apply IH; simpl in *; lia.
    + apply IH; simpl in *; lia.
Qed.

Lemma split_lines (s : jsstring) : split re_newline s = lines s.
Proof.
  destruct s as [|c s]; [reflexivity|].
  unfold split, lines. apply split_loop_lines; simpl; lia.
Qed.

(** ** Commas *)

Lemma remove_loop_class (p : code_unit -> bool) (fuel : nat) :
  forall q s,
    (List.length s <= fuel)%nat ->
    remove_loop (Class p) fuel q s = filter (fun c => negb (p c)) s.
Proof.
  induction fuel as [|fuel IH]; intros q s Hlen.
  - destruct s; [reflexivity|simpl in Hlen; lia].
  - destruct s as [|c s]; [reflexivity|].
    cbn [remove_loop filter]. unfold match_at. cbn [run]. simpl in Hlen.
    destruct (p c); cbn [negb accept].
    + rewrite (proj2 (Nat.ltb_lt q (S q)) (Nat.lt_succ_diag_r q)).
      replace (S q - q)%nat with 1%nat by lia. cbn [skipn]. apply IH. lia.
    + f_equal. apply IH. lia.
Qed.

Lemma remove_commas (s : jsstring) : remove_all re_comma s = strip_commas s.
Proof. apply remove_loop_class. lia. Qed.

(** ** The final-answer line *)

Lemma space_not_F (c : code_unit) : is_space c = true -> is_char_ci "F" c = false.
Proof.
  intros H. unfold is_char_ci, cu. change (N_of_ascii "F") with 70%N. cbn.
  destruct (N.eqb_spec c 70) as [->|H1]; [discriminate H|].
  destruct (N.eqb_spec c 102) as [->|H2]; [discriminate H|]. reflexivity.
Qed.

Lemma space_not_colon (c : code_unit) : is_space c = true -> is_char_ci ":" c = false.
Proof.
  intros H. unfold is_char_ci, cu. change (N_of_ascii ":") with 58%N. cbn.
  destruct (N.eqb_spec c 58) as [->|H1]; [discriminate H|]. reflexivity.
Qed.

Lemma match_final_answer_at_start (l : jsstring) :
  match match_at re_final_answer 0 l with Some _ => true | None => false end
  = is_final_answer_line l.
Proof.
  unfold match_at, re_final_answer, text_ci, is_final_answer_line, skip_spaces.
  rewrite run_Cat, run_Bol_0, run_Cat, run_star_class.
  2:{ left. intros j c t Hc. rewrite run_Cat.
      change (list_ascii_of_string "Final Answer")
        with ("F"%char :: list_ascii_of_string "inal Answer").
      cbn [chars_ci]. rewrite run_Cat, run_Class, (space_not_F c Hc). reflexivity. }
  rewrite run_Cat, run_chars_ci.
  destruct (strip_prefix_ci (list_ascii_of_string "Final Answer") (snd (span is_space l)))
    as [rest|]; [|reflexivity].
  rewrite run_Cat, run_star_class.
  2:{ left. intros j c t Hc. rewrite run_Class, (space_not_colon c Hc). reflexivity. }
  rewrite run_Class. destruct (snd (span is_space rest)) as [|c t]; [reflexivity|].
  unfold is_char_ci, is_char, cu. change (N_of_ascii ":") with 58%N. cbn.
  destruct (c =? 58)%N; reflexivity.
Qed.

Lemma search_final_answer_later (s : jsstring) (i : nat) :
  search re_final_answer (S i) s = None.
Proof.
  revert i. induction s as [|c s IH]; intros i; cbn [search];
    unfold match_at, re_final_answer; rewrite run_Cat, run_Bol_S;
    [reflexivity|apply IH].
Qed.

Lemma test_final_answer (l : jsstring) :
  test re_final_answer l = is_final_answer_line l.
Proof.
  rewrite <- match_final_answer_at_start. unfold test, exec.
  destruct l as [|c l]; cbn [search].
  - destruct (match_at re_final_answer 0 []); reflexivity.
  - destruct (match_at re_final_answer 0 (c :: l)); [reflexivity|].
    rewrite search_final_answer_later. reflexivity.
Qed.

(** ** Numbers in a text *)

Lemma accept_total : forall j t, accept j t <> None.
Proof. intros j t. discriminate. Qed.

Lemma run_of_not_digit (c : code_unit) (s : jsstring) :
  is_digit c = false -> run_of is_digit (c :: s) = None.
Proof. intros H. unfold run_of. rewrite span_cons, H. reflexivity. Qed.

Lemma sign_not_digit (c : code_unit) :
  (is_char_ci "+" c || is_char_ci "-" c) = true -> is_digit c = false.
Proof.
  unfold is_char_ci, is_digit, cu. change (N_of_ascii "+") with 43%N.
  change (N_of_ascii "-") with 45%N. cbn.
  destruct (N.eqb_spec c 43) as [->|H1]; [reflexivity|].
  destruct (N.eqb_spec c 45) as [->|H2]; [reflexivity|]. discriminate.
Qed.

Lemma is_sign_ci (c : code_unit) :
  (is_char_ci "+" c || is_char_ci "-" c) = is_sign c.
Proof. reflexivity. Qed.

Lemma run_digits_accept (i : nat) (s : jsstring) :
  run re_digits i s accept
  = match run_of is_digit s with
    | Some (n, _) => Some (i + n)%nat
    | None => None
    end.
Proof.
  unfold re_digits. rewrite run_plus_class by apply accept_total.
  destruct (run_of is_digit s) as [[n rest]|]; reflexivity.
Qed.

Lemma run_exponent (i : nat) (s : jsstring) :
  orelse (run re_exponent i s accept) (accept i s) = Some (i + exponent_length s)%nat.
Proof.
  unfold re_exponent, exponent_length.
  rewrite run_Cat, run_Class. destruct s as [|c s].
  { simpl. rewrite Nat.add_0_r. reflexivity. }
  destruct (is_char_ci "e" c).
  2:{ simpl. rewrite Nat.add_0_r. reflexivity. }
  rewrite run_Cat, run_Opt, run_Class.
  destruct s as [|d s].
  { rewrite run_digits_accept. simpl. rewrite Nat.add_0_r. reflexivity. }
  rewrite is_sign_ci. destruct (is_sign d) eqn:Ed.
  - rewrite !run_digits_accept.
    rewrite (run_of_not_digit d s) by (apply sign_not_digit; exact Ed).
    rewrite orelse_None_r.
    destruct (run_of is_digit s) as [[n rest]|]; simpl.
    + f_equal. lia.
    + rewrite Nat.add_0_r. reflexivity.
  - cbn [orelse]. rewrite run_digits_accept.
    destruct (run_of is_digit (d :: s)) as [[n rest]|]; simpl.
    + f_equal. lia.
    + rewrite Nat.add_0_r. reflexivity.
Qed.

Lemma run_fraction (i : nat) (s : jsstring) :
  run (Opt re_fraction) i s (fun j t => run (Opt re_exponent) j t accept)
  = Some (i + fst (fraction_of s) + exponent_length (snd (fraction_of s)))%nat.
Proof.
  assert (forall j t, run (Opt re_exponent) j t accept
                      = Some (j + exponent_length t)%nat) as Hexp.
  { intros j t. rewrite run_Opt. apply run_exponent. }
  rewrite run_Opt. unfold re_fraction, fraction_of.
  rewrite run_Cat, run_Class. destruct s as [|c s].
  { cbn [orelse fst snd]. rewrite Hexp. f_equal. lia. }
  change (is_char_ci "." c) with (is_char "." c).
  destruct (is_char "." c).
  2:{ cbn [orelse fst snd]. rewrite Hexp. f_equal. lia. }
  unfold re_digits. rewrite run_plus_class.
  2:{ intros j t. rewrite Hexp. discriminate. }
  destruct (run_of is_digit s) as [[n rest]|]; cbn [orelse fst snd].
  - rewrite Hexp. cbn [orelse]. f_equal. lia.
  - rewrite Hexp. f_equal. lia.
Qed.

Lemma run_unsigned (i : nat) (s : jsstring) :
  run (Cat re_digits (Cat (Opt re_fraction) (Opt re_exponent))) i s accept
  = option_map (Nat.add i) (unsigned_length s).
Proof.
  rewrite run_Cat. unfold re_digits at 1, unsigned_length.
  rewrite run_plus_class.
  2:{ intros j t. rewrite run_Cat, run_fraction. discriminate. }
  destruct (run_of is_digit s) as [[n s1]|]; [|reflexivity].
  rewrite run_Cat, run_fraction. destruct (fraction_of s1) as [f s2]. simpl.
  f_equal. lia.
Qed.

Lemma unsigned_length_minus (c : code_unit) (s : jsstring) :
  is_char "-" c = true -> unsigned_length (c :: s) = None.
Proof.
  intros H. unfold unsigned_length. rewrite run_of_not_digit; [reflexivity|].
  apply sign_not_digit. change (is_char_ci "-" c) with (is_char "-" c).
  rewrite H. apply orb_true_r.
Qed.

Lemma match_at_number (i : nat) (s : jsstring) :
  match_at re_number i s = option_map (Nat.add i) (number_length s).
Proof.
  unfold match_at.
  change re_number
    with (Cat (Opt (Class (is_char_ci "-")))
            (Cat re_digits (Cat (Opt re_fraction) (Opt re_exponent)))).
  rewrite run_Cat, run_Opt, run_Class.
  unfold number_length. destruct s as [|c s].
  { cbn [orelse]. rewrite run_unsigned. reflexivity. }
  change (is_char_ci "-" c) with (is_char "-" c).
  destruct (is_char "-" c) eqn:Ec.
  - rewrite !run_unsigned, (unsigned_length_minus c s Ec).
    cbn [option_map]. rewrite orelse_None_r.
    destruct (unsigned_length s); simpl; [f_equal; lia|reflexivity].
  - cbn [orelse]. apply run_unsigned.
Qed.

Lemma search_number (pre s : jsstring) :
  option_map (fun be => substring (pre ++ s) (fst be) (snd be))
    (search re_number (List.length pre) s)
  = first_number s.
Proof.
  revert pre. induction s as [|c s IH]; intros pre.
  - cbn [search first_number]. rewrite match_at_number. reflexivity.
  - cbn [search first_number]. rewrite match_at_number.
    destruct (number_length (c :: s)) as [n|]; cbn [option_map].
    + unfold substring; cbn [fst snd].
      replace (List.length pre + n - List.length pre)%nat with n by lia.
      rewrite skipn_app, skipn_all, Nat.sub_diag. reflexivity.
    + specialize (IH (pre ++ [c])).
      rewrite length_app, Nat.add_1_r, <- app_assoc in IH. exact IH.
Qed.

Lemma match_text_number (s : jsstring) : match_text re_number s = first_number s.
Proof.
  rewrite <- (search_number [] s). unfold match_text, exec.
  change (List.length (@nil code_unit)) with 0%nat.
  destruct (search re_number 0 s) as [[b e]|]; reflexivity.
Qed.

(** ** The extractor and its description *)

Lemma extract_differs_from_stated :
  extractFinalNumeric spaced_marker_text <> extract_as_stated spaced_marker_text
  /\ extractFinalNumeric "Final Answer: 1e400" <> extract_as_stated "Final Answer: 1e400".
Proof. split; vm_compute; discriminate. Qed.

Lemma find_ext {A} (f g : A -> bool) (l : list A) :
  (forall x, f x = g x) -> find f l = find g l.
Proof.
  intros H. induction l as [|x l IH]; simpl; [reflexivity|].
  rewrite H, IH. reflexivity.
Qed.

Lemma final_answer_line_nonempty (l : jsstring) (ls : list jsstring) :
  find is_final_answer_line ls = Some l -> l <> [].
Proof.
  intros H. apply find_some in H. destruct H as [_ H].
  intros ->. discriminate H.
Qed.

Lemma extractFinalNumeric_refines (text : jsstring) :
  extractFinalNumeric text = extract_spec text.
Proof.
  destruct text as [|c text]; [reflexivity|].
  unfold extractFinalNumeric, extract_spec.
  rewrite split_lines, (find_ext _ _ _ test_final_answer).
  assert (or_string (find is_final_answer_line (lines (c :: text))) (c :: text)
          = match find is_final_answer_line (lines (c :: text)) with
            | Some line => line
            | None => c :: text
            end) as ->.
  { destruct (find is_final_answer_line (lines (c :: text))) as [l|] eqn:E; [|reflexivity].
    apply final_answer_line_nonempty in E. destruct l; [congruence|reflexivity]. }
  rewrite remove_commas, match_text_number. reflexivity.
Qed.

(** C4, as the code has it. For every text the Answer Extractor returns
    what the described procedure returns: the text is split into lines, the
    first line starting (after optional white space, in any letter case)
    with [Final Answer], optional white space and a colon is the scope, or
    else the whole text; commas are removed; the first number of the scope
    from the left (minus sign, digits, optional fraction, optional exponent)
    is parsed; the result is null when there is no number or its value is
    not finite.  A text whose first such line is [Final Answer: 1,234.5 J]
    yields 1234.5. *)
Theorem extractFinalNumeric_algorithm :
  (forall text, extractFinalNumeric text = extract_spec text)
  /\ (forall text,
        find is_final_answer_line (lines text) = Some sample_line ->
        extractFinalNumeric text = Some (Fin (2469 # 2)))
  /\ extractFinalNumeric sample_text = Some (Fin (2469 # 2)).
Proof.
  split; [exact extractFinalNumeric_refines|]. split.
  - intros text H. rewrite extractFinalNumeric_refines. unfold extract_spec.
    rewrite H. vm_compute. reflexivity.
  - vm_compute. reflexivity.
Qed.

(* ================================================================== *)
(** * Keys of the rows of a run *)
(* ================================================================== *)

(** ** Keys that split back *)

Lemma split_string_loop_free (fuel : nat) :
  forall piece r,
    free_of_separator r = true ->
    split_string_loop "__" fuel piece r = [piece ++ r].
Proof.
  induction fuel as [|fuel IH]; intros piece r Hr; [reflexivity|].
  destruct r as [|c r]; cbn [split_string_loop].
  - rewrite app_nil_r. reflexivity.
  - cbn [free_of_separator] in Hr.
    destruct (strip_prefix "__" (c :: r)); [discriminate Hr|].
    rewrite IH by assumption. rewrite <- app_assoc. reflexivity.
Qed.

Lemma strip_separator_head (c : code_unit) (p a b : jsstring) :
  strip_prefix "__" (c :: p ++ 95%N :: a) = None ->
  strip_prefix "__" (c :: p ++ 95%N :: b) = None.
Proof.
  change (lit "__") with [95%N; 95%N]. cbn [strip_prefix].
  destruct (95 =? c)%N; [|reflexivity].
  destruct p as [|d p]; cbn [app].
  - rewrite N.eqb_refl. discriminate.
  - destruct (95 =? d)%N; [discriminate|reflexivity].
Qed.

Lemma split_string_loop_key (p : jsstring) :
  forall fuel piece r,
    free_of_separator (p ++ lit "_") = true ->
    (List.length (p ++ lit "__" ++ r) <= fuel)%nat ->
    split_string_loop "__" fuel piece (p ++ lit "__" ++ r)
    = (piece ++ p) :: split_string_loop "__" (fuel - List.length p - 1) [] r.
Proof.
  induction p as [|c p IH]; intros fuel piece r Hp Hlen.
  - change ([] ++ lit "__" ++ r) with (95%N :: 95%N :: r) in *.
    destruct fuel as [|fuel]; [simpl in Hlen; lia|].
    cbn [split_string_loop]. change (lit "__") with [95%N; 95%N].
    cbn [strip_prefix]. rewrite N.eqb_refl, app_nil_r.
    replace (S fuel - List.length (@nil code_unit) - 1)%nat with fuel by (simpl; lia).
    reflexivity.
  - change ((c :: p) ++ lit "_") with (c :: p ++ 95%N :: []) in Hp.
    change ((c :: p) ++ lit "__" ++ r) with (c :: p ++ 95%N :: 95%N :: r) in *.
    cbn [free_of_separator] in Hp.
    destruct (strip_prefix "__" (c :: p ++ [95%N])) eqn:E; [discriminate Hp|].
    destruct fuel as [|fuel]; [simpl in Hlen; lia|].
    cbn [split_string_loop].
    rewrite (strip_separator_head c p [] (95%N :: r) E).
    change (p ++ 95%N :: 95%N :: r) with (p ++ lit "__" ++ r).
    rewrite IH;
      [|exact Hp
       |change (p ++ lit "__" ++ r) with (p ++ 95%N :: 95%N :: r);
        cbn [List.length] in Hlen; lia].
    cbn [List.length Nat.sub].
    rewrite <- app_assoc. reflexivity.
Qed.

(** A key splits back into its two parts when the identifier followed by
    one underscore, and the representation, are free of the separator. *)
Lemma separator_safe_when_free (r : TrialRecord) :
  free_of_separator (problem_id r ++ lit "_") = true ->
  free_of_separator (representation r) = true ->
  separator_safe r.
Proof.
  intros Hp Hr. unfold separator_safe, split_string, key.
  rewrite split_string_loop_key by (assumption || lia).
  rewrite split_string_loop_free by assumption. reflexivity.
Qed.

Lemma from_catalog_safe (rep : jsstring) (row : TrialRecord) :
  rep = lit "linear" \/ rep = lit "septagon" ->
  from_catalog rep row -> separator_safe row.
Proof.
  intros Hrep [Hr [p [Hp Hid]]]. apply separator_safe_when_free.
  - rewrite Hid. destruct Hp as [<-|[<-|[<-|[]]]]; vm_compute; reflexivity.
  - rewrite Hr. destruct Hrep as [->| ->]; vm_compute; reflexivity.
Qed.

Lemma runTrials_rows_from_catalog (env : Env) (rep model : jsstring) (trials : nat)
    (dryRun : bool) (w : World) :
  exists rows w',
    runTrials env rep trials dryRun model w = (Ok rows, w')
    /\ Forall (from_catalog rep) rows.
Proof.
  destruct (runTrials_inv env (fun rows _ => Forall (from_catalog rep) rows)
              rep trials dryRun model) with (w := w) as [rows [w' [E [HI _]]]].
  - intros p i rows w1 Hp H. destruct dryRun.
    + destruct (runTrial_dry env rep model p i w1 Hp) as [s [w2 [stamp [E _]]]].
      rewrite E. row_pushed. all_rows.
      split; [reflexivity|]. exists p. split; [assumption|reflexivity].
    + rewrite runTrial_live. row_pushed. all_rows.
      split; [reflexivity|]. exists p. split; [assumption|reflexivity].
  - constructor.
  - exists rows, w'. split; assumption.
Qed.

(** Every row of a run under one of the two representations of the command
    line therefore has a key that splits back. *)
Corollary run_rows_separator_safe (env : Env) (rep model : jsstring) (trials : nat)
    (dryRun : bool) (w : World) :
  rep = lit "linear" \/ rep = lit "septagon" ->
  exists rows w',
    runTrials env rep trials dryRun model w = (Ok rows, w') /\ Forall separator_safe rows.
Proof.
  intros Hrep.
  destruct (runTrials_rows_from_catalog env rep model trials dryRun w) as [rows [w' [E H]]].
  exists rows, w'. split; [assumption|].
  rewrite Forall_forall in *. intros row Hrow.
  apply (from_catalog_safe rep); auto.
Qed.

(* ================================================================== *)
(** * The correctness checker *)
(* ================================================================== *)

(** ** The values of doubles and their order *)

Lemma digits2_bounds (m : positive) :
  (2 ^ (Z.pos (digits2_pos m) - 1) <= Z.pos m < 2 ^ Z.pos (digits2_pos m))%Z.
Proof.
  induction m as [m IH|m IH|]; cbn [digits2_pos].
  - rewrite Pos2Z.inj_succ, (Pos2Z.inj_xI m).
    replace (Z.succ (Z.pos (digits2_pos m)) - 1)%Z
      with (Z.succ (Z.pos (digits2_pos m) - 1)) by lia.
    rewrite !Z.pow_succ_r by lia.
    remember (2 ^ (Z.pos (digits2_pos m) - 1))%Z as a in *.
    remember (2 ^ Z.pos (digits2_pos m))%Z as b in *. clear Heqa Heqb. lia.
  - rewrite Pos2Z.inj_succ, (Pos2Z.inj_xO m).
    replace (Z.succ (Z.pos (digits2_pos m)) - 1)%Z
      with (Z.succ (Z.pos (digits2_pos m) - 1)) by lia.
    rewrite !Z.pow_succ_r by lia.
    remember (2 ^ (Z.pos (digits2_pos m) - 1))%Z as a in *.
    remember (2 ^ Z.pos (digits2_pos m))%Z as b in *. clear Heqa Heqb. lia.
  - cbn. lia.
Qed.

(** A finite double has an exponent of at least -1074 and a mantissa below
    2^53, which is at least 2^52 unless the exponent is -1074. *)
Lemma bounded_cases (m : positive) (e : Z) :
  bounded prec emax m e = true ->
  (-1074 <= e)%Z /\ (Z.pos m < 2 ^ 53)%Z /\ ((-1074 < e)%Z -> (2 ^ 52 <= Z.pos m)%Z).
Proof.
  unfold bounded, canonical_mantissa, fexp, emin.
  change prec with 53%Z. change emax with 1024%Z.
  intros H. apply andb_true_iff in H. destruct H as [H1 _].
  apply Z.eqb_eq in H1.
  pose proof (digits2_bounds m) as [Hlo Hhi].
  remember (Z.pos (digits2_pos m)) as d eqn:Ed.
  assert (0 < d)%Z as Hd by (subst d; lia).
  assert (d = 53 \/ (e = -1074 /\ d <= 53))%Z as [->|[-> Hle]] by lia.
  - split; [lia|]. split; [exact Hhi|]. intros _. exact Hlo.
  - split; [lia|]. split; [|lia].
    apply Z.lt_le_trans with (1 := Hhi). apply Z.pow_le_mono_r; lia.
Qed.

Lemma two_power_pos (e : Z) : 0 < 2 ^ e.
Proof. apply Qpower_0_lt. reflexivity. Qed.

Lemma magnitude_lt (m1 m2 : positive) (e1 e2 : Z) :
  bounded prec emax m1 e1 = true -> bounded prec emax m2 e2 = true ->
  (e1 < e2)%Z ->
  inject_Z (Z.pos m1) * 2 ^ e1 < inject_Z (Z.pos m2) * 2 ^ e2.
Proof.
  intros H1 H2 Hlt.
  destruct (bounded_cases m1 e1 H1) as [A1 [B1 _]].
  destruct (bounded_cases m2 e2 H2) as [A2 [_ C2]].
  specialize (C2 ltac:(lia)).
  rewrite Zlt_Qlt in B1. rewrite Zle_Qle in C2.
  rewrite Zpower_Qpower in B1, C2 by lia.
  change (inject_Z 2) with 2 in B1, C2.
  pose proof (two_power_pos e1) as P1. pose proof (two_power_pos e2) as P2.
  apply Qlt_le_trans with (2 ^ 53 * 2 ^ e1).
  - apply Qmult_lt_r; assumption.
  - apply Qle_trans with (2 ^ 52 * 2 ^ e2).
    + rewrite <- !Qpower_plus by discriminate.
      apply Qpower_le_compat_l; [lia|discriminate].
    + apply Qmult_le_r; assumption.
Qed.

Lemma magnitude_compare (m1 m2 : positive) (e1 e2 : Z) :
  bounded prec emax m1 e1 = true -> bounded prec emax m2 e2 = true ->
  match (e1 ?= e2)%Z with
  | Lt => Lt
  | Gt => Gt
  | Eq => Pos.compare_cont Eq m1 m2
  end
  = Qcompare (inject_Z (Z.pos m1) * 2 ^ e1) (inject_Z (Z.pos m2) * 2 ^ e2).
Proof.
  intros H1 H2. symmetry. destruct (Z.compare_spec e1 e2) as [->|Hlt|Hgt].
  - change (Pos.compare_cont Eq m1 m2) with (Z.pos m1 ?= Z.pos m2)%Z.
    pose proof (two_power_pos e2) as P.
    destruct (Z.compare_spec (Z.pos m1) (Z.pos m2)) as [E|L|G].
    + rewrite <- Qeq_alt. rewrite E. reflexivity.
    + rewrite <- Qlt_alt. apply Qmult_lt_r; [exact P|]. rewrite <- Zlt_Qlt. exact L.
    + rewrite <- Qgt_alt. apply Qmult_lt_r; [exact P|]. rewrite <- Zlt_Qlt. exact G.
  - rewrite <- Qlt_alt. apply magnitude_lt; assumption.
  - rewrite <- Qgt_alt. apply magnitude_lt; assumption.
Qed.

Lemma Qle_bool_compare (a b : Q) :
  Qle_bool a b = match Qcompare a b with Gt => false | _ => true end.
Proof.
  destruct (Qcompare a b) eqn:E.
  - apply Qle_bool_iff. rewrite <- Qeq_alt in E. rewrite E. apply Qle_refl.
  - apply Qle_bool_iff. rewrite <- Qlt_alt in E. apply Qlt_le_weak. exact E.
  - rewrite <- Qgt_alt in E. destruct (Qle_bool a b) eqn:L; [|reflexivity].
    apply Qle_bool_iff in L. exfalso. apply (Qlt_irrefl a).
    apply Qle_lt_trans with b; assumption.
Qed.

Lemma Qle_bool_red (a b : Q) : Qle_bool (Qred a) (Qred b) = Qle_bool a b.
Proof.
  destruct (Qle_bool a b) eqn:E.
  - apply Qle_bool_iff. rewrite !Qred_correct. apply Qle_bool_iff. exact E.
  - destruct (Qle_bool (Qred a) (Qred b)) eqn:E'; [|reflexivity].
    apply Qle_bool_iff in E'. rewrite !Qred_correct in E'.
    apply Qle_bool_iff in E'. congruence.
Qed.

Lemma magnitude_pos (m : positive) (e : Z) : 0 < inject_Z (Z.pos m) * 2 ^ e.
Proof.
  apply Qmult_lt_0_compat; [|apply two_power_pos].
  change 0 with (inject_Z 0). rewrite <- Zlt_Qlt. lia.
Qed.

Lemma Qcompare_opp (a b : Q) : Qcompare (- a) (- b) = CompOpp (Qcompare a b).
Proof.
  destruct (Qcompare a b) eqn:E; cbn [CompOpp].
  - rewrite <- Qeq_alt in *. rewrite E. reflexivity.
  - rewrite <- Qlt_alt in E. rewrite <- Qgt_alt. apply Qopp_lt_compat. exact E.
  - rewrite <- Qgt_alt in E. rewrite <- Qlt_alt. apply Qopp_lt_compat. exact E.
Qed.

Lemma num_le_fin (a b : Q) : num_le (fin a) (fin b) = Qle_bool a b.
Proof. unfold fin, num_le. apply Qle_bool_red. Qed.

(** The comparison of doubles is the comparison of their values. *)
Lemma SFleb_value (x y : spec_float) :
  valid_binary x = true -> valid_binary y = true ->
  SFleb x y = num_le (value_of x) (value_of y).
Proof.
  intros Hx Hy.
  destruct x as [sx|sx| |sx mx ex]; destruct y as [sy|sy| |sy my ey];
    try reflexivity;
    try (destruct sx; reflexivity); try (destruct sy; reflexivity);
    try (destruct sx, sy; reflexivity).
  - (* zero, finite *)
    cbn [value_of]. change (Fin 0) with (fin 0). rewrite num_le_fin.
    unfold SFleb, SFcompare.
    pose proof (magnitude_pos my ey) as P.
    destruct sy.
    + destruct (Qle_bool 0 (- inject_Z (Z.pos my) * 2 ^ ey)) eqn:E; [|reflexivity].
      apply Qle_bool_iff in E. lra.
    + symmetry. apply Qle_bool_iff. lra.
  - (* finite, zero *)
    cbn [value_of]. change (Fin 0) with (fin 0). rewrite num_le_fin.
    unfold SFleb, SFcompare.
    pose proof (magnitude_pos mx ex) as P.
    destruct sx.
    + symmetry. apply Qle_bool_iff. lra.
    + destruct (Qle_bool (inject_Z (Z.pos mx) * 2 ^ ex) 0) eqn:E; [|reflexivity].
      apply Qle_bool_iff in E. lra.
  - (* finite, finite *)
    cbn [valid_binary] in Hx, Hy.
    cbn [value_of]. rewrite num_le_fin. unfold SFleb, SFcompare.
    pose proof (magnitude_pos mx ex) as Px. pose proof (magnitude_pos my ey) as Py.
    destruct sx, sy.
    + pose proof (magnitude_compare mx my ex ey Hx Hy) as Hc.
      rewrite Qle_bool_compare.
      assert (- inject_Z (Z.pos mx) * 2 ^ ex == - (inject_Z (Z.pos mx) * 2 ^ ex)) as -> by ring.
      assert (- inject_Z (Z.pos my) * 2 ^ ey == - (inject_Z (Z.pos my) * 2 ^ ey)) as -> by ring.
      rewrite Qcompare_opp, <- Hc.
      destruct (ex ?= ey)%Z; [destruct (Pos.compare_cont Eq mx my)| |]; reflexivity.
    + symmetry. apply Qle_bool_iff. lra.
    + destruct (Qle_bool _ _) eqn:E; [|reflexivity]. apply Qle_bool_iff in E. lra.
    + rewrite (magnitude_compare mx my ex ey Hx Hy), Qle_bool_compare.
      destruct (Qcompare (inject_Z (Z.pos mx) * 2 ^ ex) (inject_Z (Z.pos my) * 2 ^ ey));
        reflexivity.
Qed.

Lemma value_of_abs (x : spec_float) : value_of (SFabs x) = Math_abs (value_of x).
Proof.
  destruct x as [s|s| |s m e]; try reflexivity; [destruct s; reflexivity|].
  cbn [SFabs value_of Math_abs]. apply fin_eq.
  pose proof (magnitude_pos m e) as P. rewrite Qred_correct.
  destruct s.
  - assert (- inject_Z (Z.pos m) * 2 ^ e == - (inject_Z (Z.pos m) * 2 ^ e)) as -> by ring.
    rewrite Qabs_opp. symmetry. apply Qabs_pos. lra.
  - symmetry. apply Qabs_pos. lra.
Qed.

Lemma leb_value (x y : PrimFloat.float) :
  PrimFloat.leb x y = num_le (value64 x) (value64 y).
Proof.
  rewrite leb_spec. apply SFleb_value; apply Prim2SF_valid.
Qed.

Lemma value64_abs (x : PrimFloat.float) : value64 (PrimFloat.abs x) = Math_abs (value64 x).
Proof. unfold value64. rewrite abs_spec. apply value_of_abs. Qed.

(** ** The check on doubles *)

Lemma value_of_zero (x : spec_float) :
  value_of x = Fin 0 -> exists s, x = S754_zero s.
Proof.
  destruct x as [s|s| |s m e]; intros H.
  - exists s. reflexivity.
  - destruct s; discriminate H.
  - discriminate H.
  - exfalso. cbn [value_of] in H. unfold fin in H.
    remember ((if s then - inject_Z (Z.pos m) else inject_Z (Z.pos m)) * 2 ^ e) as q eqn:Eq.
    assert (Qred q = 0) as H' by congruence.
    assert (q == 0) as E by (rewrite <- Qred_correct, H'; reflexivity).
    subst q.
    pose proof (magnitude_pos m e) as P. destruct s; lra.
Qed.

Lemma isWithinTolerance64_SF (a e t : PrimFloat.float) :
  isWithinTolerance64 (Some a) e t
  = SFleb (SFabs (SF64sub (Prim2SF a) (Prim2SF e))) (SF64mul (SFabs (Prim2SF e)) (Prim2SF t)).
Proof.
  unfold isWithinTolerance64. rewrite leb_spec, abs_spec, sub_spec, mul_spec, abs_spec.
  reflexivity.
Qed.

(** C5, as the arithmetic of the code has it. The Correctness Checker
    returns false on a null value. Otherwise it compares, exactly and with
    the boundary included, the magnitude of the double that the subtraction
    actual - expected returns with the double that the multiplication
    |expected| * tolerance returns, and is false when one of them is NaN.
    With expected value 0 only a value equal to 0 passes, and it does under
    every finite ratio. check(5.1, 5.0, 0.05) is true and check(5.3, 5.0,
    0.05) is false. *)
Theorem isWithinTolerance_on_binary64 :
  (forall e t, isWithinTolerance64 None e t = false)
  /\ (forall a e t,
        isWithinTolerance64 (Some a) e t
        = num_le (Math_abs (value64 (a - e))) (value64 (PrimFloat.abs e * t)))
  /\ (forall a e t,
        value64 e = Fin 0 ->
        isWithinTolerance64 (Some a) e t = true -> value64 a = Fin 0)
  /\ (forall a e t,
        value64 e = Fin 0 -> value64 a = Fin 0 -> is_finite (value64 t) = true ->
        isWithinTolerance64 (Some a) e t = true)
  /\ isWithinTolerance64 (Some 5.1%float) 5%float 0.05%float = true
  /\ isWithinTolerance64 (Some 5.3%float) 5%float 0.05%float = false.
Proof.
  split; [reflexivity|].
  split.
  { intros a e t. unfold isWithinTolerance64.
    rewrite leb_value, value64_abs. reflexivity. }
  split.
  { intros a e t He H. rewrite isWithinTolerance64_SF in H.
    unfold value64 in *. apply value_of_zero in He. destruct He as [se He].
    rewrite He in H.
    destruct (Prim2SF a) as [sa|sa| |sa ma ea]; [reflexivity| | |];
      destruct (Prim2SF t) as [st|st| |st mt et]; try destruct sa; try destruct se;
        discriminate H. }
  split.
  { intros a e t He Ha Ht. rewrite isWithinTolerance64_SF.
    unfold value64 in *. apply value_of_zero in He, Ha.
    destruct He as [se ->]. destruct Ha as [sa ->].
    destruct (Prim2SF t) as [st|st| |st mt et]; try discriminate Ht;
      try (destruct st; discriminate Ht); destruct sa, se; reflexivity. }
  split; vm_compute; reflexivity.
Qed.

(** The inequality |actual - expected| <= |expected| * tolerance over the
    numbers themselves does not decide the check: 3 times the double nearest
    to one third is less than 1, but rounds to 1, so a value at distance 1
    passes. *)
Lemma exact_inequality_fails_on_binary64 :
  isWithinTolerance64 (Some 4%float) 3%float 0.3333333333333333%float = true
  /\ exists a e t,
       value64 4%float = Fin a /\ value64 3%float = Fin e
       /\ value64 0.3333333333333333%float = Fin t
       /\ ~ Qabs (a - e) <= Qabs e * t.
Proof.
  split; [vm_compute; reflexivity|].
  eexists; eexists; eexists.
  split; [vm_compute; reflexivity|].
  split; [vm_compute; reflexivity|].
  split; [vm_compute; reflexivity|].
  vm_compute. intros H. apply H. reflexivity.
Qed.

(** The boundary is that of the values the doubles have: the double nearest
    to 1.1 exceeds 1 by more than the double nearest to 0.1, so the check
    that passes on the decimal values fails on binary64. *)
Remark boundary_on_binary64 :
  isWithinTolerance (Some (Fin (11 # 10))) (Fin 1) (Fin (1 # 10)) = true
  /\ isWithinTolerance64 (Some 1.1%float) 1%float 0.1%float = false.
Proof. split; vm_compute; reflexivity. Qed.

(** On the doubles of the catalog the texts of a dry run score as on the
    numbers: the expected value passes, and 1.25 times it rounded to three
    decimals fails. *)
Remark dry_answers_on_binary64 :
  isWithinTolerance64 (Some 5%float) 5%float 0.05%float = true
  /\ isWithinTolerance64 (Some 6.25%float) 5%float 0.05%float = false
  /\ isWithinTolerance64 (Some 1.2e-5%float) 1.2e-5%float 0.1%float = true
  /\ isWithinTolerance64 (Some 0%float) 1.2e-5%float 0.1%float = false
  /\ isWithinTolerance64 (Some 1728.5%float) 1728.5%float 0.05%float = true
  /\ isWithinTolerance64 (Some 2160.625%float) 1728.5%float 0.05%float = false.
Proof. repeat split; vm_compute; reflexivity. Qed.

(* ================================================================== *)
(** * Instances

    Each statement above that has a hypothesis, applied to concrete data on
    which the hypothesis holds. *)
(* ================================================================== *)

Lemma missing_key_witness :
  OPENAI_API_KEY test_env = []
  /\ exists rows w',
       runTrials test_env "linear" 2 false "gpt-4o-mini" start_world = (Ok rows, w')
       /\ List.length rows = (List.length problems * 2)%nat
       /\ fetch_calls w' = fetch_calls start_world
       /\ Forall (fun row => numeric_answer row = None /\ r_correct row = false) rows.
Proof.
  split; [reflexivity|].
  apply (missing_key_is_recorded_per_trial test_env "linear" "gpt-4o-mini" 2 start_world).
  reflexivity.
Defined.

Lemma groups_by_pair_witness :
  Forall separator_safe catalog_rows /\ groups_by_pair catalog_rows.
Proof.
  assert (Forall separator_safe catalog_rows) as H.
  { repeat (apply Forall_cons; [vm_compute; reflexivity|]). apply Forall_nil. }
  split; [exact H|].
  apply (aggregate_groups_by_pair catalog_rows). exact H.
Defined.

Lemma live_failures_witness :
  OPENAI_API_KEY keyed_env <> []
  /\ (forall e, live_text (OPENAI_API_KEY keyed_env) (Rejected e) = error_text e)
  /\ exists rows w',
       runTrials keyed_env "linear" 2 false "gpt-4o-mini" start_world = (Ok rows, w')
       /\ List.length rows = (List.length problems * 2)%nat
       /\ fetch_calls w' = (fetch_calls start_world + List.length rows)%nat
       /\ forall j row, nth_error rows j = Some row ->
            scored_from keyed_env "linear" "gpt-4o-mini" (fetch_calls start_world + j) row.
Proof.
  assert (OPENAI_API_KEY keyed_env <> []) as H by discriminate.
  split; [exact H|].
  apply (live_failures_are_recorded keyed_env "linear" "gpt-4o-mini" 2 start_world H).
Defined.

Lemma synthesized_latency_witness :
  inherited "mechanics_a" = false
  /\ inherited "linear" = false
  /\ randn_value test_env start_world <> NaN
  /\ exists s w',
       synthesizeTrial test_env "mechanics_a" "linear" start_world = (Ok s, w')
       /\ num_le (Fin 5) (timeSec s) = true
       /\ round (timeSec s) (Fin 2) = timeSec s.
Proof.
  assert (randn_value test_env start_world <> NaN) as H by (vm_compute; discriminate).
  split; [reflexivity|]. split; [reflexivity|]. split; [exact H|].
  apply (synthesized_latency_floor test_env "mechanics_a" "linear" start_world
           eq_refl eq_refl H).
Defined.

Lemma aggregate_additive_witness :
  let A := [mk_row "mechanics_a" "linear" (Fin 21) true] in
  let B := [mk_row "mechanics_a" "linear" (Fin 19) false;
            mk_row "mechanics_a" "linear" (Fin 23) true] in
  (forall r, In r (A ++ B) ->
     problem_id r = lit "mechanics_a" /\ representation r = lit "linear")
  /\ (List.length (aggregate (A ++ B)) <= 1)%nat
  /\ total_trials (aggregate (A ++ B))
     = (total_trials (aggregate A) + total_trials (aggregate B))%nat
  /\ total_trials (aggregate A) = List.length A
  /\ total_trials (aggregate B) = List.length B.
Proof.
  intros A B.
  assert (forall r, In r (A ++ B) ->
            problem_id r = lit "mechanics_a" /\ representation r = lit "linear") as H.
  { intros r [<-|[<-|[<-|[]]]]; split; reflexivity. }
  split; [exact H|].
  exact (proj2 aggregate_idempotent_additive "mechanics_a" "linear" A B H).
Defined.

Lemma aggregate_total_witness :
  Forall (fun r => is_finite (latency_sec r) = true) catalog_rows
  /\ Forall (fun a =>
               (1 <= trials a)%nat
               /\ is_finite (error_rate a) = true
               /\ is_finite (mean_latency_sec a) = true)
       (aggregate catalog_rows).
Proof.
  assert (Forall (fun r => is_finite (latency_sec r) = true) catalog_rows) as H.
  { repeat (apply Forall_cons; [reflexivity|]). apply Forall_nil. }
  split; [exact H|].
  apply Forall_forall. intros a Ha.
  destruct (proj2 aggregate_total catalog_rows a Ha) as [H1 [H2 H3]].
  split; [exact H1|]. split; [exact H2|]. apply H3. exact H.
Defined.

Lemma extract_sample_line_witness :
  find is_final_answer_line (lines sample_text) = Some sample_line
  /\ extractFinalNumeric sample_text = Some (Fin (2469 # 2)).
Proof.
  assert (find is_final_answer_line (lines sample_text) = Some sample_line) as H
    by (vm_compute; reflexivity).
  split; [exact H|].
  exact (proj1 (proj2 extractFinalNumeric_algorithm) sample_text H).
Defined.

(* ================================================================== *)
(** * Rounding to decimals *)
(* ================================================================== *)

(** ** Rounding to any number of decimals *)

Lemma Qred_inject_Z (z : Z) : Qred (inject_Z z) = inject_Z z.
Proof.
  unfold Qred, inject_Z.
  pose proof (Z.ggcd_gcd z 1) as Hg. pose proof (Z.ggcd_correct_divisors z 1) as Hd.
  destruct (Z.ggcd z 1) as [g [a b]]. cbn [fst snd] in *.
  rewrite Z.gcd_1_r in Hg. subst g. destruct Hd as [Ha Hb].
  assert (a = z) as -> by lia. assert (b = 1%Z) as -> by lia. reflexivity.
Qed.

Lemma is_integer_inject_Z (z : Z) : is_integer (inject_Z z) = true.
Proof. unfold is_integer. rewrite Qred_inject_Z. reflexivity. Qed.

Lemma scale_pos (d : nat) : 0 < scale d.
Proof.
  unfold scale. rewrite Qred_correct. apply Qpower_0_lt. reflexivity.
Qed.

Lemma Qsign_scale (d : nat) : Qsign (scale d) = Gt.
Proof. apply Qsign_pos, scale_pos. Qed.

Lemma Math_pow_10 (d : nat) : Math_pow (Fin 10) (of_nat d) = Fin (scale d).
Proof.
  unfold Math_pow, of_nat, of_Z. rewrite is_integer_inject_Z, Qfloor_Z. reflexivity.
Qed.

Lemma round_Fin (q : Q) (d : nat) :
  round (Fin q) (of_nat d) = fin (inject_Z (units_of q d) / scale d).
Proof.
  unfold round. rewrite Math_pow_10.
  change (num_mul (Fin q) (Fin (scale d))) with (fin (q * scale d)).
  unfold fin at 1. cbn [Math_round]. unfold of_Z, num_div.
  rewrite Qsign_scale. reflexivity.
Qed.

Lemma round_monotone (a b : Q) (d : nat) :
  a <= b -> num_le (round (Fin a) (of_nat d)) (round (Fin b) (of_nat d)) = true.
Proof.
  intros H. rewrite !round_Fin. unfold fin, num_le.
  apply Qle_bool_iff. rewrite !Qred_correct.
  pose proof (scale_pos d) as Hp.
  assert (units_of a d <= units_of b d)%Z as Hk.
  { unfold units_of. apply Qfloor_resp_le. rewrite !Qred_correct.
    apply Qplus_le_l. apply Qmult_le_compat_r; [assumption|lra]. }
  rewrite Zle_Qle in Hk.
  apply Qmult_le_r with (z := scale d); [assumption|].
  field_simplify; [|lra|lra]. lra.
Qed.

(* ================================================================== *)
(** * Values that pass the check *)
(* ================================================================== *)

(** ** What passes the check on doubles *)

Lemma value_of_nan (x : spec_float) : value_of x = NaN -> x = S754_nan.
Proof.
  destruct x as [s|s| |s m e]; intros H; try reflexivity; try discriminate H.
  destruct s; discriminate H.
Qed.

Lemma SFleb_nan_r (x : spec_float) : SFleb x S754_nan = false.
Proof. destruct x; reflexivity. Qed.

(** X4. On doubles, a value that passes the check is not NaN, nor are the
    expected value and the ratio it passed against; and against a finite
    expected value a value that is not finite passes only when the product
    |expected| * tolerance is +Infinity. *)
Theorem only_numbers_pass (a e t : PrimFloat.float) :
  isWithinTolerance64 (Some a) e t = true ->
  value64 a <> NaN /\ value64 e <> NaN /\ value64 t <> NaN
  /\ (is_finite (value64 e) = true -> is_finite (value64 a) = false ->
      value64 (PrimFloat.abs e * t) = PInf).
Proof.
  intros H. pose proof H as H0. rewrite isWithinTolerance64_SF in H.
  unfold value64. rewrite mul_spec, abs_spec.
  remember (Prim2SF a) as x eqn:Ex. remember (Prim2SF e) as y eqn:Ey.
  remember (Prim2SF t) as z eqn:Ez. clear Ex Ey Ez H0.
  split; [|split; [|split]].
  - intros C. apply value_of_nan in C. subst x. discriminate H.
  - intros C. apply value_of_nan in C. subst y. destruct x; discriminate H.
  - intros C. apply value_of_nan in C. subst z.
    assert (SF64mul (SFabs y) S754_nan = S754_nan) as E by (destruct y; reflexivity).
    rewrite E, SFleb_nan_r in H. discriminate H.
  - intros Hy Hx.
    remember (SF64mul (SFabs y) z) as p eqn:Ep. clear Ep.
    assert (exists sx, x = S754_infinity sx) as [sx ->].
    { destruct x as [sx|sx| |sx mx ex]; try discriminate Hx; try discriminate H.
      exists sx. reflexivity. }
    assert (SF64sub (S754_infinity sx) y = S754_infinity sx) as E.
    { destruct y as [sy|sy| |sy my ey]; try discriminate Hy;
        try (destruct sy; discriminate Hy); reflexivity. }
    rewrite E in H. cbn [SFabs] in H.
    destruct p as [[|]|[|]| |[|] m0 e0]; try discriminate H. reflexivity.
Qed.

(** ** The expected value itself *)

Lemma iter_pos_invariant {A} (P : A -> Prop) (f : A -> A) :
  (forall x, P x -> P (f x)) -> forall n x, P x -> P (iter_pos f n x).
Proof.
  intros Hf. induction n as [n IH|n IH|]; intros x Hx; cbn [iter_pos].
  - apply IH, IH, Hf, Hx.
  - apply IH, IH, Hx.
  - apply Hf, Hx.
Qed.

Lemma shr_1_nonneg (mrs : shr_record) : (0 <= shr_m mrs)%Z -> (0 <= shr_m (shr_1 mrs))%Z.
Proof.
  destruct mrs as [m r s]. cbn [shr_m]. intros H.
  destruct m as [|p|p]; [cbn; lia| |lia].
  destruct p; cbn; lia.
Qed.

Lemma shr_fexp_nonneg (m e : Z) (l : location) :
  (0 <= m)%Z -> (0 <= shr_m (fst (shr_fexp prec emax m e l)))%Z.
Proof.
  intros H. unfold shr_fexp, shr.
  assert (0 <= shr_m (shr_record_of_loc m l))%Z as H0
    by (destruct l as [|[ | | ]]; exact H).
  destruct (fexp prec emax (Zdigits2 m + e) - e)%Z as [|p|p]; cbn [fst]; try exact H0.
  apply (iter_pos_invariant (fun mrs => (0 <= shr_m mrs)%Z)); [exact shr_1_nonneg|exact H0].
Qed.

Lemma round_nearest_even_nonneg (m : Z) (l : location) :
  (0 <= m)%Z -> (0 <= round_nearest_even m l)%Z.
Proof.
  intros H. destruct l as [|[ | | ]]; cbn [round_nearest_even]; try lia.
  destruct (Z.even m); lia.
Qed.

(** The rounding of a positive quantity is a zero, a positive finite double
    or +Infinity. *)
Lemma binary_round_aux_nonneg (m : positive) (e : Z) :
  SFleb (S754_zero false) (binary_round_aux prec emax false (Z.pos m) e loc_Exact) = true.
Proof.
  unfold binary_round_aux.
  pose proof (shr_fexp_nonneg (Z.pos m) e loc_Exact ltac:(lia)) as H1.
  destruct (shr_fexp prec emax (Z.pos m) e loc_Exact) as [mrs' e'].
  cbn [fst] in H1.
  pose proof (round_nearest_even_nonneg (shr_m mrs') (loc_of_shr_record mrs') H1) as H2.
  pose proof (shr_fexp_nonneg _ e' loc_Exact H2) as H3.
  destruct (shr_fexp prec emax (round_nearest_even (shr_m mrs') (loc_of_shr_record mrs'))
              e' loc_Exact) as [mrs'' e''].
  cbn [fst] in H3.
  destruct (shr_m mrs'') as [|p|p]; [reflexivity| |lia].
  destruct (e'' <=? emax - prec)%Z; reflexivity.
Qed.

Lemma SFsub_diag (s : bool) (m : positive) (e : Z) :
  SF64sub (S754_finite s m e) (S754_finite s m e) = S754_zero false.
Proof.
  unfold SF64sub, SFsub. rewrite Z.sub_diag. reflexivity.
Qed.

(** X3. On doubles, the expected value itself passes the check under every
    finite tolerance ratio that is not negative, whenever the expected value
    is finite. *)
Theorem expected_value_passes (e t : PrimFloat.float) (q : Q) :
  is_finite (value64 e) = true -> value64 t = Fin q -> 0 <= q ->
  isWithinTolerance64 (Some e) e t = true.
Proof.
  intros He Ht Hq. rewrite isWithinTolerance64_SF. unfold value64 in *.
  destruct (Prim2SF e) as [se|se| |se me ee]; try discriminate He;
    try (destruct se; discriminate He).
  - destruct (Prim2SF t) as [st|st| |st mt et]; try discriminate Ht;
      try (destruct st; discriminate Ht); destruct se; reflexivity.
  - rewrite SFsub_diag. cbn [SFabs].
    destruct (Prim2SF t) as [st|st| |st mt et]; try discriminate Ht;
      try (destruct st; discriminate Ht); [reflexivity|].
    destruct st.
    + exfalso. cbn [value_of] in Ht. unfold fin in Ht.
      remember (- inject_Z (Z.pos mt) * 2 ^ et) as v eqn:Ev.
      assert (Qred v = q) as E by congruence.
      assert (v == q) as E' by (rewrite <- E; symmetry; apply Qred_correct).
      subst v. pose proof (magnitude_pos mt et). lra.
    + apply binary_round_aux_nonneg.
Qed.

(* ================================================================== *)
(** * The scope of the answer extractor *)
(* ================================================================== *)

(** ** What the extractor reads *)

Lemma run_of_head (p : code_unit -> bool) (c : code_unit) (s : jsstring) :
  run_of p (c :: s) = None <-> p c = false.
Proof.
  unfold run_of. rewrite span_cons. destruct (p c); split; intros H;
    try discriminate H; reflexivity.
Qed.

Lemma minus_not_digit (c : code_unit) : is_char "-" c = true -> is_digit c = false.
Proof.
  intros H. apply sign_not_digit. change (is_char_ci "-" c) with (is_char "-" c).
  rewrite H. apply orb_true_r.
Qed.

Lemma unsigned_length_head (c : code_unit) (s : jsstring) :
  unsigned_length (c :: s) = None <-> is_digit c = false.
Proof.
  unfold unsigned_length. rewrite <- run_of_head with (s := s).
  destruct (run_of is_digit (c :: s)) as [[n s1]|].
  - destruct (fraction_of s1). split; discriminate.
  - split; reflexivity.
Qed.

Lemma first_number_none (s : jsstring) : first_number s = None <-> has_digit s = false.
Proof.
  induction s as [|c s IH]; [split; reflexivity|].
  cbn [first_number has_digit existsb]. fold (has_digit s).
  destruct (is_digit c) eqn:Ec.
  - assert (number_length (c :: s) <> None) as Hn.
    { unfold number_length. destruct (is_char "-" c) eqn:Em.
      - apply minus_not_digit in Em. congruence.
      - intros C. apply (proj1 (unsigned_length_head c s)) in C. congruence. }
    destruct (number_length (c :: s)); [split; discriminate|congruence].
  - cbn [orb]. destruct (number_length (c :: s)) as [n|] eqn:En; [|exact IH].
    split; [discriminate|]. intros Hs. exfalso.
    unfold number_length in En. destruct (is_char "-" c).
    + destruct s as [|d s]; [discriminate En|].
      destruct (unsigned_length (d :: s)) eqn:Eu; [|discriminate En].
      assert (is_digit d = true) as Hd.
      { destruct (is_digit d) eqn:Ed; [reflexivity|].
        apply (proj2 (unsigned_length_head d s)) in Ed. congruence. }
      cbn [has_digit existsb] in Hs. rewrite Hd in Hs. discriminate Hs.
    + assert (unsigned_length (c :: s) = None) as C
        by (apply (proj2 (unsigned_length_head c s)); exact Ec).
      congruence.
Qed.

Lemma has_digit_filter (f : code_unit -> bool) (s : jsstring) :
  has_digit s = false -> has_digit (filter f s) = false.
Proof.
  unfold has_digit. induction s as [|c s IH]; [reflexivity|].
  cbn [existsb filter]. intros H. apply orb_false_iff in H. destruct H as [Hc Hs].
  destruct (f c); cbn [existsb]; [rewrite Hc|]; auto.
Qed.

Lemma has_digit_app (a b : jsstring) : has_digit (a ++ b) = has_digit a || has_digit b.
Proof. apply existsb_app. Qed.

Lemma has_digit_false (s : jsstring) :
  has_digit s = false <-> forall c, In c s -> is_digit c = false.
Proof.
  unfold has_digit. induction s as [|d s IH]; cbn [existsb].
  - split; [intros _ c []|reflexivity].
  - rewrite orb_false_iff, IH. split.
    + intros [Hd Hs] c [<-|Hc]; auto.
    + intros H. split; [apply H; left; reflexivity|].
      intros c Hc. apply H. right. exact Hc.
Qed.

(** The characters of a line are characters of the text, and none of them
    is a line feed. *)
Lemma lines_from_chars (n : nat) :
  forall s piece l,
    (List.length s <= n)%nat ->
    In l (lines_from piece s) ->
    (forall c, In c l -> In c (piece ++ s))
    /\ (~ In 10%N piece -> ~ In 10%N l).
Proof.
  induction n as [|n IH]; intros s piece l Hlen Hl.
  - destruct s; [|simpl in Hlen; lia]. destruct Hl as [<-|[]].
    rewrite app_nil_r. split; auto.
  - destruct s as [|c s].
    { destruct Hl as [<-|[]]. rewrite app_nil_r. split; auto. }
    simpl in Hlen. cbn [lines_from] in Hl.
    destruct (N.eqb_spec c 10) as [->|Hc].
    + destruct Hl as [<-|Hl].
      * split; [intros x Hx; apply in_or_app; left; exact Hx|auto].
      * destruct (IH s [] l ltac:(lia) Hl) as [H1 H2]. split.
        -- intros x Hx. apply in_or_app. right. right. apply (H1 x Hx).
        -- intros _. apply H2. intros [].
    + assert (In l (lines_from (piece ++ [c]) s) ->
              (forall x, In x l -> In x (piece ++ c :: s))
              /\ (~ In 10%N piece -> ~ In 10%N l)) as Hkeep.
      { intros H0. destruct (IH s (piece ++ [c]) l ltac:(lia) H0) as [H1 H2]. split.
        - intros x Hx. specialize (H1 x Hx). rewrite <- app_assoc in H1. exact H1.
        - intros Hp. apply H2. intros C. apply in_app_or in C.
          destruct C as [C|[C|[]]]; [auto|congruence]. }
      destruct s as [|d s]; [apply Hkeep; exact Hl|].
      destruct ((c =? 13) && (d =? 10))%N; [|apply Hkeep; exact Hl].
      destruct Hl as [<-|Hl].
      * split; [intros x Hx; apply in_or_app; left; exact Hx|auto].
      * simpl in Hlen. destruct (IH s [] l ltac:(lia) Hl) as [H1 H2]. split.
        -- intros x Hx. apply in_or_app. right. right. right. apply (H1 x Hx).
        -- intros _. apply H2. intros [].
Qed.

Lemma lines_chars (text l : jsstring) :
  In l (lines text) ->
  (forall c, In c l -> In c text) /\ ~ In 10%N l.
Proof.
  intros Hl. destruct (lines_from_chars (List.length text) text [] l (le_n _) Hl) as [H1 H2].
  split; [exact H1|apply H2; intros []].
Qed.

(** A text without a line feed is its own single line. *)
Lemma lines_from_single (s : jsstring) :
  forall piece, ~ In 10%N s -> lines_from piece s = [piece ++ s].
Proof.
  induction s as [|c s IH]; intros piece Hs.
  - cbn [lines_from]. rewrite app_nil_r. reflexivity.
  - cbn [lines_from].
    destruct (N.eqb_spec c 10) as [->|Hc]; [exfalso; apply Hs; left; reflexivity|].
    assert (lines_from (piece ++ [c]) s = [piece ++ c :: s]) as Hkeep.
    { rewrite IH by (intros C; apply Hs; right; exact C).
      rewrite <- app_assoc. reflexivity. }
    destruct s as [|d s]; [exact Hkeep|].
    destruct (N.eqb_spec d 10) as [->|Hd];
      [exfalso; apply Hs; right; left; reflexivity|].
    rewrite andb_false_r. exact Hkeep.
Qed.

Lemma extract_spec_scope (text line : jsstring) :
  find is_final_answer_line (lines text) = Some line ->
  extract_spec text = extract_spec line.
Proof.
  intros H. pose proof (find_some _ _ H) as [Hin Hfa].
  destruct (lines_chars text line Hin) as [_ Hlf].
  unfold extract_spec at 2. unfold lines. rewrite lines_from_single by exact Hlf.
  cbn [app find]. rewrite Hfa. unfold extract_spec. rewrite H. reflexivity.
Qed.

(** X5. When a response has a line starting with Final Answer:, the Answer
    Extractor reads the first such line and nothing else: its result is its
    result on that line alone, and it is null when that line holds no
    digit, whatever numbers the other lines hold. *)
Theorem extractor_reads_the_final_line :
  (forall text line,
      find is_final_answer_line (lines text) = Some line ->
      extractFinalNumeric text = extractFinalNumeric line)
  /\ (forall text line,
        find is_final_answer_line (lines text) = Some line ->
        has_digit line = false -> extractFinalNumeric text = None).
Proof.
  split.
  - intros text line H. rewrite !extractFinalNumeric_refines.
    apply extract_spec_scope. exact H.
  - intros text line H Hd. rewrite extractFinalNumeric_refines. unfold extract_spec.
    rewrite H. unfold strip_commas.
    rewrite (proj2 (first_number_none _) (has_digit_filter _ _ Hd)). reflexivity.
Qed.

(** X6. The Answer Extractor never returns NaN or an infinity; it returns
    null on a text without a digit; and on a text with a digit and no Final
    Answer line it reads the first number of the whole text, commas
    removed. *)
Theorem extractor_result_is_finite :
  (forall text v, extractFinalNumeric text = Some v -> is_finite v = true)
  /\ (forall text, has_digit text = false -> extractFinalNumeric text = None)
  /\ (forall text,
        find is_final_answer_line (lines text) = None ->
        has_digit text = true ->
        exists m, first_number (strip_commas text) = Some m
                  /\ extractFinalNumeric text = finite_value m).
Proof.
  split; [|split].
  - intros text v. rewrite extractFinalNumeric_refines. unfold extract_spec.
    destruct (first_number _) as [m|]; [|discriminate].
    unfold finite_value. destruct (is_finite (Number_of_string m)) eqn:E; [|discriminate].
    intros [= <-]. exact E.
  - intros text Hd. rewrite extractFinalNumeric_refines. unfold extract_spec.
    assert (has_digit
              match find is_final_answer_line (lines text) with
              | Some line => line
              | None => text
              end = false) as Hscope.
    { destruct (find is_final_answer_line (lines text)) as [line|] eqn:E; [|exact Hd].
      apply find_some in E. destruct E as [Hin _].
      apply has_digit_false. intros c Hc.
      apply (proj1 (has_digit_false text) Hd). apply (proj1 (lines_chars _ _ Hin)). exact Hc. }
    unfold strip_commas.
    rewrite (proj2 (first_number_none _) (has_digit_filter _ _ Hscope)). reflexivity.
  - intros text Hnone Hd. rewrite extractFinalNumeric_refines. unfold extract_spec.
    rewrite Hnone.
    destruct (first_number (strip_commas text)) as [m|] eqn:E; [eauto|].
    exfalso. apply (proj1 (first_number_none _)) in E.
    rewrite has_digit_false in E.
    unfold has_digit in Hd. apply existsb_exists in Hd. destruct Hd as [c [Hc Ec]].
    assert (In c (strip_commas text)) as Hin.
    { unfold strip_commas. apply filter_In. split; [exact Hc|].
      unfold is_digit, is_char, cu in *. change (N_of_ascii ",") with 44%N.
      destruct (N.eqb_spec c 44) as [->|]; [discriminate Ec|reflexivity]. }
    specialize (E c Hin). congruence.
Qed.

(* ================================================================== *)
(** * The service call and the shape of a run *)
(* ================================================================== *)

(** ** The service call *)

(** X7. callOpenAIChat without a key throws Missing OPENAI_API_KEY and
    sends nothing; with a key it sends exactly one request, whatever
    follows; and it returns a text only when the service answered with an
    ok status and a body that parsed, the text being the content of the
    first choice, or the empty string in its absence. *)
Theorem callOpenAIChat_outcomes (env : Env) (model prompt : jsstring) (w : World) :
  (OPENAI_API_KEY env = [] ->
   callOpenAIChat env model prompt w = (Throw (new_Error "Missing OPENAI_API_KEY"), w))
  /\ (OPENAI_API_KEY env <> [] -> snd (callOpenAIChat env model prompt w) = called w)
  /\ (forall text w',
        callOpenAIChat env model prompt w = (Ok text, w') ->
        exists res content,
          fetch env (fetch_calls w) model prompt = Responded res
          /\ res_ok res = true
          /\ res_content res = inr content
          /\ text = or_string content []).
Proof.
  unfold callOpenAIChat. destruct (OPENAI_API_KEY env) as [|c key] eqn:Ek.
  - split; [reflexivity|]. split; [congruence|]. intros text w' H. discriminate H.
  - split; [discriminate|]. unfold bind, do_fetch. fold (called w).
    destruct (fetch env (fetch_calls w) model prompt) as [e|res].
    + split; [reflexivity|]. intros text w' H. discriminate H.
    + destruct (res_ok res) eqn:Eok; cbn [negb].
      * destruct (res_content res) as [e|content] eqn:Ec.
        -- split; [reflexivity|]. intros text w' H. discriminate H.
        -- split; [reflexivity|]. intros text w' H. injection H as <- <-.
           exists res, content. auto.
      * destruct (res_text res); (split; [reflexivity|]); intros text w' H; discriminate H.
Qed.

(** ** The rows of a run, in order *)

Section LoopShape.

Context {B : Type} (f : TrialRecord -> B).

Lemma trials_loop_map (body : nat -> M TrialRecord) (g : nat -> B) :
  (forall i w, exists row w', body i w = (Ok row, w') /\ f row = g i) ->
  forall n from rows w,
    exists rows' w',
      trials_loop body n from rows w = (Ok rows', w')
      /\ map f rows' = map f rows ++ map g (seq from n).
Proof.
  intros Hbody. induction n as [|n IH]; intros from rows w; cbn [trials_loop seq map].
  - exists rows, w. rewrite app_nil_r. split; reflexivity.
  - destruct (Hbody from w) as [row [w1 [E Hf]]]. unfold bind. rewrite E.
    destruct (IH (S from) (rows ++ [row]) w1) as [rows' [w' [E' Hm]]].
    exists rows', w'. split; [exact E'|].
    rewrite Hm, map_app, <- app_assoc. cbn [map app]. rewrite Hf. reflexivity.
Qed.

Lemma problems_loop_map
    (body : Problem -> list TrialRecord -> M (list TrialRecord))
    (g : Problem -> list B) (ps : list Problem) :
  (forall p rows w, In p ps ->
     exists rows' w', body p rows w = (Ok rows', w') /\ map f rows' = map f rows ++ g p) ->
  forall rows w,
    exists rows' w',
      problems_loop body ps rows w = (Ok rows', w')
      /\ map f rows' = map f rows ++ flat_map g ps.
Proof.
  induction ps as [|p ps IH]; intros Hbody rows w; cbn [problems_loop flat_map].
  - exists rows, w. rewrite app_nil_r. split; reflexivity.
  - destruct (Hbody p rows w (or_introl eq_refl)) as [rows1 [w1 [E Hm]]].
    unfold bind. rewrite E.
    destruct (IH (fun q rows0 w0 Hq => Hbody q rows0 w0 (or_intror Hq)) rows1 w1)
      as [rows' [w' [E' Hm']]].
    exists rows', w'. split; [exact E'|]. rewrite Hm', Hm, <- app_assoc. reflexivity.
Qed.

End LoopShape.

Lemma runTrial_identity (env : Env) (rep model : jsstring) (dryRun : bool)
    (p : Problem) (i : nat) (w : World) :
  In p problems ->
  exists row w',
    runTrial env rep dryRun model p i w = (Ok row, w')
    /\ row_identity row = (id p, topic p, rep, (i + 1)%nat, expectedValue p, units p).
Proof.
  intros Hp. destruct dryRun.
  - destruct (runTrial_dry env rep model p i w Hp) as [s [w' [stamp [E _]]]].
    rewrite E. eexists; eexists; split; reflexivity.
  - rewrite runTrial_live. eexists; eexists; split; reflexivity.
Qed.

(** X8. In either mode and for every environment, a run returns its rows
    in catalog order and, for each problem, the trials 1 to n in order; each
    row carries the identifier, topic, expected value and units of its
    problem and the representation of the run. *)
Theorem runTrials_rows_in_order (env : Env) (rep model : jsstring) (trials : nat)
    (dryRun : bool) (w : World) :
  exists rows w',
    runTrials env rep trials dryRun model w = (Ok rows, w')
    /\ map row_identity rows = planned rep trials.
Proof.
  unfold runTrials, planned.
  destruct (problems_loop_map row_identity
              (fun problem rows => trials_loop (runTrial env rep dryRun model problem) trials 0 rows)
              (block rep trials) problems) with (rows := @nil TrialRecord) (w := w) as [rows [w' [E Hm]]].
  - intros p rows0 w0 Hp. apply trials_loop_map. intros i w1.
    apply runTrial_identity. exact Hp.
  - exists rows, w'. split; [exact E|exact Hm].
Qed.

(** ** What a run consumes *)

Lemma runTrial_dry_world (env : Env) (rep model : jsstring) (p : Problem) (i : nat) (w : World) :
  In p problems ->
  snd (runTrial env rep true model p i w) = advanced w 2 3 0.
Proof.
  intros Hp. destruct (baseline_of_catalog env p rep Hp) as [m E].
  rewrite (runTrial_dry_at env rep model p i w m E). reflexivity.
Qed.

Lemma runTrial_live_world (env : Env) (rep model : jsstring) (p : Problem) (i : nat) (w : World) :
  snd (runTrial env rep false model p i w)
  = advanced w 3 0 (match OPENAI_API_KEY env with [] => 0 | _ => 1 end).
Proof.
  rewrite runTrial_live. destruct (OPENAI_API_KEY env); apply world_eq; simpl; lia.
Qed.

(** X9. What a run of n rows consumes: a dry run reads the clock twice and
    draws three uniform numbers per row, and sends no request; a live run
    reads the clock three times per row, draws nothing, and sends one
    request per row when a key is configured and none otherwise. *)
Theorem runTrials_consumption (env : Env) (rep model : jsstring) (trials : nat)
    (dryRun : bool) (w : World) :
  let n := (List.length problems * trials)%nat in
  exists rows w',
    runTrials env rep trials dryRun model w = (Ok rows, w')
    /\ List.length rows = n
    /\ w' = if dryRun then advanced w (2 * n) (3 * n) 0
            else advanced w (3 * n) 0
                   (match OPENAI_API_KEY env with [] => 0 | _ => n end).
Proof.
  intros n.
  pose (k := match OPENAI_API_KEY env with [] => 0%nat | _ => 1%nat end).
  pose (Inv := fun (rows : list TrialRecord) (w1 : World) =>
    w1 = if dryRun then advanced w (2 * List.length rows) (3 * List.length rows) 0
         else advanced w (3 * List.length rows) 0 (k * List.length rows)).
  destruct (runTrials_inv env Inv rep trials dryRun model) with (w := w)
    as [rows [w' [E [HI L]]]].
  - intros p i rows w1 Hp HI. unfold Inv in *.
    destruct (runTrial_identity env rep model dryRun p i w1 Hp) as [row [w2 [E _]]].
    exists row, w2. split; [exact E|].
    assert (w2 = snd (runTrial env rep dryRun model p i w1)) as -> by (rewrite E; reflexivity).
    rewrite length_app; cbn [List.length]. destruct dryRun.
    + rewrite runTrial_dry_world, HI by exact Hp. apply world_eq; simpl; lia.
    + rewrite runTrial_live_world, HI. fold k. apply world_eq; simpl; lia.
  - unfold Inv. destruct dryRun; apply world_eq; simpl; lia.
  - exists rows, w'. split; [exact E|]. split; [exact L|].
    unfold Inv in HI. rewrite HI, L. fold n. destruct dryRun; [reflexivity|].
    unfold k. destruct (OPENAI_API_KEY env); apply world_eq; simpl; lia.
Qed.

(* ================================================================== *)
(** * Counting in the aggregator *)
(* ================================================================== *)

(** ** Counting the rows of the groups *)

Lemma total_trials_sum (l : list AggregateRecord) : total_trials l = list_sum (map trials l).
Proof. reflexivity. Qed.

Lemma indicator_sum (ks : list jsstring) (x : jsstring) :
  NoDup ks -> In x ks ->
  list_sum (map (fun k => if str_eqb x k then 1%nat else 0%nat) ks) = 1%nat.
Proof.
  induction 1 as [|k ks Hk Hks IH]; intros Hx; [destruct Hx|].
  cbn [map list_sum fold_right]. destruct (str_eqb x k) eqn:E.
  - apply str_eqb_eq in E. subst k. f_equal.
    clear IH Hx. induction ks as [|y ks IH]; [reflexivity|].
    cbn [map list_sum fold_right].
    assert (str_eqb x y = false) as -> by (apply str_eqb_neq; intros ->; apply Hk; left; reflexivity).
    apply IH.
    + intros C. apply Hk. right. exact C.
    + inversion Hks. assumption.
  - apply IH. destruct Hx as [->|Hx]; [|exact Hx].
    rewrite str_eqb_refl in E. discriminate E.
Qed.

Lemma list_sum_map_add {A} (f g : A -> nat) (l : list A) :
  list_sum (map (fun x => f x + g x)%nat l) = (list_sum (map f l) + list_sum (map g l))%nat.
Proof.
  unfold list_sum. induction l as [|x l IH]; [reflexivity|].
  cbn [map fold_right]. rewrite IH. lia.
Qed.

Lemma group_sizes_sum (ks : list jsstring) (rows : list TrialRecord) :
  NoDup ks -> (forall r, In r rows -> In (key r) ks) ->
  list_sum (map (fun k => List.length (rows_with_key k rows)) ks) = List.length rows.
Proof.
  intros Hnd. induction rows as [|r rows IH]; intros Hin.
  - clear Hnd Hin. induction ks as [|k ks IH]; [reflexivity|].
    unfold list_sum in *. cbn [map fold_right]. rewrite IH. reflexivity.
  - rewrite (map_ext _ (fun k => (if str_eqb (key r) k then 1 else 0)
                                 + List.length (rows_with_key k rows))%nat).
    + rewrite list_sum_map_add, indicator_sum, IH; cbn [List.length]; auto.
      * intros r0 H0. apply Hin. right. exact H0.
      * apply Hin. left. reflexivity.
    + intros k. unfold rows_with_key. cbn [filter].
      destruct (str_eqb (key r) k); reflexivity.
Qed.

Lemma length_le_sum (l : list nat) :
  Forall (fun n => 1 <= n)%nat l -> (List.length l <= list_sum l)%nat.
Proof.
  unfold list_sum. induction 1 as [|n l Hn Hl IH]; cbn [List.length fold_right]; lia.
Qed.

Lemma aggregate_trials (rows : list TrialRecord) :
  map trials (aggregate rows)
  = map (fun k => List.length (rows_with_key k rows)) (distinct_keys (map key rows)).
Proof. rewrite aggregate_grouped, map_map. reflexivity. Qed.

(** X10. For any rows, the trial counts of the summary records add up to
    the number of rows; there are at most as many records as rows; and there
    is a record as soon as there is a row. *)
Theorem aggregate_counts_every_row (rows : list TrialRecord) :
  total_trials (aggregate rows) = List.length rows
  /\ (List.length (aggregate rows) <= List.length rows)%nat
  /\ (rows <> [] -> aggregate rows <> []).
Proof.
  assert (total_trials (aggregate rows) = List.length rows) as Htotal.
  { rewrite total_trials_sum, aggregate_trials. apply group_sizes_sum.
    - apply (distinct_NoDup str_eqb str_eqb_eq).
    - intros r Hr. apply (distinct_In str_eqb str_eqb_eq). apply in_map. exact Hr. }
  split; [exact Htotal|]. split.
  - rewrite <- Htotal, total_trials_sum, <- (length_map trials).
    assert (Forall (fun n => 1 <= n)%nat (map trials (aggregate rows))) as Hpos.
    { rewrite aggregate_trials. apply Forall_forall. intros n Hn.
      apply in_map_iff in Hn. destruct Hn as [k [<- Hk]].
      apply rows_with_key_present. apply (distinct_In str_eqb str_eqb_eq). exact Hk. }
    apply length_le_sum. exact Hpos.
  - intros Hne C. rewrite C in Htotal. cbn in Htotal.
    destruct rows; [congruence|discriminate Htotal].
Qed.

(** ** Disjoint runs *)

Lemma distinct_app_disjoint (a b : list jsstring) :
  (forall x, In x a -> ~ In x b) ->
  distinct str_eqb (a ++ b) = distinct str_eqb a ++ distinct str_eqb b.
Proof.
  induction a as [|x a IH]; intros H; [reflexivity|].
  cbn [app distinct]. rewrite IH by (intros y Hy; apply H; right; exact Hy).
  rewrite filter_app. f_equal. f_equal.
  apply filter_id_when. intros y Hy. apply negb_true_iff, str_eqb_neq.
  intros ->. apply (H y); [left; reflexivity|].
  apply (distinct_In str_eqb str_eqb_eq). exact Hy.
Qed.

Lemma rows_with_key_app (k : jsstring) (a b : list TrialRecord) :
  rows_with_key k (a ++ b) = rows_with_key k a ++ rows_with_key k b.
Proof. apply filter_app. Qed.

Lemma aggregate_app (A B : list TrialRecord) :
  (forall a b, In a A -> In b B -> key a <> key b) ->
  aggregate (A ++ B) = aggregate A ++ aggregate B.
Proof.
  intros H. rewrite !aggregate_grouped. unfold distinct_keys.
  rewrite map_app, distinct_app_disjoint.
  2:{ intros x Ha Hb. apply in_map_iff in Ha, Hb.
      destruct Ha as [a [<- Ha]], Hb as [b [Eb Hb]]. apply (H a b Ha Hb). congruence. }
  rewrite map_app. f_equal; apply map_ext_in; intros k Hk;
    apply (proj1 (distinct_In str_eqb str_eqb_eq _ _)) in Hk; rewrite rows_with_key_app.
  - rewrite (rows_with_key_absent k B), app_nil_r; [reflexivity|].
    intros Hb. apply in_map_iff in Hk, Hb.
    destruct Hk as [a [<- Ha]], Hb as [b [Eb Hb]]. apply (H a b Ha Hb). congruence.
  - rewrite (rows_with_key_absent k A); [reflexivity|].
    intros Ha. apply in_map_iff in Hk, Ha.
    destruct Hk as [b [<- Hb]], Ha as [a [Ea Ha]]. apply (H a b Ha Hb). congruence.
Qed.

(** X11. When no row of A has the key of a row of B, the summary of A
    followed by B is the summary of A followed by the summary of B, and the
    numbers of records add up. *)
Theorem aggregate_of_disjoint_runs (A B : list TrialRecord) :
  (forall a b, In a A -> In b B -> key a <> key b) ->
  aggregate (A ++ B) = aggregate A ++ aggregate B
  /\ List.length (aggregate (A ++ B))
     = (List.length (aggregate A) + List.length (aggregate B))%nat.
Proof.
  intros H. rewrite (aggregate_app A B H). split; [reflexivity|apply length_app].
Qed.

(* ================================================================== *)
(** * Statistics of the groups and latencies of a run *)
(* ================================================================== *)

(** ** The statistics of a group *)

Lemma in_aggregate (rows : list TrialRecord) (a : AggregateRecord) :
  In a (aggregate rows) ->
  exists k g, a = aggregate_group (k, g) /\ g = rows_with_key k rows
              /\ (1 <= List.length g)%nat.
Proof.
  rewrite aggregate_grouped. intros Ha.
  apply in_map_iff in Ha. destruct Ha as [k [<- Hk]].
  apply (proj1 (distinct_In str_eqb str_eqb_eq _ _)) in Hk.
  exists k, (rows_with_key k rows). split; [reflexivity|]. split; [reflexivity|].
  apply rows_with_key_present. exact Hk.
Qed.

Lemma filter_length_le {A} (f : A -> bool) (l : list A) :
  (List.length (filter f l) <= List.length l)%nat.
Proof. induction l as [|x l IH]; simpl; [lia|]. destruct (f x); simpl; lia. Qed.

Lemma filter_none {A} (f : A -> bool) (l : list A) :
  (forall x, In x l -> f x = false) -> filter f l = [].
Proof.
  induction l as [|x l IH]; intros H; [reflexivity|]. simpl.
  rewrite (H x) by (left; reflexivity). apply IH. intros y Hy. apply H. right. exact Hy.
Qed.

Lemma error_rate_of_group (k : jsstring) (g : list TrialRecord) :
  (1 <= List.length g)%nat ->
  error_rate (aggregate_group (k, g)) = round (Fin (wrong_fraction g)) (of_nat 3).
Proof.
  intros H. unfold aggregate_group; cbn [error_rate].
  unfold of_nat at 1, of_Z at 1. rewrite num_div_of_nat by assumption. reflexivity.
Qed.

Lemma wrong_fraction_bounds (g : list TrialRecord) :
  (1 <= List.length g)%nat -> 0 <= wrong_fraction g <= 1.
Proof.
  intros H. unfold wrong_fraction. rewrite !Qred_correct.
  pose proof (filter_length_le r_correct g) as Hc.
  remember (List.length (filter r_correct g)) as c eqn:Ec. clear Ec.
  remember (List.length g) as n eqn:En. clear En.
  assert (0 < inject_Z (Z.of_nat n)) as Hn.
  { change 0 with (inject_Z 0). rewrite <- Zlt_Qlt. lia. }
  assert (0 <= inject_Z (Z.of_nat c)) as Hc0.
  { change 0 with (inject_Z 0). rewrite <- Zle_Qle. lia. }
  assert (inject_Z (Z.of_nat c) <= inject_Z (Z.of_nat n)) as Hcn.
  { rewrite <- Zle_Qle. lia. }
  remember (inject_Z (Z.of_nat c)) as x eqn:Ex. clear Ex.
  remember (inject_Z (Z.of_nat n)) as y eqn:Ey. clear Ey.
  assert (0 <= x / y) as H0.
  { apply Qle_shift_div_l; [assumption|]. lra. }
  assert (x / y <= 1) as H1.
  { apply Qle_shift_div_r; [assumption|]. lra. }
  split; lra.
Qed.

Lemma round_3_of_0 : round (Fin 0) (of_nat 3) = Fin 0.
Proof. vm_compute. reflexivity. Qed.

Lemma round_3_of_1 : round (Fin 1) (of_nat 3) = Fin 1.
Proof. vm_compute. reflexivity. Qed.

(** X12. Every error rate the Aggregator reports is a number between 0 and
    1 with at most 3 decimals; it is 0 in every record when all rows are
    correct, and 1 when none is. *)
Theorem error_rate_is_a_proportion (rows : list TrialRecord) :
  Forall (fun a => exists q, error_rate a = Fin q /\ 0 <= q <= 1
                             /\ exists k : Z, q * 1000 == inject_Z k)
         (aggregate rows)
  /\ ((forall r, In r rows -> r_correct r = true) ->
      Forall (fun a => error_rate a = Fin 0) (aggregate rows))
  /\ ((forall r, In r rows -> r_correct r = false) ->
      Forall (fun a => error_rate a = Fin 1) (aggregate rows)).
Proof.
  split; [|split].
  - apply Forall_forall. intros a Ha.
    destruct (in_aggregate rows a Ha) as [k [g [-> [_ Hlen]]]].
    rewrite error_rate_of_group by assumption.
    destruct (wrong_fraction_bounds g Hlen) as [H0 H1].
    pose proof (round_monotone 0 (wrong_fraction g) 3 H0) as L0.
    pose proof (round_monotone (wrong_fraction g) 1 3 H1) as L1.
    rewrite round_3_of_0 in L0. rewrite round_3_of_1 in L1.
    rewrite round_Fin in *. unfold fin in *.
    eexists. split; [reflexivity|].
    cbn [num_le] in L0, L1. apply Qle_bool_iff in L0, L1.
    split; [split; assumption|].
    exists (units_of (wrong_fraction g) 3). rewrite Qred_correct.
    change (scale 3) with 1000. field.
  - intros Hall. apply Forall_forall. intros a Ha.
    destruct (in_aggregate rows a Ha) as [k [g [-> [Hg Hlen]]]].
    rewrite error_rate_of_group by assumption.
    rewrite <- round_3_of_0. f_equal. f_equal.
    unfold wrong_fraction. transitivity (Qred 0); [|reflexivity].
    apply Qred_complete. rewrite !Qred_correct.
    rewrite filter_id_when.
    + field. intros C. assert (0 < inject_Z (Z.of_nat (List.length g))) as Hn.
      { change 0 with (inject_Z 0). rewrite <- Zlt_Qlt. lia. }
      lra.
    + intros r Hr. apply Hall. subst g. apply (rows_with_key_incl k rows r Hr).
  - intros Hnone. apply Forall_forall. intros a Ha.
    destruct (in_aggregate rows a Ha) as [k [g [-> [Hg Hlen]]]].
    rewrite error_rate_of_group by assumption.
    rewrite <- round_3_of_1. f_equal. f_equal.
    unfold wrong_fraction. transitivity (Qred 1); [|reflexivity].
    apply Qred_complete. rewrite !Qred_correct.
    rewrite filter_none.
    + cbn [List.length Z.of_nat]. field. intros C.
      assert (0 < inject_Z (Z.of_nat (List.length g))) as Hn.
      { change 0 with (inject_Z 0). rewrite <- Zlt_Qlt. lia. }
      lra.
    + intros r Hr. apply Hnone. subst g. apply (rows_with_key_incl k rows r Hr).
Qed.

(** ** The mean latency of a group *)

Lemma sum_between (lo hi : Q) (l : list number) :
  Forall (fun x => exists q, x = Fin q /\ lo <= q <= hi) l ->
  forall q0, exists s,
    fold_left num_add l (Fin q0) = Fin s
    /\ q0 + inject_Z (Z.of_nat (List.length l)) * lo <= s
    /\ s <= q0 + inject_Z (Z.of_nat (List.length l)) * hi.
Proof.
  induction 1 as [|x l [q [-> [Hlo Hhi]]] Hl IH]; intros q0.
  - exists q0. cbn [fold_left List.length Z.of_nat]. split; [reflexivity|].
    change (inject_Z 0) with 0. split; lra.
  - cbn [fold_left]. change (num_add (Fin q0) (Fin q)) with (Fin (Qred (q0 + q))).
    destruct (IH (Qred (q0 + q))) as [s [E [H1 H2]]].
    exists s. split; [exact E|].
    rewrite Qred_correct in H1, H2.
    cbn [List.length]. rewrite Nat2Z.inj_succ, <- Z.add_1_r, inject_Z_plus.
    change (inject_Z 1) with 1.
    remember (inject_Z (Z.of_nat (List.length l))) as n eqn:En. clear En.
    split; nra.
Qed.

(** The mean latency of one group lies between the roundings of any two
    bounds of its latencies. *)
Lemma group_mean_between (g : list TrialRecord) (lo hi : Q) :
  (1 <= List.length g)%nat ->
  Forall (fun r => exists q, latency_sec r = Fin q /\ lo <= q <= hi) g ->
  num_le (round (Fin lo) (Fin 2)) (mean_latency g) = true
  /\ num_le (mean_latency g) (round (Fin hi) (Fin 2)) = true.
Proof.
  intros Hlen Hg.
  assert (Forall (fun x => exists q, x = Fin q /\ lo <= q <= hi) (map latency_sec g)) as Hlat.
  { apply Forall_forall. intros x Hx. apply in_map_iff in Hx.
    destruct Hx as [r [<- Hr]]. rewrite Forall_forall in Hg. apply Hg. exact Hr. }
  destruct (sum_between lo hi _ Hlat 0) as [s [E [H1 H2]]].
  unfold mean_latency. rewrite E. rewrite length_map in *.
  rewrite num_div_of_nat by assumption. unfold fin.
  assert (0 < inject_Z (Z.of_nat (List.length g))) as Hn.
  { change 0 with (inject_Z 0). rewrite <- Zlt_Qlt. lia. }
  remember (inject_Z (Z.of_nat (List.length g))) as n eqn:En. clear En.
  split; apply (round_monotone _ _ 2); rewrite Qred_correct.
  - apply Qle_shift_div_l; [assumption|]. lra.
  - apply Qle_shift_div_r; [assumption|]. lra.
Qed.

Lemma mean_latency_of_group (k : jsstring) (g : list TrialRecord) :
  mean_latency_sec (aggregate_group (k, g)) = mean_latency g.
Proof. unfold aggregate_group, mean_latency. rewrite length_map. reflexivity. Qed.

(** Latencies bounded below are bounded above as well. *)
Lemma bounded_above (lo : Q) (g : list TrialRecord) :
  Forall (fun r => exists q, latency_sec r = Fin q /\ lo <= q) g ->
  exists hi, Forall (fun r => exists q, latency_sec r = Fin q /\ lo <= q <= hi) g.
Proof.
  induction 1 as [|r g [q [E Hq]] Hg [hi IH]].
  - exists lo. constructor.
  - destruct (Qlt_le_dec hi q) as [Hlt|Hle].
    + exists q. constructor.
      * exists q. split; [exact E|]. split; [exact Hq|lra].
      * apply (Forall_impl _ (P := fun r => exists q, latency_sec r = Fin q /\ lo <= q <= hi));
          [|exact IH].
        intros r0 [q0 [E0 [H0 H1]]]. exists q0. split; [exact E0|]. split; lra.
    + exists hi. constructor; [|exact IH].
      exists q. split; [exact E|]. split; assumption.
Qed.

(** The means of all groups are at least the rounding of a lower bound of
    the latencies. *)
Lemma means_at_least (rows : list TrialRecord) (lo : Q) :
  Forall (fun r => exists q, latency_sec r = Fin q /\ lo <= q) rows ->
  Forall (fun a => num_le (round (Fin lo) (Fin 2)) (mean_latency_sec a) = true)
         (aggregate rows).
Proof.
  intros Hrows. apply Forall_forall. intros a Ha.
  destruct (in_aggregate rows a Ha) as [k [g [-> [Hg Hlen]]]].
  rewrite mean_latency_of_group.
  assert (Forall (fun r => exists q, latency_sec r = Fin q /\ lo <= q) g) as Hlo.
  { apply Forall_forall. intros r Hr. rewrite Forall_forall in Hrows. apply Hrows.
    subst g. apply (rows_with_key_incl k rows r Hr). }
  destruct (bounded_above lo g Hlo) as [hi Hhi].
  apply (group_mean_between g lo hi Hlen Hhi).
Qed.

(** ** The latencies of a run *)

Lemma round_2_of_5 : round (Fin 5) (Fin 2) = Fin 5.
Proof. vm_compute. reflexivity. Qed.

Lemma round_2_of_0 : round (Fin 0) (Fin 2) = Fin 0.
Proof. vm_compute. reflexivity. Qed.

Lemma synthesize_finite (m : Baseline) (noise draw : number) :
  with_fields m -> is_finite noise = true ->
  exists q, timeSec (synthesize m noise draw) = Fin q /\ 5 <= q.
Proof.
  intros Hm Hn.
  destruct (synthesize_latency m noise draw Hm) as [H5 _].
  { destruct noise; discriminate || exact Hn. }
  assert (is_finite (timeSec (synthesize m noise draw)) = true) as Hf.
  { unfold synthesize; cbn [timeSec].
    destruct Hm as [q [e [-> _]]].
    destruct noise as [n| | |]; try discriminate Hn.
    apply finite_round_2.
    change (num_add (Fin q) (num_mul (Fin n) (Fin (12 # 10))))
      with (Fin (Qred (q + Qred (n * (12 # 10))))).
    unfold Math_max. destruct (Qle_bool 5 _); reflexivity. }
  destruct (timeSec (synthesize m noise draw)) as [q| | |]; try discriminate Hf.
  exists q. split; [reflexivity|]. apply Qle_bool_iff. exact H5.
Qed.

Lemma catalog_not_inherited (p : Problem) : In p problems -> inherited (id p) = false.
Proof. intros [<-|[<-|[<-|[]]]]; vm_compute; reflexivity. Qed.

Lemma runTrial_dry_latency (env : Env) (rep model : jsstring) (p : Problem) (i : nat)
    (w : World) :
  In p problems -> inherited rep = false ->
  is_finite (randn_value env (tick w)) = true ->
  exists row w',
    runTrial env rep true model p i w = (Ok row, w')
    /\ exists q, latency_sec row = Fin q /\ 5 <= q.
Proof.
  intros Hp Hr Hn.
  destruct (baseline_of_plain env (id p) rep (catalog_not_inherited p Hp) Hr) as [m [E Hm]].
  rewrite (runTrial_dry_at env rep model p i w m E).
  eexists; eexists. split; [reflexivity|]. cbn [latency_sec].
  destruct (synthesize_latency m (randn_value env (tick w))
              (Math_random env (random_draws w + 2)) Hm) as [_ H2].
  { destruct (randn_value env (tick w)); discriminate || exact Hn. }
  destruct (synthesize_finite m (randn_value env (tick w))
              (Math_random env (random_draws w + 2)) Hm Hn) as [q [E' Hq]].
  exists q. split; [|exact Hq]. rewrite H2. exact E'.
Qed.

(** X14. In a dry run under a representation that is not a name inherited
    from Object.prototype, and whose Gaussian draws are finite, every row
    records a finite latency of at least 5 seconds, and every record of the
    summary a mean latency of at least 5. *)
Theorem dry_run_latency_floor (env : Env) (rep model : jsstring) (trials : nat) (w : World) :
  inherited rep = false ->
  (forall w0, is_finite (randn_value env w0) = true) ->
  exists rows w',
    runTrials env rep trials true model w = (Ok rows, w')
    /\ Forall (fun r => exists q, latency_sec r = Fin q /\ 5 <= q) rows
    /\ Forall (fun a => num_le (Fin 5) (mean_latency_sec a) = true) (aggregate rows).
Proof.
  intros Hr Hn.
  destruct (runTrials_inv env
              (fun rows _ => Forall (fun r => exists q, latency_sec r = Fin q /\ 5 <= q) rows)
              rep trials true model) with (w := w) as [rows [w' [E [HI _]]]].
  - intros p i rows w1 Hp H.
    destruct (runTrial_dry_latency env rep model p i w1 Hp Hr (Hn _)) as [row [w2 [E Hrow]]].
    exists row, w2. split; [exact E|]. all_rows. exact Hrow.
  - constructor.
  - exists rows, w'. split; [exact E|]. split; [exact HI|].
    rewrite <- round_2_of_5. apply means_at_least. exact HI.
Qed.

Lemma runTrial_live_latency (env : Env) (rep model : jsstring) (p : Problem) (i : nat)
    (w : World) :
  (Date_now env (clock_reads w) <= Date_now env (S (clock_reads w)))%Z ->
  exists row w',
    runTrial env rep false model p i w = (Ok row, w')
    /\ exists q, latency_sec row = Fin q /\ 0 <= q.
Proof.
  intros Hclock. rewrite runTrial_live. eexists; eexists. split; [reflexivity|].
  cbn [latency_sec].
  assert (clock_reads (match OPENAI_API_KEY env with
                       | [] => tick w | _ => called (tick w) end) = S (clock_reads w)) as ->
    by (destruct (OPENAI_API_KEY env); reflexivity).
  remember (Date_now env (S (clock_reads w)) - Date_now env (clock_reads w))%Z as d eqn:Ed.
  assert (0 <= d)%Z as Hd by lia. clear Ed Hclock.
  change (num_div (of_Z d) (Fin 1000)) with (Fin (Qred (inject_Z d / 1000))).
  pose proof (round_monotone 0 (Qred (inject_Z d / 1000)) 2) as Hm.
  change (of_nat 2) with (Fin 2) in Hm. rewrite round_2_of_0 in Hm.
  rewrite round_Fin_2 in *. unfold fin in *. eexists. split; [reflexivity|].
  apply Qle_bool_iff. apply Hm. rewrite Qred_correct.
  apply Qle_shift_div_l; [lra|]. rewrite Qmult_0_l.
  change 0 with (inject_Z 0). rewrite <- Zle_Qle. exact Hd.
Qed.

(** X15. In a live run under a clock that never goes back, every row
    records a finite latency that is not negative, and so is every mean
    latency of the summary. *)
Theorem live_latency_nonnegative (env : Env) (rep model : jsstring) (trials : nat) (w : World) :
  (forall n, (Date_now env n <= Date_now env (S n))%Z) ->
  exists rows w',
    runTrials env rep trials false model w = (Ok rows, w')
    /\ Forall (fun r => exists q, latency_sec r = Fin q /\ 0 <= q) rows
    /\ Forall (fun a => num_le (Fin 0) (mean_latency_sec a) = true) (aggregate rows).
Proof.
  intros Hclock.
  destruct (runTrials_inv env
              (fun rows _ => Forall (fun r => exists q, latency_sec r = Fin q /\ 0 <= q) rows)
              rep trials false model) with (w := w) as [rows [w' [E [HI _]]]].
  - intros p i rows w1 Hp H.
    destruct (runTrial_live_latency env rep model p i w1 (Hclock _)) as [row [w2 [E Hrow]]].
    exists row, w2. split; [exact E|]. all_rows. exact Hrow.
  - constructor.
  - exists rows, w'. split; [exact E|]. split; [exact HI|].
    rewrite <- round_2_of_0. apply means_at_least. exact HI.
Qed.

(* ================================================================== *)
(** * A run and its summary *)
(* ================================================================== *)

(** ** A run, then its summary *)

Lemma runTrials_planned (env : Env) (rep model : jsstring) (n : nat)
    (dryRun : bool) (w : World) :
  exists rows w',
    runTrials env rep n dryRun model w = (Ok rows, w')
    /\ map row_identity rows = flat_map (block rep n) problems.
Proof.
  unfold runTrials.
  destruct (problems_loop_map row_identity
              (fun problem rows => trials_loop (runTrial env rep dryRun model problem) n 0 rows)
              (block rep n) problems) with (rows := @nil TrialRecord) (w := w)
    as [rows [w' [E Hm]]].
  - intros p rows0 w0 Hp. apply trials_loop_map. intros i w1.
    apply runTrial_identity. exact Hp.
  - exists rows, w'. split; [exact E|exact Hm].
Qed.

Lemma block_rows (rep : jsstring) (n : nat) (p : Problem) (rows : list TrialRecord) :
  map row_identity rows = block rep n p ->
  List.length rows = n
  /\ forall r, In r rows -> key r = id p ++ lit "__" ++ rep /\ r_topic r = topic p.
Proof.
  intros H. split.
  - rewrite <- (length_map row_identity), H. unfold block.
    rewrite length_map, length_seq. reflexivity.
  - intros r Hr. apply (in_map row_identity) in Hr. rewrite H in Hr.
    unfold block in Hr. apply in_map_iff in Hr. destruct Hr as [i [E _]].
    unfold row_identity in E. injection E as E1 E2 E3 _ _ _.
    unfold key. rewrite <- E1, <- E2, <- E3. split; reflexivity.
Qed.

Lemma aggregate_block (rep : jsstring) (n : nat) (p : Problem) (rows : list TrialRecord) :
  (1 <= n)%nat ->
  map row_identity rows = block rep n p ->
  exists a,
    aggregate rows = [a]
    /\ a_problem_id a = nth_error (split_string "__" (id p ++ lit "__" ++ rep)) 0
    /\ a_representation a = nth_error (split_string "__" (id p ++ lit "__" ++ rep)) 1
    /\ a_topic a = topic p
    /\ trials a = n.
Proof.
  intros Hn H. destruct (block_rows rep n p rows H) as [Hlen Hrows].
  rewrite (aggregate_single_group rows (id p ++ lit "__" ++ rep))
    by (intros r Hr; apply (Hrows r Hr)).
  destruct rows as [|r rows]; [simpl in Hlen; lia|].
  eexists. split; [reflexivity|].
  unfold aggregate_group; cbn [a_problem_id a_representation a_topic trials].
  repeat split; try assumption.
  apply (Hrows r). left. reflexivity.
Qed.

Lemma planned_row (rep : jsstring) (n : nat) (rows : list TrialRecord) :
  map row_identity rows = flat_map (block rep n) problems ->
  forall r, In r rows ->
    exists p, In p problems
      /\ row_identity r = (id p, topic p, rep, trial_index r, expectedValue p, units p).
Proof.
  intros H r Hr. apply (in_map row_identity) in Hr. rewrite H in Hr.
  apply in_flat_map in Hr. destruct Hr as [p [Hp Hr]].
  exists p. split; [exact Hp|].
  unfold block in Hr. apply in_map_iff in Hr. destruct Hr as [i [E _]].
  rewrite <- E. unfold row_identity in E. injection E as _ _ _ E4 _ _.
  rewrite E4. reflexivity.
Qed.

Lemma catalog_keys_differ (rep : jsstring) (p q : Problem) :
  id p <> id q -> id p ++ lit "__" ++ rep <> id q ++ lit "__" ++ rep.
Proof.
  intros Hpq E. apply Hpq. rewrite !app_assoc in E.
  apply app_inv_tail in E. apply app_inv_tail in E. exact E.
Qed.

Lemma catalog_split (rep : jsstring) (p : Problem) :
  In p problems -> rep = lit "linear" \/ rep = lit "septagon" ->
  split_string "__" (id p ++ lit "__" ++ rep) = [id p; rep].
Proof.
  intros [<-|[<-|[<-|[]]]] [->| ->]; vm_compute; reflexivity.
Qed.

(** A run of at least one trial per problem, and its summary. *)
Lemma run_summary (env : Env) (rep model : jsstring) (n : nat) (dryRun : bool) (w : World) :
  (1 <= n)%nat ->
  exists rows w',
    runTrials env rep n dryRun model w = (Ok rows, w')
    /\ map row_identity rows = flat_map (block rep n) problems
    /\ map (fun a => (a_topic a, trials a)) (aggregate rows)
       = map (fun p => (topic p, n)) problems
    /\ (rep = lit "linear" \/ rep = lit "septagon" ->
        map summary_of (aggregate rows)
        = map (fun p => (Some (id p), Some rep, topic p, n)) problems).
Proof.
  intros Hn.
  destruct (runTrials_planned env rep model n dryRun w) as [rows [w' [E Hm]]].
  exists rows, w'. split; [exact E|]. split; [exact Hm|].
  unfold problems in Hm. cbn [flat_map] in Hm. rewrite app_nil_r in Hm.
  apply map_eq_app in Hm. destruct Hm as [r1 [r23 [-> [H1 Hm]]]].
  apply map_eq_app in Hm. destruct Hm as [r2 [r3 [-> [H2 H3]]]].
  destruct (block_rows _ _ _ _ H1) as [_ K1].
  destruct (block_rows _ _ _ _ H2) as [_ K2].
  destruct (block_rows _ _ _ _ H3) as [_ K3].
  destruct (aggregate_block _ _ _ _ Hn H1) as [a1 [A1 [I1 [R1 [T1 L1]]]]].
  destruct (aggregate_block _ _ _ _ Hn H2) as [a2 [A2 [I2 [R2 [T2 L2]]]]].
  destruct (aggregate_block _ _ _ _ Hn H3) as [a3 [A3 [I3 [R3 [T3 L3]]]]].
  assert (aggregate (r1 ++ r2 ++ r3) = [a1; a2; a3]) as ->.
  { rewrite aggregate_app.
    - rewrite aggregate_app.
      + rewrite A1, A2, A3. reflexivity.
      + intros a b Ha Hb. destruct (K2 a Ha) as [-> _]. destruct (K3 b Hb) as [-> _].
        apply catalog_keys_differ. discriminate.
    - intros a b Ha Hb. destruct (K1 a Ha) as [-> _].
      apply in_app_or in Hb. destruct Hb as [Hb|Hb].
      + destruct (K2 b Hb) as [-> _]. apply catalog_keys_differ. discriminate.
      + destruct (K3 b Hb) as [-> _]. apply catalog_keys_differ. discriminate. }
  split.
  - unfold problems. cbn [map]. rewrite T1, T2, T3, L1, L2, L3. reflexivity.
  - intros Hrep. unfold problems. cbn [map]. unfold summary_of.
    rewrite I1, I2, I3, R1, R2, R3, T1, T2, T3, L1, L2, L3.
    rewrite !catalog_split by (assumption || (unfold problems; simpl; tauto)).
    reflexivity.
Qed.

(** X16. A run of n >= 1 trials followed by the Aggregator yields exactly
    one record per catalog problem, in catalog order, with the topic of the
    problem and n trials; under the representations linear and septagon the
    record also names the identifier of the problem and the representation. *)
Theorem run_then_aggregate (env : Env) (rep model : jsstring) (n : nat)
    (dryRun : bool) (w : World) :
  (1 <= n)%nat ->
  exists rows w',
    runTrials env rep n dryRun model w = (Ok rows, w')
    /\ map (fun a => (a_topic a, trials a)) (aggregate rows)
       = map (fun p => (topic p, n)) problems
    /\ (rep = lit "linear" \/ rep = lit "septagon" ->
        map summary_of (aggregate rows)
        = map (fun p => (Some (id p), Some rep, topic p, n)) problems).
Proof.
  intros Hn.
  destruct (run_summary env rep model n dryRun w Hn) as [rows [w' [E [_ [H1 H2]]]]].
  exists rows, w'. split; [exact E|]. split; assumption.
Qed.

(* ================================================================== *)
(** * The trial-level CSV: proofs *)
(* ================================================================== *)

Lemma csv_lines_map (iso : Z -> jsstring) (rows : list TrialRecord) :
  csv_lines iso rows = join "," keys :: map (row_line iso keys) rows.
Proof.
  unfold csv_lines.
  assert (forall acc, fold_left (fun lines r => lines ++ [row_line iso keys r]) rows acc
                      = acc ++ map (row_line iso keys) rows) as H.
  { induction rows as [|r rows IH]; intros acc; cbn [fold_left map].
    - rewrite app_nil_r. reflexivity.
    - rewrite IH, <- app_assoc. reflexivity. }
  rewrite H. reflexivity.
Qed.

Lemma header_is : join "," keys = header_line.
Proof. vm_compute. reflexivity. Qed.

Lemma cells_of_row (iso : Z -> jsstring) (r : TrialRecord) :
  map (cell iso r) keys = cells iso r.
Proof.
  unfold keys, cells. cbn [map]. unfold cell, get.
  repeat match goal with
         | |- context [str_eqb (lit ?a) (lit ?b)] =>
             let v := eval vm_compute in (str_eqb (lit a) (lit b)) in
             change (str_eqb (lit a) (lit b)) with v; cbv iota
         end.
  cbn [String_of].
  destruct (numeric_answer r); destruct (r_correct r); reflexivity.
Qed.

Lemma row_line_cells (iso : Z -> jsstring) (r : TrialRecord) :
  row_line iso keys r = join "," (map strip_commas (cells iso r)).
Proof.
  unfold row_line. rewrite <- cells_of_row, map_map.
  f_equal. apply map_ext. intros h. apply remove_commas.
Qed.

Lemma strip_commas_free (s : jsstring) : comma_free (strip_commas s).
Proof.
  unfold comma_free, strip_commas. intros H. apply filter_In in H.
  destruct H as [_ H]. unfold is_char in H. rewrite N.eqb_refl in H. discriminate H.
Qed.

Lemma strip_commas_id (s : jsstring) : comma_free s -> strip_commas s = s.
Proof.
  intros H. apply filter_id_when. intros c Hc. unfold is_char.
  destruct (N.eqb_spec c (cu ",")) as [->|]; [contradiction|reflexivity].
Qed.

(** Splitting at a separator of one code unit. *)
Section SplitUnit.

Variable d : code_unit.

Lemma split_unit_free (p : jsstring) :
  forall fuel piece,
    ~ In d p -> split_string_loop [d] fuel piece p = [piece ++ p].
Proof.
  induction p as [|c p IH]; intros fuel piece Hp.
  - destruct fuel; cbn [split_string_loop]; rewrite ?app_nil_r; reflexivity.
  - destruct fuel as [|fuel]; [reflexivity|]. cbn [split_string_loop strip_prefix].
    destruct (N.eqb_spec d c) as [<-|Hc]; [exfalso; apply Hp; left; reflexivity|].
    rewrite IH by (intros C; apply Hp; right; exact C).
    rewrite <- app_assoc. reflexivity.
Qed.

Lemma split_unit_cell (p : jsstring) :
  forall fuel piece rest,
    ~ In d p ->
    (List.length (p ++ d :: rest) <= fuel)%nat ->
    split_string_loop [d] fuel piece (p ++ d :: rest)
    = (piece ++ p) :: split_string_loop [d] (fuel - List.length p - 1) [] rest.
Proof.
  induction p as [|c p IH]; intros fuel piece rest Hp Hlen.
  - cbn [app] in *. destruct fuel as [|fuel]; [simpl in Hlen; lia|].
    cbn [split_string_loop strip_prefix].
    rewrite N.eqb_refl, app_nil_r.
    replace (S fuel - List.length (@nil code_unit) - 1)%nat with fuel by (simpl; lia).
    reflexivity.
  - destruct fuel as [|fuel]; [simpl in Hlen; lia|].
    cbn [app] in *. cbn [split_string_loop strip_prefix].
    destruct (N.eqb_spec d c) as [<-|Hc]; [exfalso; apply Hp; left; reflexivity|].
    rewrite IH.
    + rewrite <- app_assoc. reflexivity.
    + intros C; apply Hp; right; exact C.
    + cbn [List.length] in Hlen. lia.
Qed.

(** Fuel beyond the length of the text changes nothing. *)
Lemma split_unit_fuel (n : nat) :
  forall s fuel piece,
    (List.length s <= n)%nat -> (List.length s <= fuel)%nat ->
    split_string_loop [d] fuel piece s = split_string_loop [d] (List.length s) piece s.
Proof.
  induction n as [|n IH]; intros s fuel piece Hn Hf.
  - destruct s; [|simpl in Hn; lia].
    destruct fuel; cbn [split_string_loop List.length]; rewrite ?app_nil_r; reflexivity.
  - destruct s as [|c s].
    { destruct fuel; cbn [split_string_loop List.length]; rewrite ?app_nil_r; reflexivity. }
    destruct fuel as [|fuel]; [simpl in Hf; lia|].
    cbn [List.length] in *. cbn [split_string_loop strip_prefix].
    destruct (N.eqb d c); [f_equal|]; apply IH; lia.
Qed.

Lemma split_unit_nonempty (fuel : nat) :
  forall piece s, split_string_loop [d] fuel piece s <> [].
Proof.
  induction fuel as [|fuel IH]; intros piece s; [discriminate|].
  cbn [split_string_loop]. destruct s as [|c s]; [discriminate|].
  destruct (strip_prefix [d] (c :: s)); [discriminate|apply IH].
Qed.

Lemma split_join_unit (ps : list jsstring) :
  ps <> [] -> Forall (fun p => ~ In d p) ps ->
  forall fuel, (List.length (join [d] ps) <= fuel)%nat ->
    split_string_loop [d] fuel [] (join [d] ps) = ps.
Proof.
  intros Hne Hfree. revert Hne.
  induction Hfree as [|p ps Hp Hps IH]; intros Hne; [destruct Hne; reflexivity|].
  intros fuel Hlen. destruct ps as [|p' ps].
  - cbn [join]. rewrite split_unit_free by assumption. reflexivity.
  - change (join [d] (p :: p' :: ps)) with (p ++ d :: join [d] (p' :: ps)) in *.
    rewrite split_unit_cell by assumption. f_equal.
    apply IH; [discriminate|].
    rewrite length_app in Hlen. cbn [List.length] in Hlen. lia.
Qed.

End SplitUnit.

Lemma split_join_comma (ps : list jsstring) :
  ps <> [] -> Forall comma_free ps -> split_string "," (join "," ps) = ps.
Proof.
  intros Hne Hfree. unfold split_string.
  apply (split_join_unit (cu ",") ps Hne Hfree). apply le_n.
Qed.

(** X17. toCSV returns the empty text exactly for no row; otherwise its
    lines are the header followed by one line per row, in order; the header
    splits at commas into the ten keys, and every row line splits at commas
    into exactly ten cells, the texts of the values of the row with their
    commas removed. *)
Theorem toCSV_columns (iso : Z -> jsstring) (rows : list TrialRecord) :
  (toCSV iso rows = [] <-> rows = [])
  /\ csv_lines iso rows = header_line :: map (row_line iso keys) rows
  /\ split_string "," header_line = keys
  /\ forall r, split_string "," (row_line iso keys r) = map strip_commas (cells iso r).
Proof.
  split; [|split; [|split]].
  - split; [|intros ->; reflexivity].
    destruct rows as [|r rows]; [reflexivity|]. unfold toCSV.
    rewrite csv_lines_map, header_is. intros H.
    destruct (map (row_line iso keys) (r :: rows)); discriminate H.
  - rewrite csv_lines_map, header_is. reflexivity.
  - vm_compute. reflexivity.
  - intros r. rewrite row_line_cells. apply split_join_comma.
    + discriminate.
    + unfold cells. cbn [map]. repeat constructor; apply strip_commas_free.
Qed.

Lemma plain_app (a b : jsstring) : plain a -> plain b -> plain (a ++ b).
Proof. unfold plain. intros Ha Hb. rewrite forallb_app, Ha, Hb. reflexivity. Qed.

Lemma plain_split (n : nat) (s : jsstring) : plain s -> plain (firstn n s) /\ plain (skipn n s).
Proof.
  unfold plain. intros H. rewrite <- (firstn_skipn n s), forallb_app in H.
  apply andb_true_iff in H. exact H.
Qed.

Lemma plain_zeros (n : nat) : plain (zeros n).
Proof. unfold plain, zeros. induction n as [|n IH]; [reflexivity|]. simpl. exact IH. Qed.

Lemma digit_plain (n : Z) : plain_unit (48 + Z.to_N (n mod 10))%N = true.
Proof.
  pose proof (Z.mod_pos_bound n 10 ltac:(lia)) as H.
  assert (Z.to_N (n mod 10) < 10)%N as Hd by lia.
  remember (Z.to_N (n mod 10)) as d eqn:Ed. clear Ed H.
  unfold plain_unit.
  destruct (N.eqb_spec (48 + d) 10); [lia|].
  destruct (N.eqb_spec (48 + d) 13); [lia|].
  destruct (N.eqb_spec (48 + d) 44); [lia|]. reflexivity.
Qed.

Lemma plain_digits_of (fuel : nat) :
  forall n acc, plain acc -> plain (digits_of fuel n acc).
Proof.
  induction fuel as [|fuel IH]; intros n acc Hacc; [exact Hacc|].
  cbn [digits_of].
  assert (plain ((48 + Z.to_N (n mod 10))%N :: acc)) as Hc.
  { unfold plain. cbn [forallb]. rewrite digit_plain. exact Hacc. }
  destruct (n <? 10)%Z; [exact Hc|]. apply IH. exact Hc.
Qed.

Lemma plain_Z_digits (n : Z) : plain (Z_digits n).
Proof. apply plain_digits_of. reflexivity. Qed.

Lemma plain_positive (q : Q) : plain (positive_to_string q).
Proof.
  unfold positive_to_string.
  destruct (decimal_scale 400 (Qred q) 0) as [m e].
  destruct (strip_zeros (S (Z.to_nat (Z.log2 m))) m 0) as [s z].
  pose proof (plain_Z_digits s) as Hds.
  remember (Z_digits s) as ds eqn:Eds. clear Eds.
  remember (Z.of_nat (List.length ds) + Z.of_nat z - Z.of_nat e)%Z as n eqn:En. clear En.
  destruct ((Z.of_nat (List.length ds) <=? n) && (n <=? 21))%Z.
  { apply plain_app; [exact Hds|apply plain_zeros]. }
  destruct ((0 <? n) && (n <=? 21))%Z.
  { destruct (plain_split (Z.to_nat n) ds Hds) as [H1 H2].
    apply plain_app; [exact H1|]. apply plain_app; [reflexivity|exact H2]. }
  destruct ((-6 <? n) && (n <=? 0))%Z.
  { apply plain_app; [reflexivity|]. apply plain_app; [apply plain_zeros|exact Hds]. }
  assert (plain (if (0 <=? n - 1)%Z then lit "+" else lit "-")) as Hsign
    by (destruct (0 <=? n - 1)%Z; reflexivity).
  destruct ds as [|d [|d' rest]]; [reflexivity| |].
  - apply plain_app; [exact Hds|]. apply plain_app; [reflexivity|].
    apply plain_app; [exact Hsign|apply plain_Z_digits].
  - destruct (plain_split 1 (d :: d' :: rest) Hds) as [H1 H2].
    apply plain_app; [exact H1|]. apply plain_app; [reflexivity|].
    apply plain_app; [exact H2|]. apply plain_app; [reflexivity|].
    apply plain_app; [exact Hsign|apply plain_Z_digits].
Qed.

Lemma plain_number (x : number) : plain (number_to_string x).
Proof.
  destruct x as [q| | |]; try reflexivity.
  unfold number_to_string. destruct (Qsign q); [reflexivity| |apply plain_positive].
  apply plain_app; [reflexivity|apply plain_positive].
Qed.

Lemma plain_comma_free (s : jsstring) : plain s -> comma_free s.
Proof.
  unfold plain, comma_free. intros H C.
  rewrite forallb_forall in H. specialize (H _ C). vm_compute in H. discriminate H.
Qed.

Lemma plain_no_break (s : jsstring) : plain s -> ~ In 10%N s /\ ~ In 13%N s.
Proof.
  unfold plain. intros H. rewrite forallb_forall in H.
  split; intros C; specialize (H _ C); vm_compute in H; discriminate H.
Qed.

(** A line break is a line feed, after a carriage return or not; text
    without either is one line. *)
Lemma lines_from_line (l : jsstring) :
  forall piece rest,
    ~ In 10%N l -> ~ In 13%N l ->
    lines_from piece (l ++ nl ++ rest) = (piece ++ l) :: lines_from [] rest.
Proof.
  induction l as [|c l IH]; intros piece rest H10 H13.
  - change ([] ++ nl ++ rest) with (10%N :: rest). cbn [lines_from].
    rewrite N.eqb_refl, app_nil_r. reflexivity.
  - change ((c :: l) ++ nl ++ rest) with (c :: (l ++ nl ++ rest)). cbn [lines_from].
    destruct (N.eqb_spec c 10) as [->|Hc]; [exfalso; apply H10; left; reflexivity|].
    destruct (N.eqb_spec c 13) as [->|Hc']; [exfalso; apply H13; left; reflexivity|].
    cbn [andb].
    assert (lines_from (piece ++ [c]) (l ++ nl ++ rest)
            = (piece ++ c :: l) :: lines_from [] rest) as Hkeep.
    { rewrite IH.
      - rewrite <- app_assoc. reflexivity.
      - intros C. apply H10. right. exact C.
      - intros C. apply H13. right. exact C. }
    destruct (l ++ nl ++ rest); exact Hkeep.
Qed.

Lemma lines_join (ls : list jsstring) :
  ls <> [] -> Forall unbroken ls -> lines (join nl ls) = ls.
Proof.
  intros Hne Hls. unfold lines. induction Hls as [|l ls [H10 H13] Hls IH]; [congruence|].
  destruct ls as [|l' ls].
  - cbn [join]. rewrite lines_from_single by assumption. reflexivity.
  - change (join nl (l :: l' :: ls)) with (l ++ nl ++ join nl (l' :: ls)).
    rewrite lines_from_line by assumption. f_equal. apply IH. discriminate.
Qed.

Lemma plain_join_comma_free (ps : list jsstring) :
  Forall plain ps -> ~ In 10%N (join "," ps) /\ ~ In 13%N (join "," ps).
Proof.
  induction 1 as [|p ps Hp Hps IH]; [split; intros []|].
  destruct (plain_no_break p Hp) as [H10 H13].
  destruct ps as [|p' ps]; [split; assumption|].
  change (join "," (p :: p' :: ps)) with (p ++ lit "," ++ join "," (p' :: ps)).
  destruct IH as [I10 I13].
  split; intros C; apply in_app_or in C; destruct C as [C|C]; try contradiction;
    apply in_app_or in C; destruct C as [C|C]; try contradiction;
    destruct C as [C|[]]; discriminate C.
Qed.

Lemma plain_cells (iso : Z -> jsstring) (r : TrialRecord) :
  plain (iso (timestamp r)) -> plain_row r -> Forall plain (cells iso r).
Proof.
  intros Hiso [H1 [H2 [H3 H4]]]. unfold cells.
  repeat constructor; try assumption; try apply plain_number.
  - destruct (numeric_answer r); [apply plain_number|reflexivity].
  - destruct (r_correct r); reflexivity.
Qed.

Lemma map_id_when {A} (f : A -> A) (l : list A) :
  Forall (fun x => f x = x) l -> map f l = l.
Proof. induction 1 as [|x l Hx Hl IH]; [reflexivity|]. cbn [map]. rewrite Hx, IH. reflexivity. Qed.

Lemma row_line_plain (iso : Z -> jsstring) (r : TrialRecord) :
  plain (iso (timestamp r)) -> plain_row r ->
  row_line iso keys r = join "," (cells iso r)
  /\ ~ In 10%N (row_line iso keys r) /\ ~ In 13%N (row_line iso keys r).
Proof.
  intros Hiso Hr. pose proof (plain_cells iso r Hiso Hr) as Hc.
  assert (row_line iso keys r = join "," (cells iso r)) as E.
  { rewrite row_line_cells. f_equal. apply map_id_when.
    apply (Forall_impl _ (P := plain)); [|exact Hc].
    intros s Hs. apply strip_commas_id, plain_comma_free, Hs. }
  split; [exact E|]. rewrite E. apply plain_join_comma_free. exact Hc.
Qed.

(** X18. For at least one row, when neither the time stamps nor the
    strings of the rows hold a comma or a line break, the CSV text splits
    back, at line breaks and then at commas, into the keys followed by the
    cell texts of each row: nothing is lost. *)
Theorem toCSV_reads_back (iso : Z -> jsstring) (rows : list TrialRecord) :
  rows <> [] ->
  (forall ms, plain (iso ms)) ->
  Forall plain_row rows ->
  map (split_string ",") (lines (toCSV iso rows)) = keys :: map (cells iso) rows.
Proof.
  intros Hne Hiso Hrows.
  assert (toCSV iso rows = join nl (csv_lines iso rows)) as ->
    by (destruct rows; [congruence|reflexivity]).
  rewrite csv_lines_map, header_is.
  rewrite lines_join.
  - cbn [map]. f_equal.
    rewrite map_map. apply map_ext_in. intros r Hr.
    rewrite Forall_forall in Hrows.
    destruct (row_line_plain iso r (Hiso _) (Hrows r Hr)) as [E _].
    rewrite E. apply split_join_comma.
    + discriminate.
    + apply (Forall_impl _ (P := plain)); [intros s; apply plain_comma_free|].
      apply plain_cells; [apply Hiso|apply Hrows; exact Hr].
  - discriminate.
  - constructor.
    + split; intros C; vm_compute in C; repeat (destruct C as [C|C]; [discriminate C|]);
        exact C.
    + apply Forall_forall. intros l Hl. apply in_map_iff in Hl.
      destruct Hl as [r [<- Hr]]. rewrite Forall_forall in Hrows.
      destruct (row_line_plain iso r (Hiso _) (Hrows r Hr)) as [_ H]. exact H.
Qed.

Lemma catalog_row_plain (rep : jsstring) (row : TrialRecord) (p : Problem) :
  rep = lit "linear" \/ rep = lit "septagon" ->
  In p problems ->
  row_identity row = (id p, topic p, rep, trial_index row, expectedValue p, units p) ->
  plain_row row.
Proof.
  intros Hrep Hp E. unfold row_identity in E. injection E as E1 E2 E3 _ E5.
  unfold plain_row. rewrite E1, E2, E3, E5.
  destruct Hrep as [->| ->]; destruct Hp as [<-|[<-|[<-|[]]]];
    repeat split; vm_compute; reflexivity.
Qed.

(* ================================================================== *)
(** * The command line: proofs *)
(* ================================================================== *)

Lemma chosen_cases (args : list jsstring) :
  chosen args = [lit "linear"; lit "septagon"]
  \/ chosen args = [lit "linear"] \/ chosen args = [lit "septagon"].
Proof.
  unfold chosen.
  destruct (includes args "--both"), (includes args "--linear"),
    (includes args "--septagon"); simpl; auto.
Qed.

Lemma value_after_equals (p v : jsstring) :
  ~ In (cu "=") p ->
  exists first rest,
    split_string "=" (p ++ lit "=" ++ v) = p :: first :: rest
    /\ (forall c, In c first -> In c v).
Proof.
  intros Hp. unfold split_string.
  change (p ++ lit "=" ++ v) with (p ++ cu "=" :: v).
  change (lit "=") with [cu "="].
  rewrite split_unit_cell by (assumption || apply le_n).
  cbn [app].
  assert (forall fuel piece s,
            exists first rest,
              split_string_loop [cu "="] fuel piece s = first :: rest
              /\ forall c, In c first -> In c (piece ++ s)) as H.
  { induction fuel as [|fuel IH]; intros piece s.
    - eexists; eexists. split; [reflexivity|]. auto.
    - cbn [split_string_loop]. destruct s as [|c s].
      + eexists; eexists. split; [reflexivity|]. rewrite app_nil_r. auto.
      + destruct (strip_prefix [cu "="] (c :: s)).
        * eexists; eexists. split; [reflexivity|]. intros x Hx. apply in_or_app. auto.
        * destruct (IH (piece ++ [c]) s) as [first [rest [E Hin]]].
          exists first, rest. split; [exact E|]. intros x Hx.
          specialize (Hin x Hx). rewrite <- app_assoc in Hin. exact Hin. }
  destruct (H (List.length (p ++ cu "=" :: v) - List.length p - 1)%nat [] v)
    as [first [rest [E Hin]]].
  exists first, rest. split; [rewrite E; reflexivity|exact Hin].
Qed.

Lemma strip_prefix_app (p s r : jsstring) :
  strip_prefix p s = Some r -> s = p ++ r.
Proof.
  revert s. induction p as [|a p IH]; intros s H.
  - injection H as ->. reflexivity.
  - destruct s as [|b s]; [discriminate H|]. cbn [strip_prefix] in H.
    destruct (N.eqb_spec a b) as [->|]; [|discriminate H].
    cbn [app]. f_equal. apply IH. exact H.
Qed.

(** A [--model=] argument always carries a value, possibly empty. *)
Lemma model_of_defined (default_model : jsstring) (args : list jsstring) :
  exists m, model_of default_model args = Some m.
Proof.
  unfold model_of.
  destruct (find (fun a => startsWith a "--model=") args) as [a|] eqn:E;
    [|eexists; reflexivity].
  apply find_some in E. destruct E as [_ E]. unfold startsWith in E.
  destruct (strip_prefix "--model=" a) as [v|] eqn:Ev; [|discriminate E].
  apply strip_prefix_app in Ev. subst a.
  destruct (value_after_equals "--model" v) as [first [rest [Es _]]].
  { intros C. vm_compute in C. repeat (destruct C as [C|C]; [discriminate C|]). exact C. }
  change (lit "--model=" ++ v) with (lit "--model" ++ lit "=" ++ v).
  rewrite Es. exists first. reflexivity.
Qed.

Lemma runTrials_zero (env : Env) (rep model : jsstring) (dryRun : bool) (w : World) :
  runTrials env rep 0 dryRun model w = (Ok [], w).
Proof. reflexivity. Qed.

Lemma run_all_zero (env : Env) (model : jsstring) (dryRun : bool) (reps : list jsstring) :
  forall rows w, run_all env reps 0 dryRun model rows w = (Ok rows, w).
Proof.
  induction reps as [|rep reps IH]; intros rows w; [reflexivity|].
  cbn [run_all]. unfold bind. rewrite runTrials_zero, IH, app_nil_r. reflexivity.
Qed.

Lemma parseInt10_no_digit (s : jsstring) : has_digit s = false -> parseInt10 (Some s) = NaN.
Proof.
  intros H. unfold parseInt10.
  assert (forall t, has_digit t = false -> fst (span is_digit t) = []) as Hspan.
  { intros [|c t] Ht; [reflexivity|]. cbn [span]. unfold has_digit in Ht.
    cbn [existsb] in Ht. apply orb_false_iff in Ht. destruct Ht as [-> _]. reflexivity. }
  assert (has_digit (snd (span is_space s)) = false) as Ht.
  { clear Hspan. induction s as [|c s IH]; [reflexivity|]. cbn [span].
    unfold has_digit in H. cbn [existsb] in H. apply orb_false_iff in H.
    destruct H as [Hc Hs]. destruct (is_space c).
    - destruct (span is_space s) as [a b] eqn:E. apply IH. exact Hs.
    - cbn [snd]. unfold has_digit. cbn [existsb]. rewrite Hc. exact Hs. }
  destruct (snd (span is_space s)) as [|c t] eqn:Et; [reflexivity|].
  assert (has_digit t = false) as Ht'.
  { unfold has_digit in Ht. cbn [existsb] in Ht. apply orb_false_iff in Ht. apply Ht. }
  destruct (is_char "-" c); [rewrite (Hspan t Ht'); reflexivity|].
  destruct (is_char "+" c); [rewrite (Hspan t Ht'); reflexivity|].
  rewrite (Hspan (c :: t) Ht). reflexivity.
Qed.

Lemma planned_plain (rep : jsstring) (n : nat) (rows : list TrialRecord) :
  rep = lit "linear" \/ rep = lit "septagon" ->
  map row_identity rows = flat_map (block rep n) problems ->
  Forall plain_row rows.
Proof.
  intros Hrep H. apply Forall_forall. intros r Hr.
  destruct (planned_row rep n rows H r Hr) as [p [Hp E]].
  apply (catalog_row_plain rep r p Hrep Hp E).
Qed.

Lemma representations_differ (n : nat) (A B : list TrialRecord) :
  map row_identity A = flat_map (block "linear" n) problems ->
  map row_identity B = flat_map (block "septagon" n) problems ->
  forall a b, In a A -> In b B -> key a <> key b.
Proof.
  intros HA HB a b Ha Hb.
  destruct (planned_row _ n A HA a Ha) as [p [Hp Ea]].
  destruct (planned_row _ n B HB b Hb) as [q [Hq Eb]].
  unfold row_identity in Ea, Eb.
  injection Ea as Ea1 _ Ea3 _ _. injection Eb as Eb1 _ Eb3 _ _.
  unfold key. rewrite Ea1, Ea3, Eb1, Eb3.
  destruct Hp as [<-|[<-|[<-|[]]]]; destruct Hq as [<-|[<-|[<-|[]]]];
    intros C; vm_compute in C; discriminate C.
Qed.

(** The runs of the chosen representations and the summary of their rows. *)
Lemma run_all_summary (env : Env) (model : jsstring) (dryRun : bool) (n : nat)
    (reps : list jsstring) (w : World) :
  (1 <= n)%nat ->
  reps = [lit "linear"; lit "septagon"] \/ reps = [lit "linear"] \/ reps = [lit "septagon"] ->
  exists rows w',
    run_all env reps n dryRun model [] w = (Ok rows, w')
    /\ map row_identity rows = planned_for reps n
    /\ map summary_of (aggregate rows) = expected_summary reps n
    /\ Forall plain_row rows.
Proof.
  intros Hn Hreps.
  assert (forall rep w0, rep = lit "linear" \/ rep = lit "septagon" ->
            exists rows w',
              runTrials env rep n dryRun model w0 = (Ok rows, w')
              /\ map row_identity rows = flat_map (block rep n) problems
              /\ map summary_of (aggregate rows)
                 = map (fun p => (Some (id p), Some rep, topic p, n)) problems
              /\ Forall plain_row rows) as Hone.
  { intros rep w0 Hrep.
    destruct (run_summary env rep model n dryRun w0 Hn) as [rows [w' [E [Hm [_ Hs]]]]].
    exists rows, w'. split; [exact E|]. split; [exact Hm|]. split; [exact (Hs Hrep)|].
    apply (planned_plain rep n rows Hrep Hm). }
  destruct Hreps as [->|[->| ->]].
  - destruct (Hone (lit "linear") w (or_introl eq_refl)) as [r1 [w1 [E1 [M1 [S1 P1]]]]].
    destruct (Hone (lit "septagon") w1 (or_intror eq_refl)) as [r2 [w2 [E2 [M2 [S2 P2]]]]].
    exists (r1 ++ r2), w2. cbn [run_all]. unfold bind. rewrite E1, E2.
    split; [reflexivity|]. split; [|split].
    + unfold planned_for. cbn [flat_map]. rewrite map_app, M1, M2, app_nil_r. reflexivity.
    + rewrite (aggregate_app r1 r2 (representations_differ n r1 r2 M1 M2)).
      unfold expected_summary. cbn [flat_map]. rewrite map_app, S1, S2, app_nil_r.
      reflexivity.
    + apply Forall_app. split; assumption.
  - destruct (Hone (lit "linear") w (or_introl eq_refl)) as [r1 [w1 [E1 [M1 [S1 P1]]]]].
    exists r1, w1. cbn [run_all]. unfold bind. rewrite E1.
    split; [reflexivity|]. split; [|split].
    + unfold planned_for. cbn [flat_map]. rewrite app_nil_r. exact M1.
    + unfold expected_summary. cbn [flat_map]. rewrite app_nil_r. exact S1.
    + exact P1.
  - destruct (Hone (lit "septagon") w (or_intror eq_refl)) as [r1 [w1 [E1 [M1 [S1 P1]]]]].
    exists r1, w1. cbn [run_all]. unfold bind. rewrite E1.
    split; [reflexivity|]. split; [|split].
    + unfold planned_for. cbn [flat_map]. rewrite app_nil_r. exact M1.
    + unfold expected_summary. cbn [flat_map]. rewrite app_nil_r. exact S1.
    + exact P1.
Qed.

(** X19. The program, for a trial count n >= 1 read from its arguments,
    ends without failure; the representations it runs are linear then
    septagon, or one of them, never none; the rows it writes are those of
    the runs of the chosen representations in turn, free of commas and line
    breaks; the CSV is toCSV of these rows and the summary their aggregate,
    which has one record per chosen representation and catalog problem, each
    of n trials. *)
Theorem main_summary (env : Env) (default_model : jsstring) (iso : Z -> jsstring)
    (args : list jsstring) (n : nat) (w : World) :
  iterations (trials_of args) = Some n ->
  (1 <= n)%nat ->
  exists rows out w',
    main_from env default_model iso args w = Some (Ok out, w')
    /\ (chosen args = [lit "linear"; lit "septagon"]
        \/ chosen args = [lit "linear"] \/ chosen args = [lit "septagon"])
    /\ map row_identity rows = planned_for (chosen args) n
    /\ Forall plain_row rows
    /\ csv_text out = toCSV iso rows
    /\ s_aggregates out = aggregate rows
    /\ map summary_of (s_aggregates out) = expected_summary (chosen args) n.
Proof.
  intros Hit Hn. unfold main_from, main. rewrite Hit.
  destruct (run_all_summary env
              (match model_of default_model args with Some m => m | None => [] end)
              (includes args "--dry-run") n (chosen args) w Hn (chosen_cases args))
    as [rows [w1 [E [Hm [Hs Hp]]]]].
  unfold bind. rewrite E. cbn [now].
  eexists rows, _, _. split; [reflexivity|]. cbn [csv_text s_aggregates].
  split; [apply chosen_cases|]. repeat split; assumption.
Qed.

(** X20. When the trial loop runs zero times the program still ends
    normally, having read the clock once and written an empty CSV and a
    summary without records; this is what every --trials= value without a
    digit leads to, its parse being NaN. *)
Theorem main_without_trials (env : Env) (default_model : jsstring) (iso : Z -> jsstring) :
  (forall args w,
     iterations (trials_of args) = Some 0%nat ->
     exists out,
       main_from env default_model iso args w = Some (Ok out, tick w)
       /\ csv_text out = [] /\ s_aggregates out = [])
  /\ (forall v rest,
        has_digit v = false ->
        trials_of ((lit "--trials=" ++ v) :: rest) = NaN
        /\ iterations (trials_of ((lit "--trials=" ++ v) :: rest)) = Some 0%nat).
Proof.
  split.
  - intros args w Hit. unfold main_from, main. rewrite Hit.
    unfold bind. rewrite run_all_zero. cbn [now].
    eexists. split; [reflexivity|]. split; reflexivity.
  - intros v rest Hv.
    assert (trials_of ((lit "--trials=" ++ v) :: rest) = NaN) as E.
    { unfold trials_of. cbn [find].
      assert (startsWith (lit "--trials=" ++ v) "--trials=" = true) as -> by reflexivity.
      destruct (value_after_equals "--trials" v) as [first [more [Es Hin]]].
      { intros C. vm_compute in C. repeat (destruct C as [C|C]; [discriminate C|]). exact C. }
      change (lit "--trials=" ++ v) with (lit "--trials" ++ lit "=" ++ v).
      rewrite Es. cbn [nth_error]. apply parseInt10_no_digit.
      apply has_digit_false. intros c Hc. apply has_digit_false with (s := v); auto. }
    split; [exact E|]. rewrite E. reflexivity.
Qed.

(* ================================================================== *)
(** * The guessing game: proofs *)
(* ================================================================== *)

Section GameProofs.

Import XAyBGame.

(** ** The feedback *)

Lemma three_units (s : jsstring) :
  List.length s = 3%nat -> exists x y z, s = [x; y; z].
Proof.
  destruct s as [|x [|y [|z [|]]]]; try discriminate. intros _. exists x, y, z. reflexivity.
Qed.

Lemma count_sum (f : nat -> bool) :
  count f = (Nat.b2n (f 0%nat) + Nat.b2n (f 1%nat) + Nat.b2n (f 2%nat))%nat.
Proof. unfold count. cbn [filter]. destruct (f 0%nat), (f 1%nat), (f 2%nat); reflexivity. Qed.

Lemma existsb_unit (c : code_unit) (s : jsstring) : existsb (N.eqb c) s = true <-> In c s.
Proof.
  rewrite existsb_exists. split.
  - intros [x [Hx E]]. apply N.eqb_eq in E. subst x. exact Hx.
  - intros H. exists c. split; [exact H|apply N.eqb_refl].
Qed.

(** At each position, the guess scores for [a] or for [b] exactly when its
    code unit occurs in the secret. *)
Lemma position_scores (s g : jsstring) (i : nat) (c : code_unit) :
  (i < List.length s)%nat -> nth_error g i = Some c ->
  (Nat.b2n (strict_eq (nth_error s i) (nth_error g i))
   + Nat.b2n (negb (strict_eq (nth_error s i) (nth_error g i))
              && includes_unit s (nth_error g i)))%nat
  = Nat.b2n (existsb (N.eqb c) s).
Proof.
  intros Hi Hg. rewrite Hg. cbn [includes_unit].
  destruct (nth_error s i) as [d|] eqn:Hs; [|apply nth_error_None in Hs; lia].
  cbn [strict_eq]. destruct (N.eqb_spec d c) as [->|Hd]; cbn [negb andb Nat.b2n].
  - apply nth_error_In in Hs. apply existsb_unit in Hs. rewrite Hs. reflexivity.
  - reflexivity.
Qed.

Lemma common_sum (s : jsstring) (x y z : code_unit) :
  common s [x; y; z]
  = (Nat.b2n (existsb (N.eqb x) s) + Nat.b2n (existsb (N.eqb y) s)
     + Nat.b2n (existsb (N.eqb z) s))%nat.
Proof.
  unfold common. cbn [filter].
  destruct (existsb (N.eqb x) s), (existsb (N.eqb y) s), (existsb (N.eqb z) s); reflexivity.
Qed.

Lemma feedback_common (s g : jsstring) :
  List.length s = 3%nat -> List.length g = 3%nat ->
  (a (calculateXAyB s g) + b (calculateXAyB s g))%nat = common s g.
Proof.
  intros Hs Hg. destruct (three_units g Hg) as [x [y [z ->]]].
  unfold calculateXAyB; cbn [a b]. rewrite !count_sum, common_sum.
  pose proof (position_scores s [x; y; z] 0 x ltac:(lia) eq_refl) as H0.
  pose proof (position_scores s [x; y; z] 1 y ltac:(lia) eq_refl) as H1.
  pose proof (position_scores s [x; y; z] 2 z ltac:(lia) eq_refl) as H2.
  lia.
Qed.

Lemma common_le (s g : jsstring) : (common s g <= List.length g)%nat.
Proof. apply filter_length_le. Qed.

Lemma strict_eq_sym (x y : option code_unit) : strict_eq x y = strict_eq y x.
Proof. destruct x, y; cbn; try reflexivity. apply N.eqb_sym. Qed.

Lemma common_sym (s g : jsstring) : NoDup s -> NoDup g -> common s g = common g s.
Proof.
  intros Ns Ng. unfold common. apply Nat.le_antisymm; apply NoDup_incl_length.
  - apply NoDup_filter. exact Ng.
  - intros c Hc. apply filter_In in Hc. destruct Hc as [Hg Hc].
    apply existsb_unit in Hc. apply filter_In. split; [exact Hc|].
    apply existsb_unit. exact Hg.
  - apply NoDup_filter. exact Ns.
  - intros c Hc. apply filter_In in Hc. destruct Hc as [Hg Hc].
    apply existsb_unit in Hc. apply filter_In. split; [exact Hc|].
    apply existsb_unit. exact Hg.
Qed.

Lemma feedback_a_sym (s g : jsstring) : a (calculateXAyB s g) = a (calculateXAyB g s).
Proof.
  unfold calculateXAyB; cbn [a]. unfold count. f_equal.
  apply filter_ext. intros i. apply strict_eq_sym.
Qed.

Lemma feedback_win (s g : jsstring) :
  List.length s = 3%nat -> List.length g = 3%nat ->
  (a (calculateXAyB s g) = 3%nat <-> g = s).
Proof.
  intros Hs Hg.
  destruct (three_units s Hs) as [s0 [s1 [s2 ->]]].
  destruct (three_units g Hg) as [g0 [g1 [g2 ->]]].
  unfold calculateXAyB; cbn [a]. rewrite count_sum. cbn [nth_error strict_eq].
  destruct (N.eqb_spec s0 g0), (N.eqb_spec s1 g1), (N.eqb_spec s2 g2); subst;
    cbn [Nat.b2n Nat.add]; split; intros H; try reflexivity; try discriminate H;
    injection H; intros; subst; congruence.
Qed.

(** X21. For a secret and a guess of three code units, a + b is the number
    of code units of the guess that occur in the secret, hence at most 3; a
    is 3 exactly when the guess is the secret; and when neither repeats a
    code unit the feedback is the same with secret and guess exchanged. *)
Theorem feedback_counts (secret g : jsstring) :
  List.length secret = 3%nat -> List.length g = 3%nat ->
  (a (calculateXAyB secret g) + b (calculateXAyB secret g))%nat = common secret g
  /\ (a (calculateXAyB secret g) + b (calculateXAyB secret g) <= 3)%nat
  /\ (a (calculateXAyB secret g) = 3%nat <-> g = secret)
  /\ (NoDup secret -> NoDup g -> calculateXAyB secret g = calculateXAyB g secret).
Proof.
  intros Hs Hg. pose proof (feedback_common secret g Hs Hg) as Hc.
  split; [exact Hc|]. split; [|split].
  - rewrite Hc, <- Hg. apply common_le.
  - apply feedback_win; assumption.
  - intros Ns Ng. pose proof (feedback_common g secret Hg Hs) as Hc'.
    pose proof (feedback_a_sym secret g) as Ha.
    rewrite (common_sym g secret Ng Ns) in Hc'.
    destruct (calculateXAyB secret g) as [a1 b1], (calculateXAyB g secret) as [a2 b2].
    cbn [a b] in *. f_equal; lia.
Qed.

Lemma count_to_string (n : nat) :
  (n <= 3)%nat -> number_to_string (of_nat n) = [(48 + N.of_nat n)%N].
Proof.
  intros H. destruct n as [|[|[|[|n]]]]; [| | | |lia]; vm_compute; reflexivity.
Qed.

(** X22. For a secret and a guess of three code units, the text shown for
    the feedback is the two counts as digits, followed by A and by B, the
    case without any match included; it reads 3A0B exactly when the guess is
    the secret. *)
Theorem feedback_text (secret g : jsstring) :
  List.length secret = 3%nat -> List.length g = 3%nat ->
  let r := calculateXAyB secret g in
  resultText r = [(48 + N.of_nat (a r))%N; cu "A"; (48 + N.of_nat (b r))%N; cu "B"]
  /\ (resultText r = lit "3A0B" <-> g = secret).
Proof.
  intros Hs Hg r.
  pose proof (feedback_common secret g Hs Hg) as Hc.
  pose proof (common_le secret g) as Hle. rewrite Hg in Hle.
  pose proof (feedback_win secret g Hs Hg) as Hwin. fold r in Hc, Hwin.
  clearbody r.
  assert (resultText r
          = [(48 + N.of_nat (a r))%N; cu "A"; (48 + N.of_nat (b r))%N; cu "B"]) as E.
  { unfold resultText.
    assert (a r <= 3)%nat as Ha by lia. assert (b r <= 3)%nat as Hb by lia.
    rewrite !count_to_string by assumption.
    destruct (a r) as [|n], (b r) as [|m]; reflexivity. }
  split; [exact E|]. rewrite E.
  change (lit "3A0B") with [51%N; cu "A"; 48%N; cu "B"]. split.
  - intros H. apply Hwin. apply (f_equal (hd 0%N)) in H. cbn [hd] in H. lia.
  - intros H. apply Hwin in H. assert (b r = 0%nat) as Hb by lia.
    rewrite H, Hb. reflexivity.
Qed.

(** ** The validation of a guess *)

Lemma digit_cases (c : code_unit) : is_digit c = true -> In c decimal_digits.
Proof.
  unfold is_digit. intros H. apply andb_true_iff in H. destruct H as [H1 H2].
  apply N.leb_le in H1, H2.
  assert (c = 48 \/ c = 49 \/ c = 50 \/ c = 51 \/ c = 52 \/ c = 53 \/ c = 54
          \/ c = 55 \/ c = 56 \/ c = 57)%N as Hc by lia.
  unfold decimal_digits. cbn.
  repeat (destruct Hc as [->|Hc]; [tauto|]). subst c. tauto.
Qed.

Lemma digits_are_numeric (x y z : code_unit) :
  is_digit x = true -> is_digit y = true -> is_digit z = true -> isNaN [x; y; z] = false.
Proof.
  intros Hx Hy Hz.
  assert (forallb (fun x => forallb (fun y => forallb (fun z => negb (isNaN [x; y; z]))
                                      decimal_digits) decimal_digits) decimal_digits = true)
    as H by (vm_compute; reflexivity).
  rewrite forallb_forall in H. specialize (H x (digit_cases x Hx)).
  rewrite forallb_forall in H. specialize (H y (digit_cases y Hy)).
  rewrite forallb_forall in H. specialize (H z (digit_cases z Hz)).
  apply negb_true_iff in H. exact H.
Qed.

Lemma NoDup_three (x y z : code_unit) : NoDup [x; y; z] -> x <> y /\ x <> z /\ y <> z.
Proof.
  intros H. inversion H as [|? ? H1 H2]; subst. inversion H2 as [|? ? H3 _]; subst.
  repeat split; intros ->.
  - apply H1. left. reflexivity.
  - apply H1. right. left. reflexivity.
  - apply H3. left. reflexivity.
Qed.

Lemma distinct_three (x y z : code_unit) :
  (List.length (distinct N.eqb [x; y; z]) =? 3)%nat = true <-> NoDup [x; y; z].
Proof.
  cbn [distinct filter].
  destruct (N.eqb_spec y z) as [Eyz|Hyz]; cbn [negb filter];
    destruct (N.eqb_spec x y) as [Exy|Hxy]; cbn [negb filter];
    destruct (N.eqb_spec x z) as [Exz|Hxz]; cbn; split; intros H; try discriminate H;
    try (destruct (NoDup_three _ _ _ H) as [H1 [H2 H3]]; congruence);
    try reflexivity.
  constructor; [intros [C|[C|[]]]; congruence|].
  constructor; [intros [C|[]]; congruence|].
  constructor; [intros []|constructor].
Qed.

Lemma validateGuess_true (g : jsstring) :
  validateGuess g = true <->
  List.length g = 3%nat /\ isNaN g = false /\ NoDup g.
Proof.
  unfold validateGuess. destruct g as [|x g]; [split; [discriminate|intros [H _]; discriminate H]|].
  destruct (Nat.eqb_spec (List.length (x :: g)) 3) as [E|E]; cbn [negb].
  - destruct (three_units _ E) as [x' [y [z E']]]. rewrite E' in *. clear E'.
    destruct (isNaN [x'; y; z]).
    + split; [discriminate|intros [_ [H _]]; discriminate H].
    + pose proof (distinct_three x' y z) as Hd. cbn [List.length] in *.
      destruct (List.length (distinct N.eqb [x'; y; z]) =? 3)%nat; cbn [negb].
      * split; [intros _|reflexivity]. repeat split. apply Hd. reflexivity.
      * split; [discriminate|]. intros [_ [_ H]]. apply Hd in H. discriminate H.
  - split; [discriminate|]. intros [H _]. contradiction.
Qed.

(** X23. A guess that validateGuess accepts has three code units, all
    different, and is a numeric string; every string of three different
    decimal digits is accepted; but an accepted guess need not consist of
    digits: 1e5, 0x1, -12, .12 and +1. are accepted. *)
Theorem validateGuess_accepts :
  (forall g, validateGuess g = true ->
             List.length g = 3%nat /\ NoDup g /\ isNaN g = false)
  /\ (forall g, three_distinct_digits g -> validateGuess g = true)
  /\ Forall (fun g => validateGuess g = true /\ ~ three_distinct_digits g)
       [lit "1e5"; lit "0x1"; lit "-12"; lit ".12"; lit "+1."].
Proof.
  split; [|split].
  - intros g H. apply validateGuess_true in H. tauto.
  - intros g [Hlen [Hnd Hd]]. apply validateGuess_true.
    split; [exact Hlen|]. split; [|exact Hnd].
    destruct (three_units g Hlen) as [x [y [z ->]]].
    inversion Hd as [|? ? Hx Hd1]; subst. inversion Hd1 as [|? ? Hy Hd2]; subst.
    inversion Hd2 as [|? ? Hz _]; subst. apply digits_are_numeric; assumption.
  - repeat (apply Forall_cons; [split; [vm_compute; reflexivity|]|]); [..|constructor];
      intros [_ [_ H]]; rewrite Forall_forall in H;
      apply (proj2 (forallb_forall _ _)) in H; vm_compute in H; discriminate H.
Qed.

(** ** The course of a game *)

Lemma invariant_fresh (secret : jsstring) (limit : nat) :
  List.length secret = 3%nat -> limit = 10%nat ->
  game_invariant {| secretNumber := secret; attempts := 0; maxAttempts := limit;
                    gameOver := false; guesses := [] |}.
Proof.
  intros Hs ->. unfold game_invariant, well_recorded. cbn.
  repeat split; try lia; try constructor; try discriminate;
    try (intros [H|[]]; discriminate H).
Qed.

Lemma invariant_step (g : Game) (value : jsstring) :
  game_invariant g -> game_invariant (submitGuess g value).
Proof.
  intros [Hs [Hmax [Hlen [Hle [[Hnum Hrec] Hover]]]]]. unfold submitGuess.
  destruct (gameOver g) eqn:Eover.
  { unfold game_invariant, well_recorded. rewrite Eover. tauto. }
  destruct (validateGuess (trim value)) eqn:Evalid; cbn [negb].
  2:{ unfold game_invariant, well_recorded. rewrite Eover. tauto. }
  assert (attempts g <> 10%nat /\ ~ In (secretNumber g) (map guess (guesses g))) as [Hn Hnot].
  { split; intros C; [assert (false = true) as F by (apply Hover; left; exact C)
                     |assert (false = true) as F by (apply Hover; right; exact C)];
      discriminate F. }
  pose proof (proj1 (validateGuess_true _) Evalid) as [Hg _].
  pose proof (feedback_win (secretNumber g) (trim value) Hs Hg) as Hwin.
  assert (well_recorded
            {| secretNumber := secretNumber g; attempts := S (attempts g);
               maxAttempts := maxAttempts g; gameOver := true;
               guesses := guesses g ++ [{| guess := trim value;
                                           result := calculateXAyB (secretNumber g) (trim value);
                                           attempt := S (attempts g) |}] |}) as Hrec'.
  { unfold well_recorded; cbn [guesses attempts secretNumber]. split.
    - rewrite map_app, Hnum, seq_S. reflexivity.
    - apply Forall_app. split; [exact Hrec|]. constructor; [|constructor].
      cbn [guess result]. split; [exact Evalid|reflexivity]. }
  unfold checkGameEnd; cbn [attempts maxAttempts secretNumber guesses gameOver].
  destruct (Nat.eqb_spec (a (calculateXAyB (secretNumber g) (trim value))) 3) as [E3|E3].
  - unfold game_invariant; cbn [attempts maxAttempts secretNumber guesses gameOver].
    split; [exact Hs|]. split; [exact Hmax|].
    split; [rewrite length_app; cbn [List.length]; lia|].
    split; [lia|]. split; [exact Hrec'|].
    split; [intros _|reflexivity]. right. rewrite map_app. apply in_or_app. right.
    left. cbn [guess]. apply Hwin. exact E3.
  - rewrite Hmax. destruct (Nat.leb_spec 10 (S (attempts g))) as [H10|H10].
    + unfold game_invariant; cbn [attempts maxAttempts secretNumber guesses gameOver].
      split; [exact Hs|]. split; [reflexivity|].
      split; [rewrite length_app; cbn [List.length]; lia|].
      split; [lia|]. split; [exact Hrec'|].
      split; [intros _|reflexivity]. left. lia.
    + unfold game_invariant; cbn [attempts maxAttempts secretNumber guesses gameOver].
      split; [exact Hs|]. split; [reflexivity|].
      split; [rewrite length_app; cbn [List.length]; lia|].
      split; [lia|]. split; [exact Hrec'|].
      split; [discriminate|].
      intros [C|C]; [lia|]. rewrite map_app in C. apply in_app_or in C.
      destruct C as [C|[C|[]]]; [contradiction|].
      cbn [guess] in C. exfalso. apply E3. apply Hwin. exact C.
Qed.

(** X24. In every state of a game, reached from the constructor by
    submitted texts and new games: the limit is 10 attempts; the number of
    attempts is the number of recorded guesses and is at most 10; the
    recorded guesses are valid, numbered from 1 in order, and scored against
    the secret; the game is over exactly when 10 guesses are recorded or the
    secret is among them; and once it is over, a submitted text changes
    nothing. *)
Theorem game_course (g : Game) :
  reachable g ->
  maxAttempts g = 10%nat
  /\ attempts g = List.length (guesses g)
  /\ (attempts g <= 10)%nat
  /\ well_recorded g
  /\ (gameOver g = true <->
      attempts g = 10%nat \/ In (secretNumber g) (map guess (guesses g)))
  /\ (gameOver g = true -> forall value, submitGuess g value = g).
Proof.
  intros Hr.
  assert (game_invariant g) as Hinv.
  { induction Hr as [secret Hs|g value Hr IH|g secret Hr IH Hs].
    - apply invariant_fresh; [exact Hs|reflexivity].
    - apply invariant_step. exact IH.
    - apply invariant_fresh; [exact Hs|]. apply IH. }
  destruct Hinv as [_ [H1 [H2 [H3 [H4 H5]]]]].
  repeat split; try assumption; try apply H4; try apply H5.
  intros Hover value. unfold submitGuess. rewrite Hover. reflexivity.
Qed.

(** ** The secret number *)

Lemma same_value_zero_of_Z (x y : Z) : same_value_zero (of_Z x) (of_Z y) = (x =? y)%Z.
Proof.
  unfold of_Z, same_value_zero, Qeq_bool, inject_Z. cbn [Qnum Qden].
  rewrite !Z.mul_1_r. reflexivity.
Qed.

Lemma of_Z_inj (x y : Z) : of_Z x = of_Z y -> x = y.
Proof. unfold of_Z, inject_Z. intros H. injection H as H. exact H. Qed.

Lemma includes_number_of_Z (zs : list Z) (x : Z) :
  includes_number (map of_Z zs) (of_Z x) = true <-> In x zs.
Proof.
  unfold includes_number. rewrite existsb_exists. split.
  - intros [y [Hy E]]. apply in_map_iff in Hy. destruct Hy as [z [<- Hz]].
    rewrite same_value_zero_of_Z in E. apply Z.eqb_eq in E. subst z. exact Hz.
  - intros H. exists (of_Z x). split; [apply in_map; exact H|].
    rewrite same_value_zero_of_Z. apply Z.eqb_refl.
Qed.

Lemma digit_of_uniform (env : Env) (n : nat) :
  uniform (Math_random env n) ->
  exists d, (0 <= d <= 9)%Z /\ digit_of env n = of_Z d.
Proof.
  intros [q [E [H0 H1]]]. unfold digit_of. rewrite E.
  change (num_mul (Fin q) (Fin 10)) with (Fin (Qred (q * 10))). cbn [Math_floor].
  exists (Qfloor (Qred (q * 10))). split; [|reflexivity].
  rewrite (Qfloor_comp _ (q * 10)) by apply Qred_correct.
  split.
  - change 0%Z with (Qfloor 0). apply Qfloor_resp_le. lra.
  - assert (Qfloor (q * 10) < 10)%Z; [|lia].
    rewrite Zlt_Qlt. pose proof (Qfloor_le (q * 10)) as Hf.
    change (inject_Z 10) with 10.
    remember (inject_Z (Qfloor (q * 10))) as f eqn:Ef. clear Ef. lra.
Qed.

Lemma generate_step (env : Env) (fuel : nat) (ds : list number) (zs : list Z) (w : World) :
  uniform (Math_random env (random_draws w)) ->
  digit_list ds zs -> (List.length ds < 3)%nat ->
  exists d zs',
    digit_of env (random_draws w) = of_Z d
    /\ In d zs' /\ incl zs zs'
    /\ digit_list (map of_Z zs') zs'
    /\ (List.length zs' <= S (List.length zs))%nat
    /\ generate_loop env (S fuel) ds w
       = generate_loop env fuel (map of_Z zs')
           {| clock_reads := clock_reads w; random_draws := S (random_draws w);
              fetch_calls := fetch_calls w |}.
Proof.
  intros Hu [-> [Hnd Hall]] Hlen.
  destruct (digit_of_uniform env _ Hu) as [d [Hd Ed]].
  cbn [generate_loop]. apply Nat.ltb_lt in Hlen. rewrite Hlen.
  unfold bind, random. fold (digit_of env (random_draws w)). rewrite Ed.
  destruct (includes_number (map of_Z zs) (of_Z d)) eqn:Ein; cbn [negb].
  - apply includes_number_of_Z in Ein.
    exists d, zs. repeat split; try assumption; try apply incl_refl; try lia.
  - assert (~ In d zs) as Hnot.
    { intros C. apply includes_number_of_Z in C. congruence. }
    exists d, (zs ++ [d]). split; [reflexivity|].
    split; [apply in_or_app; right; left; reflexivity|].
    split; [apply incl_appl, incl_refl|].
    split; [|split].
    + split; [reflexivity|]. split.
      * apply NoDup_app; [exact Hnd|repeat constructor; intros []|].
        intros x Hx [<-|[]]. contradiction.
      * apply Forall_app. split; [exact Hall|]. constructor; [exact Hd|constructor].
    + rewrite length_app. cbn. lia.
    + rewrite map_app. reflexivity.
Qed.

Lemma generate_loop_returns (env : Env) :
  (forall n, uniform (Math_random env n)) ->
  forall fuel ds zs w,
    digit_list ds zs -> (List.length ds <= 3)%nat ->
    exists r w',
      generate_loop env fuel ds w = (Ok r, w')
      /\ (random_draws w' <= random_draws w + fuel)%nat
      /\ forall ds', r = Some ds' ->
           exists zs', digit_list ds' zs' /\ List.length zs' = 3%nat.
Proof.
  intros Hu. induction fuel as [|fuel IH]; intros ds zs w Hds Hlen.
  - cbn [generate_loop]. destruct (Nat.ltb_spec (List.length ds) 3) as [Hlt|Hge].
    + eexists; eexists. split; [reflexivity|]. split; [lia|]. discriminate.
    + eexists; eexists. split; [reflexivity|]. split; [lia|].
      intros ds' E. injection E as <-. exists zs. split; [exact Hds|].
      destruct Hds as [-> _]. rewrite length_map in *. lia.
  - destruct (Nat.ltb_spec (List.length ds) 3) as [Hlt|Hge].
    + destruct (generate_step env fuel ds zs w (Hu _) Hds Hlt)
        as [d [zs' [_ [_ [_ [Hds' [Hlen' ->]]]]]]].
      destruct (IH (map of_Z zs') zs'
                  {| clock_reads := clock_reads w; random_draws := S (random_draws w);
                     fetch_calls := fetch_calls w |} Hds')
        as [r [w' [E [Hw Hr]]]].
      { rewrite length_map. destruct Hds as [-> _]. rewrite length_map in Hlt. lia. }
      exists r, w'. split; [exact E|]. split; [cbn [random_draws] in Hw; lia|exact Hr].
    + cbn [generate_loop]. apply Nat.ltb_ge in Hge. rewrite Hge.
      eexists; eexists. split; [reflexivity|]. split; [lia|].
      intros ds' E. injection E as <-. exists zs. split; [exact Hds|].
      apply Nat.ltb_ge in Hge.
      destruct Hds as [-> _]. rewrite length_map in *. lia.
Qed.

Lemma digit_to_string (d : Z) :
  (0 <= d <= 9)%Z -> number_to_string (of_Z d) = [Z.to_N (48 + d)].
Proof.
  intros H.
  assert (d = 0 \/ d = 1 \/ d = 2 \/ d = 3 \/ d = 4 \/ d = 5 \/ d = 6 \/ d = 7
          \/ d = 8 \/ d = 9)%Z as Hd by lia.
  repeat (destruct Hd as [->|Hd]; [vm_compute; reflexivity|]).
  subst d. vm_compute. reflexivity.
Qed.

Lemma secret_of_digits (ds : list number) (zs : list Z) :
  digit_list ds zs -> List.length zs = 3%nat ->
  three_distinct_digits (join [] (map number_to_string ds)).
Proof.
  intros [-> [Hnd Hall]] Hlen.
  destruct zs as [|x [|y [|z [|]]]]; try discriminate Hlen.
  inversion Hall as [|? ? Hx Hall1]; subst. inversion Hall1 as [|? ? Hy Hall2]; subst.
  inversion Hall2 as [|? ? Hz _]; subst.
  cbn [map join]. rewrite !digit_to_string by assumption. cbn [app].
  inversion Hnd as [|? ? N1 Hnd1]; subst. inversion Hnd1 as [|? ? N2 _]; subst.
  split; [reflexivity|]. split.
  - constructor; [intros [C|[C|[]]]|constructor; [intros [C|[]]|repeat constructor; intros []]].
    + apply N1. left. lia.
    + apply N1. right. left. lia.
    + apply N2. left. lia.
  - repeat constructor; unfold is_digit; apply andb_true_iff; split; apply N.leb_le; lia.
Qed.

(** X25. With uniform draws in [0, 1), generateSecretNumber never fails and
    draws at most one number per turn of its loop; a secret number it
    returns has three different decimal digits, passes validateGuess, and
    starts a game. *)
Theorem secret_number_drawn (env : Env) (fuel : nat) (w : World) :
  (forall n, uniform (Math_random env n)) ->
  exists r w',
    generateSecretNumber env fuel w = (Ok r, w')
    /\ (random_draws w' <= random_draws w + fuel)%nat
    /\ forall secret, r = Some secret ->
         three_distinct_digits secret
         /\ validateGuess secret = true
         /\ reachable (new_game secret).
Proof.
  intros Hu.
  destruct (generate_loop_returns env Hu fuel [] [] w) as [r [w' [E [Hw Hr]]]].
  { split; [reflexivity|]. split; constructor. }
  { cbn. lia. }
  unfold generateSecretNumber, bind. rewrite E.
  eexists; eexists. split; [reflexivity|]. split; [exact Hw|].
  intros secret Es. destruct r as [ds|]; [|discriminate Es]. injection Es as <-.
  destruct (Hr ds eq_refl) as [zs [Hds Hlen]].
  pose proof (secret_of_digits ds zs Hds Hlen) as H3.
  split; [exact H3|]. split.
  - apply validateGuess_true. destruct H3 as [Hl [Hn Hd]].
    split; [exact Hl|]. split; [|exact Hn].
    destruct (three_units _ Hl) as [x [y [z E3]]]. rewrite E3 in *.
    inversion Hd as [|? ? Hx Hd1]; subst. inversion Hd1 as [|? ? Hy Hd2]; subst.
    inversion Hd2 as [|? ? Hz _]; subst. apply digits_are_numeric; assumption.
  - apply constructed. apply H3.
Qed.

Lemma generate_loop_finds (env : Env) :
  (forall n, uniform (Math_random env n)) ->
  forall fuel ds zs w (l : list Z),
    digit_list ds zs ->
    NoDup l -> List.length l = 3%nat ->
    (forall x, In x l ->
       In x zs \/ exists i, (i < fuel)%nat /\ digit_of env (random_draws w + i) = of_Z x) ->
    exists ds' w', generate_loop env fuel ds w = (Ok (Some ds'), w').
Proof.
  intros Hu. induction fuel as [|fuel IH]; intros ds zs w l Hds Hnd Hl Hfound.
  - assert (incl l zs) as Hincl.
    { intros x Hx. destruct (Hfound x Hx) as [H|[i [Hi _]]]; [exact H|lia]. }
    pose proof (NoDup_incl_length Hnd Hincl) as Hlen.
    cbn [generate_loop]. destruct Hds as [-> _]. rewrite length_map.
    destruct (Nat.ltb_spec (List.length zs) 3) as [Hlt|Hge]; [lia|].
    eexists; eexists. reflexivity.
  - destruct (Nat.ltb_spec (List.length ds) 3) as [Hlt|Hge].
    + destruct (generate_step env fuel ds zs w (Hu _) Hds Hlt)
        as [d [zs' [Ed [Hin [Hincl [Hds' [_ ->]]]]]]].
      apply (IH _ zs' _ l Hds' Hnd Hl).
      intros x Hx. cbn [random_draws].
      destruct (Hfound x Hx) as [H|[i [Hi Ei]]]; [left; apply Hincl; exact H|].
      destruct i as [|i].
      * left. rewrite Nat.add_0_r, Ed in Ei. apply of_Z_inj in Ei. subst x. exact Hin.
      * right. exists i. split; [lia|]. rewrite <- Ei. f_equal. lia.
    + cbn [generate_loop]. apply Nat.ltb_ge in Hge. rewrite Hge.
      eexists; eexists. reflexivity.
Qed.

(** X26. With uniform draws in [0, 1), generateSecretNumber returns a
    secret number within fuel turns of its loop as soon as three of the next
    fuel draws give three different digits. *)
Theorem secret_number_found (env : Env) (fuel : nat) (w : World) (i j k : nat) :
  (forall n, uniform (Math_random env n)) ->
  (i < fuel)%nat -> (j < fuel)%nat -> (k < fuel)%nat ->
  digit_of env (random_draws w + i) <> digit_of env (random_draws w + j) ->
  digit_of env (random_draws w + i) <> digit_of env (random_draws w + k) ->
  digit_of env (random_draws w + j) <> digit_of env (random_draws w + k) ->
  exists secret w',
    generateSecretNumber env fuel w = (Ok (Some secret), w')
    /\ three_distinct_digits secret.
Proof.
  intros Hu Hi Hj Hk Hij Hik Hjk.
  destruct (digit_of_uniform env _ (Hu (random_draws w + i)%nat)) as [x [_ Ex]].
  destruct (digit_of_uniform env _ (Hu (random_draws w + j)%nat)) as [y [_ Ey]].
  destruct (digit_of_uniform env _ (Hu (random_draws w + k)%nat)) as [z [_ Ez]].
  rewrite Ex, Ey, Ez in *.
  destruct (generate_loop_finds env Hu fuel [] [] w [x; y; z]) as [ds [w' E]].
  - split; [reflexivity|]. split; constructor.
  - constructor; [intros [C|[C|[]]]; congruence|].
    constructor; [intros [C|[]]; congruence|]. repeat constructor. intros [].
  - reflexivity.
  - intros t [<-|[<-|[<-|[]]]]; right; [exists i|exists j|exists k]; split; assumption.
  - destruct (generate_loop_returns env Hu fuel [] [] w) as [r [w1 [E1 [_ Hr]]]].
    { split; [reflexivity|]. split; constructor. }
    { cbn. lia. }
    rewrite E in E1. injection E1 as <- <-.
    destruct (Hr ds eq_refl) as [zs [Hds Hlen]].
    unfold generateSecretNumber, bind. rewrite E.
    eexists; eexists. split; [reflexivity|].
    apply (secret_of_digits ds zs Hds Hlen).
Qed.

End GameProofs.

(* ================================================================== *)
(** * Dry-run answers and the lines of the prompts *)
(* ================================================================== *)

(** ** What a dry run records *)

Lemma dry_text_reads_back (p : Problem) (ok : bool) :
  In p problems ->
  extractFinalNumeric (dry_answer_text p ok) = Some (synthesized_answer (expectedValue p) ok).
Proof.
  intros [<-|[<-|[<-|[]]]]; destruct ok; vm_compute; reflexivity.
Qed.

(** X27. The correctness flag of the synthesizer is decided by its uniform
    draw against the error rate of the baseline it reads. For every problem
    identifier and representation that are not names inherited from
    Object.prototype, known or not, that rate lies between 0.22 and 0.31: a
    draw of at least 0.31 is always flagged correct, a draw below 0.22
    never. For a problem of the catalog and a representation that is such an
    inherited name, the value read has no error rate and every draw is
    flagged correct. And every dry-run row records as numeric answer the
    expected value when flagged correct, and 1.25 times it rounded to 3
    decimals otherwise. *)
Theorem dry_run_answers :
  (forall env pid rep,
     inherited pid = false -> inherited rep = false ->
     exists m,
       baseline_of env pid rep = Ok m
       /\ (forall noise q,
             (31 # 100) <= q -> correct (synthesize m noise (Fin q)) = true)
       /\ (forall noise q,
             q < (22 # 100) -> correct (synthesize m noise (Fin q)) = false))
  /\ (forall env p rep,
        In p problems -> inherited rep = true ->
        exists m,
          baseline_of env (id p) rep = Ok m
          /\ forall noise draw, correct (synthesize m noise draw) = true)
  /\ (forall env rep model n w,
        exists rows w',
          runTrials env rep n true model w = (Ok rows, w')
          /\ Forall (fun r => numeric_answer r
                              = Some (synthesized_answer (expected_value r) (r_correct r)))
                    rows).
Proof.
  split; [|split].
  - intros env pid rep Hp Hr.
    destruct (baseline_of_plain env pid rep Hp Hr) as [m [E [q0 [e [_ [He [H1 H2]]]]]]].
    exists m. split; [exact E|]. split.
    + intros noise q Hq. unfold synthesize; cbn [correct]. rewrite He.
      cbn [num_lt]. rewrite negb_involutive. apply Qle_bool_iff. lra.
    + intros noise q Hq. unfold synthesize; cbn [correct]. rewrite He.
      cbn [num_lt]. rewrite negb_involutive.
      destruct (Qle_bool e q) eqn:Eq; [|reflexivity].
      apply Qle_bool_iff in Eq. lra.
  - intros env p rep Hp Hr. exists no_fields.
    split; [apply baseline_of_inherited; assumption|].
    intros noise draw. rewrite synthesize_no_fields. reflexivity.
  - intros env rep model n w.
    destruct (runTrials_inv env
                (fun rows _ =>
                   Forall (fun r => numeric_answer r
                                    = Some (synthesized_answer (expected_value r) (r_correct r)))
                          rows)
                rep n true model) with (w := w) as [rows [w' [E [HI _]]]].
    + intros p i rows w1 Hp H.
      destruct (runTrial_dry env rep model p i w1 Hp) as [s [w2 [stamp [E _]]]].
      rewrite E. row_pushed. all_rows.
      cbn [numeric_answer expected_value r_correct]. apply dry_text_reads_back. exact Hp.
    + constructor.
    + exists rows, w'. split; assumption.
Qed.

(** ** The lines of the prompts *)

Lemma unbroken_when (s : jsstring) :
  forallb (fun c => negb (c =? 10)%N && negb (c =? 13)%N) s = true -> unbroken s.
Proof.
  intros H. rewrite forallb_forall in H.
  split; intros C; specialize (H _ C); vm_compute in H; discriminate H.
Qed.

Lemma unbroken_app (a b : jsstring) : unbroken a -> unbroken b -> unbroken (a ++ b).
Proof.
  intros [A1 A2] [B1 B2]. split; intros C; apply in_app_or in C; tauto.
Qed.

Lemma lines_cons (l rest : jsstring) :
  unbroken l -> lines (l ++ nl ++ rest) = l :: lines rest.
Proof. intros [H1 H2]. unfold lines. apply (lines_from_line l [] rest H1 H2). Qed.

Lemma lines_one (l : jsstring) : unbroken l -> lines l = [l].
Proof. intros [H1 _]. unfold lines. apply (lines_from_single l [] H1). Qed.

Lemma linear_prompt_shape (p : Problem) :
  buildLinearPrompt p
  = linear_intro ++ nl ++ (lit "Problem: " ++ statement p) ++ nl
    ++ (linear_steps ++ lit ", " ++ final_answer_clause).
Proof.
  unfold buildLinearPrompt. fold linear_intro.
  rewrite <- !app_assoc. do 5 (apply (f_equal (app _))).
  vm_compute. reflexivity.
Qed.

Lemma septagon_prompt_shape (p : Problem) :
  buildSeptagonPrompt p
  = septagon_intro ++ nl ++ lit "Nodes:" ++ nl
    ++ join nl (map (fun n => lit "- " ++ n) (septagonNodes p)) ++ nl
    ++ (septagon_steps ++ lit ", " ++ final_answer_clause).
Proof.
  unfold buildSeptagonPrompt. fold septagon_intro.
  rewrite <- !app_assoc. do 6 (apply (f_equal (app _))).
  vm_compute. reflexivity.
Qed.

Lemma lines_block (ls : list jsstring) (last_line : jsstring) :
  Forall unbroken ls -> unbroken last_line ->
  lines (join nl ls ++ nl ++ last_line)
  = match ls with [] => [[]] | _ => ls end ++ [last_line].
Proof.
  intros Hls Hlast. induction Hls as [|l ls Hl Hls IH].
  - cbn [join]. rewrite lines_cons by (split; intros []).
    rewrite lines_one by assumption. reflexivity.
  - destruct ls as [|l' ls].
    + cbn [join]. rewrite lines_cons by assumption.
      rewrite lines_one by assumption. reflexivity.
    + change (join nl (l :: l' :: ls)) with (l ++ nl ++ join nl (l' :: ls)).
      rewrite <- !app_assoc. rewrite lines_cons by assumption.
      rewrite IH. reflexivity.
Qed.

(** X28. For a problem whose statement and nodes hold no line break, the
    linear prompt has three lines: the instruction, Problem: with the
    statement, and the output format; the septagon prompt has the
    instruction, the line Nodes:, one line per node after a dash (one empty
    line when there is no node), and the output format. *)
Theorem prompt_lines (p : Problem) :
  unbroken (statement p) ->
  Forall unbroken (septagonNodes p) ->
  lines (buildLinearPrompt p)
  = [linear_intro; lit "Problem: " ++ statement p;
     linear_steps ++ lit ", " ++ final_answer_clause]
  /\ lines (buildSeptagonPrompt p)
     = [septagon_intro; lit "Nodes:"]
       ++ match septagonNodes p with
          | [] => [[]]
          | nodes => map (fun n => lit "- " ++ n) nodes
          end
       ++ [septagon_steps ++ lit ", " ++ final_answer_clause].
Proof.
  intros Hst Hnodes.
  assert (unbroken (linear_steps ++ lit ", " ++ final_answer_clause)) as Hlin
    by (apply unbroken_when; vm_compute; reflexivity).
  assert (unbroken (septagon_steps ++ lit ", " ++ final_answer_clause)) as Hsep
    by (apply unbroken_when; vm_compute; reflexivity).
  assert (unbroken linear_intro) as Hli by (apply unbroken_when; vm_compute; reflexivity).
  assert (unbroken septagon_intro) as Hsi by (apply unbroken_when; vm_compute; reflexivity).
  assert (unbroken (lit "Problem: ")) as Hp by (apply unbroken_when; vm_compute; reflexivity).
  assert (unbroken (lit "Nodes:")) as Hn by (apply unbroken_when; vm_compute; reflexivity).
  assert (unbroken (lit "- ")) as Hd by (apply unbroken_when; vm_compute; reflexivity).
  split.
  - rewrite linear_prompt_shape.
    rewrite lines_cons by assumption.
    rewrite lines_cons by (apply unbroken_app; assumption).
    rewrite lines_one by assumption. reflexivity.
  - rewrite septagon_prompt_shape.
    rewrite lines_cons by assumption.
    rewrite lines_cons by assumption.
    rewrite lines_block; [| |exact Hsep].
    + cbn [app]. do 2 f_equal. destruct (septagonNodes p); reflexivity.
    + apply Forall_forall. intros l Hl. apply in_map_iff in Hl.
      destruct Hl as [n [<- Hin]]. apply unbroken_app; [exact Hd|].
      rewrite Forall_forall in Hnodes. apply Hnodes. exact Hin.
Qed.

Lemma game_env_uniform (n : nat) : XAyBGame.uniform (Math_random game_env n).
Proof.
  exists (Z.of_nat (n mod 10) # 10). split; [reflexivity|].
  pose proof (Nat.mod_upper_bound n 10 ltac:(lia)) as H.
  unfold Qle, Qlt; cbn [Qnum Qden]. split; lia.
Qed.

(** * Instances of the further properties *)

Lemma only_numbers_pass_witness :
  isWithinTolerance64 (Some 5.1%float) 5%float 0.05%float = true
  /\ value64 5.1%float <> NaN /\ value64 5%float <> NaN /\ value64 0.05%float <> NaN.
Proof.
  assert (isWithinTolerance64 (Some 5.1%float) 5%float 0.05%float = true) as H
    by (vm_compute; reflexivity).
  split; [exact H|].
  destruct (only_numbers_pass 5.1%float 5%float 0.05%float H) as [A [B [C _]]].
  repeat split; assumption.
Defined.

Lemma expected_value_passes_witness :
  isWithinTolerance64 (Some 1.2e-5%float) 1.2e-5%float 0.1%float = true.
Proof.
  apply (expected_value_passes 1.2e-5%float 0.1%float
           (Qred (inject_Z 3602879701896397 * 2 ^ (-55)))).
  - vm_compute. reflexivity.
  - vm_compute. reflexivity.
  - vm_compute. discriminate.
Defined.

Lemma aggregate_of_disjoint_runs_witness :
  aggregate (linear_run ++ septagon_run) = aggregate linear_run ++ aggregate septagon_run
  /\ List.length (aggregate (linear_run ++ septagon_run))
     = (List.length (aggregate linear_run) + List.length (aggregate septagon_run))%nat.
Proof.
  apply (aggregate_of_disjoint_runs linear_run septagon_run).
  intros a b [<-|[]] [<-|[]]. vm_compute. discriminate.
Defined.

Lemma dry_run_latency_floor_witness :
  exists rows w',
    runTrials test_env "linear" 2 true "gpt-4o-mini" start_world = (Ok rows, w')
    /\ Forall (fun r => exists q, latency_sec r = Fin q /\ 5 <= q) rows
    /\ Forall (fun a => num_le (Fin 5) (mean_latency_sec a) = true) (aggregate rows).
Proof.
  apply (dry_run_latency_floor test_env "linear" "gpt-4o-mini" 2 start_world).
  - reflexivity.
  - intros w0. reflexivity.
Defined.

Lemma live_latency_nonnegative_witness :
  exists rows w',
    runTrials keyed_env "septagon" 2 false "gpt-4o-mini" start_world = (Ok rows, w')
    /\ Forall (fun r => exists q, latency_sec r = Fin q /\ 0 <= q) rows
    /\ Forall (fun a => num_le (Fin 0) (mean_latency_sec a) = true) (aggregate rows).
Proof.
  apply (live_latency_nonnegative keyed_env "septagon" "gpt-4o-mini" 2 start_world).
  intros n. cbn [Date_now keyed_env test_env]. lia.
Defined.

Lemma run_then_aggregate_witness :
  exists rows w',
    runTrials test_env "linear" 2 true "gpt-4o-mini" start_world = (Ok rows, w')
    /\ map (fun a => (a_topic a, trials a)) (aggregate rows)
       = map (fun p => (topic p, 2%nat)) problems
    /\ (lit "linear" = lit "linear" \/ lit "linear" = lit "septagon" ->
        map summary_of (aggregate rows)
        = map (fun p => (Some (id p), Some (lit "linear"), topic p, 2%nat)) problems).
Proof.
  apply (run_then_aggregate test_env "linear" "gpt-4o-mini" 2 true start_world). lia.
Defined.

Lemma toCSV_reads_back_witness :
  map (split_string ",") (lines (toCSV fixed_stamp catalog_rows))
  = keys :: map (cells fixed_stamp) catalog_rows.
Proof.
  apply (toCSV_reads_back fixed_stamp catalog_rows).
  - discriminate.
  - intros ms. reflexivity.
  - repeat (apply Forall_cons; [repeat split; reflexivity|]). apply Forall_nil.
Defined.

Lemma main_summary_witness :
  exists rows out w',
    main_from test_env "gpt-4o-mini" fixed_stamp sample_args start_world = Some (Ok out, w')
    /\ (chosen sample_args = [lit "linear"; lit "septagon"]
        \/ chosen sample_args = [lit "linear"] \/ chosen sample_args = [lit "septagon"])
    /\ map row_identity rows = planned_for (chosen sample_args) 2
    /\ Forall plain_row rows
    /\ csv_text out = toCSV fixed_stamp rows
    /\ s_aggregates out = aggregate rows
    /\ map summary_of (s_aggregates out) = expected_summary (chosen sample_args) 2.
Proof.
  apply (main_summary test_env "gpt-4o-mini" fixed_stamp sample_args 2 start_world).
  - vm_compute. reflexivity.
  - lia.
Defined.

Lemma prompt_lines_witness :
  lines (buildLinearPrompt mechanics_a)
  = [linear_intro; lit "Problem: " ++ statement mechanics_a;
     linear_steps ++ lit ", " ++ final_answer_clause]
  /\ lines (buildSeptagonPrompt mechanics_a)
     = [septagon_intro; lit "Nodes:"]
       ++ match septagonNodes mechanics_a with
          | [] => [[]]
          | nodes => map (fun n => lit "- " ++ n) nodes
          end
       ++ [septagon_steps ++ lit ", " ++ final_answer_clause].
Proof.
  apply (prompt_lines mechanics_a).
  - apply unbroken_when. vm_compute. reflexivity.
  - repeat (apply Forall_cons; [apply unbroken_when; vm_compute; reflexivity|]).
    apply Forall_nil.
Defined.

Section GameInstances.

Import XAyBGame.

Lemma feedback_counts_witness :
  (a (calculateXAyB "123" "135") + b (calculateXAyB "123" "135"))%nat = common "123" "135"
  /\ (a (calculateXAyB "123" "135") + b (calculateXAyB "123" "135") <= 3)%nat
  /\ (a (calculateXAyB "123" "135") = 3%nat <-> lit "135" = lit "123")
  /\ (NoDup (lit "123") -> NoDup (lit "135") ->
      calculateXAyB "123" "135" = calculateXAyB "135" "123").
Proof.
  apply (feedback_counts "123" "135"); reflexivity.
Defined.

Lemma feedback_text_witness :
  resultText (calculateXAyB "123" "135")
  = [(48 + N.of_nat (a (calculateXAyB "123" "135")))%N; cu "A";
     (48 + N.of_nat (b (calculateXAyB "123" "135")))%N; cu "B"]
  /\ (resultText (calculateXAyB "123" "135") = lit "3A0B" <-> lit "135" = lit "123").
Proof.
  apply (feedback_text "123" "135"); reflexivity.
Defined.

Lemma game_course_witness :
  let g := submitGuess (submitGuess (new_game "123") "135") " 123 " in
  maxAttempts g = 10%nat
  /\ attempts g = List.length (guesses g)
  /\ (attempts g <= 10)%nat
  /\ well_recorded g
  /\ (gameOver g = true <->
      attempts g = 10%nat \/ In (secretNumber g) (map guess (guesses g)))
  /\ (gameOver g = true -> forall value, submitGuess g value = g).
Proof.
  apply (game_course (submitGuess (submitGuess (new_game "123") "135") " 123 ")).
  apply submitted. apply submitted. apply constructed. reflexivity.
Defined.

Lemma secret_number_drawn_witness :
  exists r w',
    generateSecretNumber game_env 5 start_world = (Ok r, w')
    /\ (random_draws w' <= random_draws start_world + 5)%nat
    /\ forall secret, r = Some secret ->
         three_distinct_digits secret
         /\ validateGuess secret = true
         /\ reachable (new_game secret).
Proof.
  apply (secret_number_drawn game_env 5 start_world). exact game_env_uniform.
Defined.

Lemma secret_number_found_witness :
  exists secret w',
    generateSecretNumber game_env 3 start_world = (Ok (Some secret), w')
    /\ three_distinct_digits secret.
Proof.
  apply (secret_number_found game_env 3 start_world 0 1 2).
  - exact game_env_uniform.
  - lia.
  - lia.
  - lia.
  - vm_compute. discriminate.
  - vm_compute. discriminate.
  - vm_compute. discriminate.
Defined.

End GameInstances.
